(** * The gateway shard (DiscordenoShard) as a transition system

    The shard class of the gateway package is embedded as explicit state
    passing over a [World]: the fields of the shard object, the sockets it
    has opened, its timers, the promises whose resolvers it stores, the
    delays it awaits, the queue of pending microtasks and a trace of what
    can be observed (payloads put on the wire, event callbacks, resolvers
    of the offline queue being called, public calls returning or failing,
    uncaught errors).

    An [async] method is a function that takes the continuation of its
    caller (a [Stack] of frames).  It runs up to its first [await]; there it
    either parks the continuation (in a promise, in the [onopen] slot of a
    socket, in the bucket, in a delay) or, when the awaited value is already
    there, puts it on the microtask queue.  A frame names the rest of a
    method after one of its [await]s.  A call that is not awaited gets the
    empty stack.

    A [throw] rejects the promise of the method it happens in.  No method
    of the class catches, so the rejection unwinds the whole awaiting stack
    and is observed where the stack ends: as the failure of a public call,
    or as a rejection nobody handles.

    [Date.now()] and [Math.random()] are inputs of the events that read
    them; the arithmetic on a sample of [Math.random()] is that of doubles.
    Payloads stay structured: [JSON.stringify], [JSON.parse] and the
    inflating of a Blob are left to the platform, and so is the question
    which strings [new URL] and [new WebSocket] accept ([Platform]).  The
    optional callbacks of [this.events] are recorded in the trace and have
    no effect of their own; [logger.debug] is left out. *)

From Stdlib Require Import ZArith QArith Qround Qminmax Qpower String List Lia
  Bool SpecFloat.
From stdpp Require Import base option list gmap strings.

Local Open Scope string_scope.
Local Open Scope list_scope.
Local Open Scope Z_scope.

(** ** Enumerations *)

(** [ShardState] of [./types.js]. *)
Inductive ShardState :=
| Connected | Connecting | Disconnected | Unidentified | Identifying
| Resuming | Offline.

#[global] Instance ShardState_eq_dec : EqDecision ShardState.
Proof. solve_decision. Defined.

(** [WebSocket.readyState]. *)
Inductive ReadyState := CONNECTING | OPEN | CLOSING | CLOSED.

#[global] Instance ReadyState_eq_dec : EqDecision ReadyState.
Proof. solve_decision. Defined.

(** [GatewayOpcodes] of [@discordeno/types]. *)
Inductive GatewayOpcodes :=
| Dispatch | Heartbeat | Identify | PresenceUpdate | VoiceStateUpdate
| Resume | Reconnect | RequestGuildMembers | InvalidSession | Hello
| HeartbeatACK.

#[global] Instance GatewayOpcodes_eq_dec : EqDecision GatewayOpcodes.
Proof. solve_decision. Defined.

(** The numeric constants the shard compares close codes and intents with.
    Their declarations ([ShardSocketCloseCodes] in [./types.js],
    [GatewayCloseEventCodes] and [GatewayIntents] in [@discordeno/types])
    are not part of the sources at hand, so the shard is parameterised by
    them. *)
Class GatewayConstants := {
  (* ShardSocketCloseCodes *)
  Shutdown : Z;
  ResumeClosingOldConnection : Z;
  ZombiedConnection : Z;
  TestingFinished : Z;
  Resharded : Z;
  ReIdentifying : Z;
  (* GatewayCloseEventCodes *)
  UnknownError : Z;
  UnknownOpcode : Z;
  DecodeError : Z;
  NotAuthenticated : Z;
  AuthenticationFailed : Z;
  AlreadyAuthenticated : Z;
  InvalidSeq : Z;
  RateLimited : Z;
  SessionTimedOut : Z;
  InvalidShard : Z;
  ShardingRequired : Z;
  InvalidApiVersion : Z;
  InvalidIntents : Z;
  DisallowedIntents : Z;
  (* GatewayIntents *)
  GuildMembers : Z
}.

(** Keys of the [resolves] map. *)
Inductive ResolveKey := READY | RESUMED | INVALID_SESSION.

#[global] Instance ResolveKey_eq_dec : EqDecision ResolveKey.
Proof. solve_decision. Defined.

#[global] Instance ResolveKey_countable : Countable ResolveKey.
Proof.
  refine (inj_countable'
    (fun k => match k with READY => 0%nat | RESUMED => 1%nat
                        | INVALID_SESSION => 2%nat end)
    (fun n => match n with 0%nat => READY | 1%nat => RESUMED
                        | _ => INVALID_SESSION end) _).
  by intros [].
Defined.

(** ** Payloads *)

(** The [d] field of an incoming packet, as far as the shard looks into it. *)
Inductive PacketData :=
| DNull
| DBool (b : bool)
| DHello (heartbeat_interval : Z)
| DReady (session_id resume_gateway_url : string)
| DObject.

(** [DiscordGatewayPayload]: [{ op, d, s, t }]. *)
Record DiscordGatewayPayload := {
  op : GatewayOpcodes;
  d : PacketData;
  s : option Z;
  t : option string
}.

(** JavaScript truthiness of [packet.d] (read as [resumable]). *)
Definition truthy_data (x : PacketData) : bool :=
  match x with
  | DNull => false
  | DBool b => b
  | _ => true
  end.

(** Reading a property of [packet.d] throws a [TypeError] when [d] is
    [null]; on any other value the read succeeds. *)
Definition is_null (x : PacketData) : bool :=
  match x with DNull => true | _ => false end.

(** [(packet.d as DiscordHello).heartbeat_interval], for a [d] that is not
    [null].  On a payload without the field the read gives [undefined],
    with which the code goes on; the model has no such interval and goes on
    with [0], so what is stated about the interval of a Hello is stated for
    a payload that has the field. *)
Definition hello_interval (x : PacketData) : Z :=
  match x with DHello i => i | _ => 0 end.

(** [payload.session_id] and [payload.resume_gateway_url] of a READY, for
    a [d] that is not [null].  A payload without the fields gives
    [undefined] for both: no session, and a resume url that does not
    parse, for which the empty string stands. *)
Definition ready_session_id (x : PacketData) : option string :=
  match x with DReady sid _ => Some sid | _ => None end.

Definition ready_resume_url (x : PacketData) : string :=
  match x with DReady _ u => u | _ => "" end.

(** The packets on which the handler reads a property of a [null]: a
    Hello, which is read for its interval, and a READY, which is read for
    the resume url and the session id. *)
Definition null_hello (packet : DiscordGatewayPayload) : bool :=
  bool_decide (op packet = Hello) && is_null (d packet).

Definition null_ready (packet : DiscordGatewayPayload) : bool :=
  bool_decide (t packet = Some "READY") && is_null (d packet).

(** The packets that reach the drain of the offline queue: a RESUMED, and
    a READY whose [d] can be read. *)
Definition drains (packet : DiscordGatewayPayload) : bool :=
  bool_decide (t packet = Some "RESUMED")
  || (bool_decide (t packet = Some "READY") && negb (is_null (d packet))).

(** [BotStatusUpdate] and [StatusUpdate]: what the shard copies through. *)
Record StatusUpdate := {
  activities : list string;
  status : string
}.

(** [ShardGatewayConfig] ([this.connection]).  [urlIsPrimary] stands for
    [new URL(url).origin === 'wss://gateway.discord.gg']. *)
Record ShardGatewayConfig := {
  url : string;
  urlIsPrimary : bool;
  version : Z;
  token : string;
  compress : bool;
  properties : string;
  intents : Z;
  totalShards : Z
}.

(** [Omit<RequestGuildMembers, 'guildId'>]; every field is optional. *)
Record RequestGuildMembersOptions := {
  limit : option Z;
  query : option string;
  presences : option bool;
  userIds : option (list string)
}.

(** [ShardSocketRequest], the argument of [send]. *)
Inductive ShardSocketRequest :=
| ReqIdentify (tok : string) (compr : bool) (props : string) (ints : Z)
    (shard_id shard_total : Z) (presence : option StatusUpdate)
| ReqResume (tok : string) (session : option string) (seq : Z)
| ReqPresenceUpdate (acts : list string) (stat : string)
    (* [since: null] and [afk: false] are constant *)
| ReqVoiceStateUpdate (guild_id : string) (channel_id : option string)
    (self_mute self_deaf : bool)
| ReqRequestGuildMembers (guild_id : string) (qry : option string)
    (lim : Z) (pres : bool) (user_ids : option (list string))
    (nonce : string * Z).

(** What goes on the wire: a request, or a heartbeat sent directly. *)
Inductive Wire :=
| WireRequest (m : ShardSocketRequest)
| WireHeartbeat (seq : option Z).

(** ** Continuations *)

(** The rest of an [async] method after one of its [await]s. *)
Inductive Frame :=
| KIdentifyConnected                       (* identify: after connect() *)
| KIdentifyPermitted                       (* identify: after requestIdentify() *)
| KIdentifyPresence (p : option StatusUpdate) (* identify: after makePresence() *)
| KResumeConnected                         (* resume: after connect() *)
| KSendOnline (m : ShardSocketRequest) (highPriority : bool)
| KSendToken (m : ShardSocketRequest) (highPriority : bool)
| KSendTransmit (m : ShardSocketRequest)
| KInvalidSessionDelayed (packet : DiscordGatewayPayload)
| KPacketEpilogue (packet : DiscordGatewayPayload)
| KMessageInflated (packet : DiscordGatewayPayload) (now : Z) (rnd : Q)
| KRequestMembersSent                      (* requestMembers: return [] *)
| KReturn (call : nat).                    (* the caller of a public method *)

Definition Stack := list Frame.

(** A stored resolver closure.  [ResolvePlain] is a bare [resolve];
    [ResolveReady] is identify's READY closure (emits [identified]);
    [ResolveInvalid k] is the INVALID_SESSION closure of identify or resume,
    which first deletes the entry [k]. *)
Inductive Resolver :=
| ResolvePlain (promise : nat)
| ResolveReady (promise : nat)
| ResolveInvalid (other : ResolveKey) (promise : nat).

Definition resolver_promise (r : Resolver) : nat :=
  match r with
  | ResolvePlain p | ResolveReady p | ResolveInvalid _ p => p
  end.

(** A promise made by [new Promise]: pending with the continuation that
    awaits it, or settled. *)
Inductive PromiseState :=
| Pending (k : Stack)
| Settled.

(** ** The shard and its surroundings *)

(** [ShardHeart]. *)
Record ShardHeart := {
  acknowledged : bool;
  interval : Z;
  lastBeat : option Z;
  lastAck : option Z;
  rtt : option Z;
  timeoutId : option nat;
  intervalId : option nat
}.

(** Modelled from the spec: [createLeakyBucket] of [@discordeno/utils] is
    not part of the sources at hand.  Section 4.1 of the specification: a
    token count with periodic refill; [acquire(n, highPriority)] blocks
    until [n] tokens are available, high-priority waiters are put at the
    head of the waiter list and the others at its tail. *)
Record LeakyBucket := {
  max : Z;
  refillInterval : Z;
  refillAmount : Z;
  tokens : Z;
  waiting : list (Z * Stack)
}.

Definition createLeakyBucket (mx ri ra : Z) (w : list (Z * Stack))
  : LeakyBucket :=
  {| max := mx; refillInterval := ri; refillAmount := ra; tokens := mx;
     waiting := w |}.

(** The address [connect] hands to [new WebSocket]. *)
Inductive SocketUrl :=
| UrlPlain (u : string)
| UrlVersioned (u : string) (v : Z).   (* with [v] and [encoding=json] *)

(** What the platform decides on the addresses of [connect()]:
    [new URL(s)] throws a [TypeError] on a string that does not parse, the
    empty string among them, and [new WebSocket(u)] throws a [SyntaxError]
    on an address it does not accept.  Neither constructor is part of the
    sources at hand, so the shard is parameterised by what they accept. *)
Class Platform := {
  url_parses : string -> bool;
  url_parses_empty : url_parses "" = false;
  websocket_accepts : SocketUrl -> bool
}.

Record WebSocket := {
  readyState : ReadyState;
  address : SocketUrl;
  (* the continuation [socket.onopen] resolves, until the socket opens *)
  onopen : option Stack;
  (* code and reason of a [close] call *)
  closeCall : option (Z * string)
}.

Inductive TimerKind := JitterTimeout | SteadyInterval.

Record Timer := {
  kind : TimerKind;
  period : Z;
  active : bool
}.

(** Names of the [ShardEvents] callbacks. *)
Inductive ShardEvent :=
| connecting | connected | identifying | identified | disconnected
| hello | heartbeat | heartbeatAck | requestedReconnect
| invalidSession (resumable : bool) | resumed
| message (packet : DiscordGatewayPayload).

(** What can be observed of a run. *)
Inductive Obs :=
| Emitted (e : ShardEvent)                 (* this.events.e?.(this, ...) *)
| Transmitted (sock : nat) (m : Wire)      (* socket.send on an open socket *)
| Dropped (sock : option nat) (m : Wire)   (* socket?.send with no open socket *)
| Woken (r : Resolver)                     (* an offline-queue resolver called *)
| Returned (call : nat)                    (* a public call completed *)
| Uncaught (msg : string)                  (* a rejected handler promise *)
| Failed (call : nat) (msg : string)       (* a public call rejected *)
| Logged (msg : string).                   (* console.log *)

Record DiscordenoShard := {
  id : Z;
  connection : ShardGatewayConfig;
  heart : ShardHeart;
  maxRequestsPerRateLimitTick : Z;
  previousSequenceNumber : option Z;
  rateLimitResetInterval : Z;
  sessionId : option string;
  socket : option nat;
  state : ShardState;
  resumeGatewayUrl : string;
  offlineSendQueue : list Resolver;
  resolves : gmap ResolveKey Resolver;
  bucket : LeakyBucket;
  cacheEnabled : bool;
  cachePending : gmap (string * Z) nat
}.

Record World := {
  shard : DiscordenoShard;
  sockets : list WebSocket;
  timers : list Timer;
  promises : list PromiseState;
  delays : list (Z * option Stack);
  ready : list Stack;
  trace : list Obs
}.

(** ** Field updates *)

Definition with_shard (f : DiscordenoShard -> DiscordenoShard) (w : World)
  : World :=
  Build_World (f (shard w)) (sockets w) (timers w) (promises w) (delays w)
    (ready w) (trace w).

Definition with_sockets (x : list WebSocket) (w : World) : World :=
  Build_World (shard w) x (timers w) (promises w) (delays w) (ready w)
    (trace w).

Definition with_timers (x : list Timer) (w : World) : World :=
  Build_World (shard w) (sockets w) x (promises w) (delays w) (ready w)
    (trace w).

Definition with_promises (x : list PromiseState) (w : World) : World :=
  Build_World (shard w) (sockets w) (timers w) x (delays w) (ready w)
    (trace w).

Definition with_delays (x : list (Z * option Stack)) (w : World) : World :=
  Build_World (shard w) (sockets w) (timers w) (promises w) x (ready w)
    (trace w).

Definition with_ready (x : list Stack) (w : World) : World :=
  Build_World (shard w) (sockets w) (timers w) (promises w) (delays w) x
    (trace w).

Definition with_trace (x : list Obs) (w : World) : World :=
  Build_World (shard w) (sockets w) (timers w) (promises w) (delays w)
    (ready w) x.

Definition shard_heart (x : ShardHeart) (sh : DiscordenoShard) :=
  Build_DiscordenoShard (id sh) (connection sh) x
    (maxRequestsPerRateLimitTick sh) (previousSequenceNumber sh)
    (rateLimitResetInterval sh) (sessionId sh) (socket sh) (state sh)
    (resumeGatewayUrl sh) (offlineSendQueue sh) (resolves sh) (bucket sh)
    (cacheEnabled sh) (cachePending sh).

Definition shard_previousSequenceNumber (x : option Z) (sh : DiscordenoShard) :=
  Build_DiscordenoShard (id sh) (connection sh) (heart sh)
    (maxRequestsPerRateLimitTick sh) x
    (rateLimitResetInterval sh) (sessionId sh) (socket sh) (state sh)
    (resumeGatewayUrl sh) (offlineSendQueue sh) (resolves sh) (bucket sh)
    (cacheEnabled sh) (cachePending sh).

Definition shard_sessionId (x : option string) (sh : DiscordenoShard) :=
  Build_DiscordenoShard (id sh) (connection sh) (heart sh)
    (maxRequestsPerRateLimitTick sh) (previousSequenceNumber sh)
    (rateLimitResetInterval sh) x (socket sh) (state sh)
    (resumeGatewayUrl sh) (offlineSendQueue sh) (resolves sh) (bucket sh)
    (cacheEnabled sh) (cachePending sh).

Definition shard_socket (x : option nat) (sh : DiscordenoShard) :=
  Build_DiscordenoShard (id sh) (connection sh) (heart sh)
    (maxRequestsPerRateLimitTick sh) (previousSequenceNumber sh)
    (rateLimitResetInterval sh) (sessionId sh) x (state sh)
    (resumeGatewayUrl sh) (offlineSendQueue sh) (resolves sh) (bucket sh)
    (cacheEnabled sh) (cachePending sh).

Definition shard_state (x : ShardState) (sh : DiscordenoShard) :=
  Build_DiscordenoShard (id sh) (connection sh) (heart sh)
    (maxRequestsPerRateLimitTick sh) (previousSequenceNumber sh)
    (rateLimitResetInterval sh) (sessionId sh) (socket sh) x
    (resumeGatewayUrl sh) (offlineSendQueue sh) (resolves sh) (bucket sh)
    (cacheEnabled sh) (cachePending sh).

Definition shard_resumeGatewayUrl (x : string) (sh : DiscordenoShard) :=
  Build_DiscordenoShard (id sh) (connection sh) (heart sh)
    (maxRequestsPerRateLimitTick sh) (previousSequenceNumber sh)
    (rateLimitResetInterval sh) (sessionId sh) (socket sh) (state sh)
    x (offlineSendQueue sh) (resolves sh) (bucket sh)
    (cacheEnabled sh) (cachePending sh).

Definition shard_offlineSendQueue (x : list Resolver) (sh : DiscordenoShard) :=
  Build_DiscordenoShard (id sh) (connection sh) (heart sh)
    (maxRequestsPerRateLimitTick sh) (previousSequenceNumber sh)
    (rateLimitResetInterval sh) (sessionId sh) (socket sh) (state sh)
    (resumeGatewayUrl sh) x (resolves sh) (bucket sh)
    (cacheEnabled sh) (cachePending sh).

Definition shard_resolves (x : gmap ResolveKey Resolver) (sh : DiscordenoShard) :=
  Build_DiscordenoShard (id sh) (connection sh) (heart sh)
    (maxRequestsPerRateLimitTick sh) (previousSequenceNumber sh)
    (rateLimitResetInterval sh) (sessionId sh) (socket sh) (state sh)
    (resumeGatewayUrl sh) (offlineSendQueue sh) x (bucket sh)
    (cacheEnabled sh) (cachePending sh).

Definition shard_bucket (x : LeakyBucket) (sh : DiscordenoShard) :=
  Build_DiscordenoShard (id sh) (connection sh) (heart sh)
    (maxRequestsPerRateLimitTick sh) (previousSequenceNumber sh)
    (rateLimitResetInterval sh) (sessionId sh) (socket sh) (state sh)
    (resumeGatewayUrl sh) (offlineSendQueue sh) (resolves sh) x
    (cacheEnabled sh) (cachePending sh).

Definition shard_cachePending (x : gmap (string * Z) nat)
  (sh : DiscordenoShard) :=
  Build_DiscordenoShard (id sh) (connection sh) (heart sh)
    (maxRequestsPerRateLimitTick sh) (previousSequenceNumber sh)
    (rateLimitResetInterval sh) (sessionId sh) (socket sh) (state sh)
    (resumeGatewayUrl sh) (offlineSendQueue sh) (resolves sh) (bucket sh)
    (cacheEnabled sh) x.

Definition set_state (x : ShardState) : World -> World :=
  with_shard (shard_state x).

Definition set_heart (x : ShardHeart) : World -> World :=
  with_shard (shard_heart x).

Definition set_resolves (x : gmap ResolveKey Resolver) : World -> World :=
  with_shard (shard_resolves x).

Definition set_bucket (x : LeakyBucket) : World -> World :=
  with_shard (shard_bucket x).

Definition heart_acknowledged (b : bool) (h : ShardHeart) : ShardHeart :=
  Build_ShardHeart b (interval h) (lastBeat h) (lastAck h) (rtt h)
    (timeoutId h) (intervalId h).

Definition heart_lastBeat (x : option Z) (h : ShardHeart) : ShardHeart :=
  Build_ShardHeart (acknowledged h) (interval h) x (lastAck h) (rtt h)
    (timeoutId h) (intervalId h).

(** ** Primitives *)

Definition observe (o : Obs) (w : World) : World :=
  with_trace (trace w ++ [o]) w.

(** [this.events.e?.(this)]. *)
Definition emit (e : ShardEvent) : World -> World := observe (Emitted e).

(** A continuation whose awaited promise is resolved runs as a microtask.
    The empty stack is a call nobody awaits. *)
Definition enqueue (k : Stack) (w : World) : World :=
  match k with
  | [] => w
  | _ => with_ready (ready w ++ [k]) w
  end.

(** The errors of the platform.  Their texts are the platform's; the model
    names the class of the error and what threw it. *)
Definition invalid_url : string := "TypeError: Invalid URL".
Definition invalid_socket_url : string := "SyntaxError: invalid WebSocket URL".
Definition null_read : string := "TypeError: cannot read properties of null".

(** A [throw] in the method awaited by [k].  The promise of the method is
    rejected, and since no method of the class catches, every frame of [k]
    rethrows in its turn: the rejection ends at the caller of a public
    method, whose call fails, or, under a handler of the transport or of a
    timer, as a rejection nobody handles.  None of the frames runs.  The
    rejection travels through the microtask queue; the model records its
    arrival at once. *)
Fixpoint rejection (msg : string) (k : Stack) : Obs :=
  match k with
  | [] => Uncaught msg
  | KReturn c :: _ => Failed c msg
  | _ :: k' => rejection msg k'
  end.

Definition reject (msg : string) (k : Stack) (w : World) : World :=
  observe (rejection msg k) w.

(** [new Promise(...)] awaited by [k]. *)
Definition new_promise (k : Stack) (w : World) : nat * World :=
  (length (promises w), with_promises (promises w ++ [Pending k]) w).

(** [resolve()]: nothing happens on a settled promise. *)
Definition settle (p : nat) (w : World) : World :=
  match promises w !! p with
  | Some (Pending k) => enqueue k (with_promises (<[p := Settled]> (promises w)) w)
  | _ => w
  end.

(** Calling a stored resolver closure. *)
Definition call_resolver (r : Resolver) (w : World) : World :=
  match r with
  | ResolvePlain p => settle p w
  | ResolveReady p => settle p (emit identified w)
  | ResolveInvalid key p =>
      settle p (set_resolves (delete key (resolves (shard w))) w)
  end.

(** [this.resolves.get(key)?.(packet); this.resolves.delete(key)]. *)
Definition resolve_and_delete (key : ResolveKey) (w : World) : World :=
  let w1 := match resolves (shard w) !! key with
            | Some r => call_resolver r w
            | None => w
            end in
  set_resolves (delete key (resolves (shard w1))) w1.

Definition socket_readyState (w : World) : option ReadyState :=
  i ← socket (shard w); sk ← sockets w !! i; Some (readyState sk).

(** [isOpen()]: [this.socket?.readyState === WebSocket.OPEN]. *)
Definition isOpen (w : World) : bool :=
  bool_decide (socket_readyState w = Some OPEN).

(** [this.socket?.send(JSON.stringify(m))].  Only an open socket puts the
    payload on the wire; otherwise nothing is transmitted, which the trace
    records as [Dropped]. *)
Definition socket_send (m : Wire) (w : World) : World :=
  match socket (shard w) with
  | Some i =>
      if isOpen w then observe (Transmitted i m) w
      else observe (Dropped (Some i) m) w
  | None => observe (Dropped None m) w
  end.

(** [close(code, reason)]: a no-op unless the socket is open; the transport
    then enters its closing handshake. *)
Definition close (code : Z) (reason : string) (w : World) : World :=
  match socket (shard w) with
  | Some i =>
      match sockets w !! i with
      | Some sk =>
          if bool_decide (readyState sk = OPEN) then
            with_sockets
              (<[i := Build_WebSocket CLOSING (address sk) (onopen sk)
                        (Some (code, reason))]> (sockets w)) w
          else w
      | None => w
      end
  | None => w
  end.

(** [calculateSafeRequests()].  [Math.ceil(a / b)] on integers is
    [- ((- a) / b)]; a zero interval makes the quotient infinite and the
    result is clamped to [0]. *)
Definition calculateSafeRequests (sh : DiscordenoShard) : Z :=
  if interval (heart sh) =? 0 then 0
  else
    let safeRequests :=
      maxRequestsPerRateLimitTick sh
      - (- ((- rateLimitResetInterval sh) / interval (heart sh))) * 2 in
    if safeRequests <? 0 then 0 else safeRequests.

(** [checkOffline(highPriority)], awaited by [k]. *)
Definition checkOffline (highPriority : bool) (k : Stack) (w : World) : World :=
  if negb (isOpen w) then
    let '(p, w1) := new_promise k w in
    let q := offlineSendQueue (shard w1) in
    with_shard (shard_offlineSendQueue
      (if highPriority then ResolvePlain p :: q else q ++ [ResolvePlain p])) w1
  else enqueue k w.

(** Modelled from the spec: [bucket.acquire(amount, highPriority)] of the
    missing [createLeakyBucket]; see [LeakyBucket]. *)
Definition bucket_acquire (amount : Z) (highPriority : bool) (k : Stack)
  (w : World) : World :=
  let b := bucket (shard w) in
  if amount <=? tokens b then
    enqueue k (set_bucket (Build_LeakyBucket (max b) (refillInterval b)
      (refillAmount b) (tokens b - amount) (waiting b)) w)
  else
    set_bucket (Build_LeakyBucket (max b) (refillInterval b) (refillAmount b)
      (tokens b)
      (if highPriority then (amount, k) :: waiting b
       else waiting b ++ [(amount, k)])) w.

(** Modelled from the spec: serving the waiters of the missing bucket from
    the head of the list while the tokens last. *)
Fixpoint bucket_serve (tok : Z) (ws : list (Z * Stack))
  : Z * list (Z * Stack) * list Stack :=
  match ws with
  | [] => (tok, [], [])
  | (n, k) :: rest =>
      if n <=? tok then
        let '(tok', rest', woken) := bucket_serve (tok - n) rest in
        (tok', rest', k :: woken)
      else (tok, ws, [])
  end.

(** Modelled from the spec: the periodic refill of the missing bucket. *)
Definition bucket_refill (w : World) : World :=
  let b := bucket (shard w) in
  let '(tok, rest, woken) :=
    bucket_serve (Z.min (max b) (tokens b + refillAmount b)) (waiting b) in
  foldl (fun w k => enqueue k w)
    (set_bucket (Build_LeakyBucket (max b) (refillInterval b)
       (refillAmount b) tok rest) w) woken.

(** [send(message, highPriority)] and its three continuations. *)
Definition send (m : ShardSocketRequest) (highPriority : bool) (k : Stack)
  : World -> World :=
  checkOffline highPriority (KSendOnline m highPriority :: k).

Definition send_online (m : ShardSocketRequest) (highPriority : bool)
  (k : Stack) : World -> World :=
  bucket_acquire 1 highPriority (KSendToken m highPriority :: k).

Definition send_token (m : ShardSocketRequest) (highPriority : bool)
  (k : Stack) : World -> World :=
  checkOffline highPriority (KSendTransmit m :: k).

Definition send_transmit (m : ShardSocketRequest) (k : Stack) (w : World)
  : World :=
  enqueue k (socket_send (WireRequest m) w).

(** [[ShardState.Identifying, ShardState.Resuming].includes(this.state)]. *)
Definition in_handshake (w : World) : bool :=
  bool_decide (state (shard w) = Identifying)
  || bool_decide (state (shard w) = Resuming).

(** The address [connect()] builds in the world [w]. *)
Definition connect_address (w : World) : SocketUrl :=
  let cfg := connection (shard w) in
  if urlIsPrimary cfg then
    UrlVersioned
      (if bool_decide (state (shard w) = Resuming)
       then resumeGatewayUrl (shard w) else url cfg)
      (version cfg)
  else UrlPlain (url cfg).

(** [connect()] before its constructors: the state and the [connecting]
    callback. *)
Definition connect_prepared (w : World) : World :=
  emit connecting (if in_handshake w then w else set_state Connecting w).

(** [connect()] from [new WebSocket] on: the socket becomes [this.socket]
    and the caller [k] is parked on its [onopen]. *)
Definition connect_socket (k : Stack) (w : World) : World :=
  with_sockets
    (sockets w ++ [Build_WebSocket CONNECTING (connect_address w) (Some k) None])
    (with_shard (shard_socket (Some (length (sockets w)))) w).

(** [connect()], awaited by [k], up to the promise on [socket.onopen].
    The state and the [connecting] callback come first.  Then
    [new URL(this.gatewayConfig.url)], on the primary gateway while
    resuming [new URL(this.resumeGatewayUrl)], and [new WebSocket] may
    throw, each before [this.socket] is set. *)
Definition connect `{Platform} (k : Stack) (w : World) : World :=
  let w2 := connect_prepared w in
  let cfg := connection (shard w2) in
  if negb (url_parses (url cfg)) then reject invalid_url k w2
  else if urlIsPrimary cfg && bool_decide (state (shard w2) = Resuming)
          && negb (url_parses (resumeGatewayUrl (shard w2)))
  then reject invalid_url k w2
  else if negb (websocket_accepts (connect_address w2))
  then reject invalid_socket_url k w2
  else connect_socket k w2.

(** Whether [connect()] gets as far as a socket in the world [w]: none of
    the three constructors throws. *)
Definition connectable `{Platform} (w : World) : bool :=
  let cfg := connection (shard w) in
  url_parses (url cfg)
  && (negb (urlIsPrimary cfg && bool_decide (state (shard w) = Resuming))
      || url_parses (resumeGatewayUrl (shard w)))
  && websocket_accepts (connect_address w).

(** The same for the [connect()] of [identify()] and of [resume()], which
    set the state first. *)
Definition can_identify `{Platform} (w : World) : bool :=
  connectable (set_state Identifying w).

Definition can_resume `{Platform} (w : World) : bool :=
  connectable (set_state Resuming w).

(** The [socket.onopen] handler of [connect]. *)
Definition socket_onopen (k : Stack) (w : World) : World :=
  let w1 := if in_handshake w then w else set_state Unidentified w in
  enqueue k (emit connected w1).

(** [requestIdentify()]: the body is empty. *)
Definition requestIdentify (k : Stack) : World -> World := enqueue k.

(** [makePresence()]: returns [undefined] unless overridden. *)
Definition makePresence : option StatusUpdate := None.

(** JavaScript truthiness of an optional string and of a number. *)
Definition truthy_string (x : option string) : bool :=
  match x with
  | Some v => negb (String.eqb v "")
  | None => false
  end.

Definition truthy_number (x : Z) : bool := negb (x =? 0).

Definition truthy_optnumber (x : option Z) : bool :=
  match x with
  | Some v => truthy_number v
  | None => false
  end.

(** [Math.random() || 0.5]. *)
Definition random_or_half (r : Q) : Q :=
  if Qeq_bool r 0 then (1 # 2)%Q else r.

(** *** Double arithmetic

    The numbers of the code are IEEE 754 doubles: a product or a sum is
    the exact result rounded to the nearest double, ties to even.  A
    double is a rational here, and rounding is done on rationals; the
    overflow to infinity above [2^1024] is left out, the numbers at hand
    being far below. *)

(** [floor (log2 q)] for a positive [q]. *)
Definition floor_log2 (q : Q) : Z :=
  let e0 := Z.log2 (Qnum q) - Z.log2 (Zpos (Qden q)) in
  if Qle_bool (2 ^ e0)%Q q then e0 else e0 - 1.

(** The nearest integer, the even one of two that are equally near. *)
Definition round_half_even (q : Q) : Z :=
  let f := Qfloor q in
  match Qcompare (q - inject_Z f) (1 # 2) with
  | Lt => f
  | Gt => f + 1
  | Eq => if Z.even f then f else f + 1
  end.

(** The exponent of the last place of the doubles around [q]: 53 bits of
    significand, and the fixed spacing [2^-1074] of the subnormal
    doubles below [2^-1022]. *)
Definition ulp_exponent (q : Q) : Z := Z.max (floor_log2 q) (-1022) - 52.

Definition round_positive (q : Q) : Q :=
  inject_Z (round_half_even (q / 2 ^ ulp_exponent q)) * 2 ^ ulp_exponent q.

(** The double nearest to [q]. *)
Definition round_double (q : Q) : Q :=
  match Qcompare q 0 with
  | Eq => 0
  | Gt => round_positive q
  | Lt => - round_positive (- q)
  end.

(** [x * y] and [x + y] on doubles. *)
Definition double_mul (x y : Q) : Q := round_double (x * y).
Definition double_add (x y : Q) : Q := round_double (x + y).

(** The rationals that are doubles. *)
Definition is_double (q : Q) : bool := Qeq_bool (round_double q) q.

(** The value of a finite float of the Standard Library's specification of
    IEEE 754 arithmetic, against which [round_double] is checked below. *)
Definition spec_value (x : spec_float) : Q :=
  match x with
  | S754_finite sg m e => (if sg then -1 else 1) * inject_Z (Zpos m) * 2 ^ e
  | _ => 0
  end.

(** [Math.ceil(this.heart.interval * (Math.random() || 0.5))]: the
    interval is an integer below [2^53], hence a double; the product is a
    product of doubles. *)
Definition jitter (itv : Z) (r : Q) : Z :=
  Qceiling (double_mul (inject_Z itv) (random_or_half r)).

(** [Math.floor((Math.random() * 4 + 1) * 1000)], in doubles. *)
Definition invalid_session_delay (r : Q) : Z :=
  Qfloor (double_mul (double_add (double_mul r 4) 1) 1000).

(** [delay(ms)] of [@discordeno/utils], awaited by [k]. *)
Definition delay (ms : Z) (k : Stack) (w : World) : World :=
  with_delays (delays w ++ [(ms, Some k)]) w.

(** [clearTimeout(id)] and [clearInterval(id)]. *)
Definition clear_timer (i : option nat) (w : World) : World :=
  match i with
  | Some n =>
      match timers w !! n with
      | Some tm =>
          with_timers (<[n := Build_Timer (kind tm) (period tm) false]> (timers w)) w
      | None => w
      end
  | None => w
  end.

(** [stopHeartbeating()]. *)
Definition stopHeartbeating (w : World) : World :=
  clear_timer (timeoutId (heart (shard w)))
    (clear_timer (intervalId (heart (shard w))) w).

(** [startHeartbeating(interval)] up to [setTimeout]; [rnd] is the sample
    [Math.random()] returns. *)
Definition startHeartbeating (itv : Z) (rnd : Q) (w : World) : World :=
  let h := heart (shard w) in
  let w1 := set_heart (Build_ShardHeart (acknowledged h) itv (lastBeat h)
              (lastAck h) (rtt h) (timeoutId h) (intervalId h)) w in
  let w2 :=
    if bool_decide (state (shard w1) = Disconnected)
       || bool_decide (state (shard w1) = Offline)
    then set_state Unidentified w1 else w1 in
  let h2 := heart (shard w2) in
  let j := jitter (interval h2) rnd in
  set_heart (Build_ShardHeart (acknowledged h2) (interval h2) (lastBeat h2)
               (lastAck h2) (rtt h2) (Some (length (timers w2))) (intervalId h2))
    (with_timers (timers w2 ++ [Build_Timer JitterTimeout j true]) w2).

(** The callback of the jitter [setTimeout]. *)
Definition jitter_timeout (now : Z) (w : World) : World :=
  if negb (isOpen w) then w
  else
    let w1 :=
      socket_send (WireHeartbeat (previousSequenceNumber (shard w))) w in
    let h := heart (shard w1) in
    let w2 := set_heart (Build_ShardHeart false (interval h) (Some now)
                (lastAck h) (rtt h) (timeoutId h) (intervalId h)) w1 in
    let h2 := heart (shard w2) in
    set_heart (Build_ShardHeart (acknowledged h2) (interval h2) (lastBeat h2)
                 (lastAck h2) (rtt h2) (timeoutId h2) (Some (length (timers w2))))
      (with_timers
         (timers w2 ++ [Build_Timer SteadyInterval (interval h2) true]) w2).

Inductive Outcome :=
| Normal (w : World)
| Thrown (msg : string) (w : World).

Inductive MessageData :=
| MsgText (packet : DiscordGatewayPayload)   (* a string that parses to it *)
| MsgBlob (packet : DiscordGatewayPayload)   (* a Blob that inflates to it *)
| MsgBinary.                                 (* neither string nor Blob *)

Section Shard.
Context `{GatewayConstants} `{Platform}.

(** [identify()], awaited by [k], and its continuations. *)
Definition identify_presence (p : option StatusUpdate) (k : Stack) (w : World)
  : World :=
  let cfg := connection (shard w) in
  let w1 :=
    send (ReqIdentify ("Bot " ++ token cfg)%string (compress cfg) (properties cfg)
            (intents cfg) (id (shard w)) (totalShards cfg) p) true [] w in
  let '(pr, w2) := new_promise k w1 in
  let w3 := set_resolves (<[READY := ResolveReady pr]> (resolves (shard w2))) w2 in
  set_resolves
    (<[INVALID_SESSION := ResolveInvalid READY pr]> (resolves (shard w3))) w3.

Definition identify_permitted (k : Stack) (w : World) : World :=
  enqueue (KIdentifyPresence makePresence :: k) w.

Definition identify_connected (k : Stack) (w : World) : World :=
  requestIdentify (KIdentifyPermitted :: k) w.

Definition identify (k : Stack) (w : World) : World :=
  let w1 :=
    if isOpen w then
      close ReIdentifying "Re-identifying closure of old connection."
        (observe (Logged "CLOSING EXISTING SHARD") w)
    else w in
  let w2 := emit identifying (set_state Identifying w1) in
  if negb (isOpen w2) then connect (KIdentifyConnected :: k) w2
  else identify_connected k w2.

(** [resume()], awaited by [k], and its continuation. *)
Definition resume_connected (k : Stack) (w : World) : World :=
  let w1 :=
    send (ReqResume ("Bot " ++ token (connection (shard w)))%string
            (sessionId (shard w))
            (default 0 (previousSequenceNumber (shard w)))) true [] w in
  let '(pr, w2) := new_promise k w1 in
  let w3 := set_resolves (<[RESUMED := ResolvePlain pr]> (resolves (shard w2))) w2 in
  set_resolves
    (<[INVALID_SESSION := ResolveInvalid RESUMED pr]> (resolves (shard w3))) w3.

Definition resume (k : Stack) (w : World) : World :=
  let w1 :=
    if isOpen w then
      close ResumeClosingOldConnection
        "Reconnecting the shard, closing old connection." w
    else w in
  if negb (truthy_string (sessionId (shard w1))) then identify k w1
  else connect (KResumeConnected :: k) (set_state Resuming w1).

(** [shutdown()]. *)
Definition shutdown (k : Stack) (w : World) : World :=
  enqueue k (set_state Offline (close Shutdown "Shard shutting down." w)).

(** The callback of the steady [setInterval]. *)
Definition steady_interval (now : Z) (k : Stack) (w : World) : World :=
  if negb (isOpen w) then enqueue k w
  else if negb (acknowledged (heart (shard w))) then
    identify k
      (close ZombiedConnection
         "Zombied connection, did not receive an heartbeat ACK in time." w)
  else
    let w1 := set_heart (heart_acknowledged false (heart (shard w))) w in
    let w2 :=
      socket_send (WireHeartbeat (previousSequenceNumber (shard w1))) w1 in
    let w3 := set_heart (heart_lastBeat (Some now) (heart (shard w2))) w2 in
    enqueue k (emit heartbeat w3).

Definition code_in (code : Z) (l : list Z) : bool :=
  existsb (Z.eqb code) l.

(** [handleClose(close)], awaited by [k].  The chain of tests follows the
    order of the [case] labels; the labels [UnknownError], [DecodeError] and
    [AlreadyAuthenticated] share the body of [default]. *)
Definition handleClose (code : Z) (reason : string) (k : Stack) (w : World)
  : Outcome :=
  let w0 := stopHeartbeating w in
  if code =? TestingFinished then
    Normal (enqueue k (emit disconnected (set_state Offline w0)))
  else if code_in code [Shutdown; ReIdentifying; Resharded;
                        ResumeClosingOldConnection; ZombiedConnection] then
    Normal (enqueue k (emit disconnected (set_state Disconnected w0)))
  else if code_in code [UnknownOpcode; NotAuthenticated; InvalidSeq;
                        RateLimited; SessionTimedOut] then
    Normal (identify k (emit disconnected (set_state Identifying w0)))
  else if code_in code [AuthenticationFailed; InvalidShard; ShardingRequired;
                        InvalidApiVersion; InvalidIntents; DisallowedIntents] then
    Thrown
      (if String.eqb reason "" then
         "Discord gave no reason! GG! You broke Discord!"
       else reason)
      (emit disconnected (set_state Offline w0))
  else
    Normal (resume k (emit disconnected (set_state Resuming w0))).

(** [this.offlineSendQueue.map((resolve) => resolve())]. *)
Definition drain_offline_queue (w : World) : World :=
  foldl (fun w r => call_resolver r (observe (Woken r) w)) w
    (offlineSendQueue (shard w)).

(** [handleDiscordPacket]: what follows the [switch] on [packet.op].  On a
    READY whose [d] is [null] the first read, [payload.resume_gateway_url],
    throws: nothing of what follows happens. *)
Definition packet_epilogue (packet : DiscordGatewayPayload) (k : Stack)
  (w : World) : World :=
  if null_ready packet then reject null_read k w
  else
  let w1 :=
    if bool_decide (t packet = Some "RESUMED") then
      resolve_and_delete RESUMED
        (drain_offline_queue (emit resumed (set_state Connected w)))
    else if bool_decide (t packet = Some "READY") then
      let wa := with_shard (shard_resumeGatewayUrl (ready_resume_url (d packet))) w in
      let wb := with_shard (shard_sessionId (ready_session_id (d packet))) wa in
      resolve_and_delete READY (drain_offline_queue (set_state Connected wb))
    else w in
  let w2 :=
    match s packet with
    | Some n => with_shard (shard_previousSequenceNumber (Some n)) w1
    | None => w1
    end in
  enqueue k (emit (message packet) w2).

(** [handleDiscordPacket]: the rest of the [InvalidSession] case after the
    randomised delay. *)
Definition invalidSession_delayed (packet : DiscordGatewayPayload) (k : Stack)
  (w : World) : World :=
  let w1 := resolve_and_delete INVALID_SESSION w in
  if negb (truthy_data (d packet)) then identify (KPacketEpilogue packet :: k) w1
  else resume (KPacketEpilogue packet :: k) w1.

(** [handleDiscordPacket(packet)], awaited by [k]; [now] is [Date.now()]
    and [rnd] the sample of [Math.random()].  On a Hello whose [d] is
    [null] the read of [heartbeat_interval] throws, after the first lines
    have stamped the heart. *)
Definition handleDiscordPacket (packet : DiscordGatewayPayload) (now : Z)
  (rnd : Q) (k : Stack) (w : World) : World :=
  let h := heart (shard w) in
  let measured :=
    if truthy_optnumber (lastBeat h) && negb (acknowledged h)
    then Some (now - default 0 (lastBeat h)) else rtt h in
  let w0 := set_heart (Build_ShardHeart true (interval h) (lastBeat h)
              (Some now) measured (timeoutId h) (intervalId h)) w in
  match op packet with
  | Heartbeat =>
      if negb (isOpen w0) then enqueue k w0
      else
        let w1 := set_heart (heart_lastBeat (Some now) (heart (shard w0))) w0 in
        let w2 :=
          socket_send (WireHeartbeat (previousSequenceNumber (shard w1))) w1 in
        packet_epilogue packet k (emit heartbeat w2)
  | Hello =>
      if is_null (d packet) then reject null_read k w0
      else
      let w1 := startHeartbeating (hello_interval (d packet)) rnd w0 in
      let w2 :=
        if negb (bool_decide (state (shard w1) = Resuming)) then
          set_bucket
            (createLeakyBucket (calculateSafeRequests (shard w1)) 60000
               (calculateSafeRequests (shard w1)) (waiting (bucket (shard w1))))
            w1
        else w1 in
      packet_epilogue packet k (emit hello w2)
  | HeartbeatACK => packet_epilogue packet k (emit heartbeatAck w0)
  | Reconnect =>
      resume (KPacketEpilogue packet :: k) (emit requestedReconnect w0)
  | InvalidSession =>
      delay (invalid_session_delay rnd) (KInvalidSessionDelayed packet :: k)
        (emit (invalidSession (truthy_data (d packet))) w0)
  | _ => packet_epilogue packet k w0
  end.

(** [handleMessage(message)].  Inflating a Blob is awaited; anything that
    is not a string afterwards is dropped. *)
Definition handleMessage (data : MessageData) (now : Z) (rnd : Q) (k : Stack)
  (w : World) : World :=
  match data with
  | MsgText packet => handleDiscordPacket packet now rnd k w
  | MsgBlob packet =>
      if compress (connection (shard w))
      then enqueue (KMessageInflated packet now rnd :: k) w
      else enqueue k w
  | MsgBinary => enqueue k w
  end.

(** ** Commands *)

(** [editShardStatus(data)] and [editBotStatus(data)]. *)
Definition editShardStatus (data : StatusUpdate) (k : Stack) : World -> World :=
  send (ReqPresenceUpdate (activities data) (status data)) false k.

Definition editBotStatus (data : StatusUpdate) (k : Stack) : World -> World :=
  editShardStatus data k.

(** [joinVoiceChannel(guildId, channelId, options)]; [options] carries
    [selfMute] and [selfDeaf]. *)
Definition joinVoiceChannel (guildId channelId : string)
  (options : option (option bool * option bool)) (k : Stack)
  : World -> World :=
  send (ReqVoiceStateUpdate guildId (Some channelId)
          (default false (options ≫= fst))
          (default true (options ≫= snd))) false k.

(** [leaveVoiceChannel(guildId)]. *)
Definition leaveVoiceChannel (guildId : string) (k : Stack) : World -> World :=
  send (ReqVoiceStateUpdate guildId None false false) false k.

(** The guard at the head of [requestMembers]:
    [intents && (!options?.limit || options.limit > 1)
     && !(intents & GatewayIntents.GuildMembers)]. *)
Definition missing_members_intent (ints : Z)
  (options : option RequestGuildMembersOptions) : bool :=
  truthy_number ints
  && (negb (truthy_optnumber (options ≫= limit))
      || match options ≫= limit with Some l => 1 <? l | None => false end)
  && negb (truthy_number (Z.land ints GuildMembers)).

(** [options.limit = options.userIds.length] when [userIds] is not empty. *)
Definition limit_by_userIds (options : option RequestGuildMembersOptions)
  : option RequestGuildMembersOptions :=
  match options with
  | Some o =>
      match userIds o with
      | Some (u :: us) =>
          Some (Build_RequestGuildMembersOptions
                  (Some (Z.of_nat (length (u :: us)))) (query o) (presences o)
                  (userIds o))
      | _ => options
      end
  | None => None
  end.

Definition members_request (guildId : string)
  (options : option RequestGuildMembersOptions) (now : Z)
  : ShardSocketRequest :=
  ReqRequestGuildMembers guildId
    (match options ≫= query with
     | Some q => Some q
     | None => if truthy_optnumber (options ≫= limit) then None else Some ""
     end)
    (default 0 (options ≫= limit))
    (default false (options ≫= presences))
    (options ≫= userIds)
    (guildId, now).

(** [requestMembers(guildId, options)], awaited by [k]. *)
Definition requestMembers (guildId : string)
  (options : option RequestGuildMembersOptions) (now : Z) (k : Stack)
  (w : World) : Outcome :=
  if missing_members_intent (intents (connection (shard w))) options then
    Thrown "MISSING_INTENT_GUILD_MEMBERS" w
  else
    let options1 := limit_by_userIds options in
    let m := members_request guildId options1 now in
    if negb (cacheEnabled (shard w)) then
      Normal (send m false (KRequestMembersSent :: k) w)
    else
      let '(pr, w1) := new_promise k w in
      let w2 :=
        with_shard (shard_cachePending
          (<[(guildId, now) := pr]> (cachePending (shard w1)))) w1 in
      Normal (send m false [] w2).

(** ** Events and steps *)

(** The rest of a method, run as a microtask under the stack [k]. *)
Definition run_frame (f : Frame) (k : Stack) (w : World) : World :=
  match f with
  | KIdentifyConnected => identify_connected k w
  | KIdentifyPermitted => identify_permitted k w
  | KIdentifyPresence p => identify_presence p k w
  | KResumeConnected => resume_connected k w
  | KSendOnline m hp => send_online m hp k w
  | KSendToken m hp => send_token m hp k w
  | KSendTransmit m => send_transmit m k w
  | KInvalidSessionDelayed packet => invalidSession_delayed packet k w
  | KPacketEpilogue packet => packet_epilogue packet k w
  | KMessageInflated packet now rnd => handleDiscordPacket packet now rnd k w
  | KRequestMembersSent => enqueue k w
  | KReturn c => enqueue k (observe (Returned c) w)
  end.

Inductive Event :=
(* signals of the transport *)
| SocketOpen (i : nat)
| SocketError (i : nat)
| SocketClose (i : nat) (code : Z) (reason : string)
| SocketMessage (i : nat) (data : MessageData) (now : Z) (rnd : Q)
(* timers *)
| TimerFired (n : nat) (now : Z)
| DelayElapsed (n : nat)
| BucketRefill
(* the next microtask *)
| Microtask
(* public methods called by the owner of the shard *)
| CallConnect (c : nat)
| CallIdentify (c : nat)
| CallResume (c : nat)
| CallShutdown (c : nat)
| CallClose (code : Z) (reason : string)
| CallSend (m : ShardSocketRequest) (highPriority : bool) (c : nat)
| CallEditBotStatus (data : StatusUpdate) (c : nat)
| CallJoinVoiceChannel (guildId channelId : string)
    (options : option (option bool * option bool)) (c : nat)
| CallLeaveVoiceChannel (guildId : string) (c : nat)
| CallRequestMembers (guildId : string)
    (options : option RequestGuildMembersOptions) (now : Z) (c : nat).

Definition set_readyState (i : nat) (r : ReadyState) (w : World) : World :=
  match sockets w !! i with
  | Some sk =>
      with_sockets
        (<[i := Build_WebSocket r (address sk)
                  (if bool_decide (r = OPEN) then None else onopen sk)
                  (closeCall sk)]> (sockets w)) w
  | None => w
  end.

(** One step of the event loop.  [None]: the event cannot happen in [w].
    The transport opens only a connecting socket, delivers messages only
    while the socket is open or closing, and closes a socket once; signals
    and timers are macrotasks and wait for the microtask queue to empty. *)
Definition step (e : Event) (w : World) : option World :=
  match e with
  | SocketOpen i =>
      match ready w, sockets w !! i with
      | [], Some sk =>
          if bool_decide (readyState sk = CONNECTING) then
            Some (match onopen sk with
                  | Some k => socket_onopen k (set_readyState i OPEN w)
                  | None => set_readyState i OPEN w
                  end)
          else None
      | _, _ => None
      end
  | SocketError i =>
      match ready w, sockets w !! i with
      | [], Some _ => Some (observe (Logged "error") w)
      | _, _ => None
      end
  | SocketClose i code reason =>
      match ready w, sockets w !! i with
      | [], Some sk =>
          if bool_decide (readyState sk = CLOSED) then None
          else
            Some (match handleClose code reason [] (set_readyState i CLOSED w) with
                  | Normal w' => w'
                  | Thrown msg w' => observe (Uncaught msg) w'
                  end)
      | _, _ => None
      end
  | SocketMessage i data now rnd =>
      match ready w, sockets w !! i with
      | [], Some sk =>
          if bool_decide (readyState sk = OPEN)
             || bool_decide (readyState sk = CLOSING)
          then Some (handleMessage data now rnd [] w)
          else None
      | _, _ => None
      end
  | TimerFired n now =>
      match ready w, timers w !! n with
      | [], Some tm =>
          if active tm then
            Some (match kind tm with
                  | JitterTimeout =>
                      jitter_timeout now
                        (with_timers
                           (<[n := Build_Timer (kind tm) (period tm) false]>
                              (timers w)) w)
                  | SteadyInterval => steady_interval now [] w
                  end)
          else None
      | _, _ => None
      end
  | DelayElapsed n =>
      match ready w, delays w !! n with
      | [], Some (ms, Some k) =>
          Some (enqueue k (with_delays (<[n := (ms, None)]> (delays w)) w))
      | _, _ => None
      end
  | BucketRefill =>
      match ready w with
      | [] => Some (bucket_refill w)
      | _ => None
      end
  | Microtask =>
      match ready w with
      | (f :: k) :: rest => Some (run_frame f k (with_ready rest w))
      | [] :: rest => Some (with_ready rest w)
      | [] => None
      end
  | CallConnect c => Some (connect [KReturn c] w)
  | CallIdentify c => Some (identify [KReturn c] w)
  | CallResume c => Some (resume [KReturn c] w)
  | CallShutdown c => Some (shutdown [KReturn c] w)
  | CallClose code reason => Some (close code reason w)
  | CallSend m hp c => Some (send m hp [KReturn c] w)
  | CallEditBotStatus data c => Some (editBotStatus data [KReturn c] w)
  | CallJoinVoiceChannel g ch o c => Some (joinVoiceChannel g ch o [KReturn c] w)
  | CallLeaveVoiceChannel g c => Some (leaveVoiceChannel g [KReturn c] w)
  | CallRequestMembers g o now c =>
      Some (match requestMembers g o now [KReturn c] w with
            | Normal w' => w'
            | Thrown msg w' => observe (Failed c msg) w'
            end)
  end.

(** A run of the event loop. *)
Fixpoint run (es : list Event) (w : World) : option World :=
  match es with
  | [] => Some w
  | e :: es' =>
      match step e w with
      | Some w' => run es' w'
      | None => None
      end
  end.

End Shard.

(** The constructor of the shard, and the world around a new shard. *)
Definition new_shard (i : Z) (cfg : ShardGatewayConfig) : DiscordenoShard :=
  {| id := i; connection := cfg;
     heart := Build_ShardHeart false 45000 None None None None None;
     maxRequestsPerRateLimitTick := 120;
     previousSequenceNumber := None;
     rateLimitResetInterval := 60000;
     sessionId := None; socket := None; state := Offline;
     resumeGatewayUrl := "";
     offlineSendQueue := []; resolves := ∅;
     bucket := createLeakyBucket 120 60000 120 [];
     cacheEnabled := false; cachePending := ∅ |}.

Definition new_world (i : Z) (cfg : ShardGatewayConfig) : World :=
  {| shard := new_shard i cfg; sockets := []; timers := []; promises := [];
     delays := []; ready := []; trace := [] |}.

(** ** Frame conditions

    A relation between the world before and after is a [FrameRel] when it is a
    preorder that every elementary update of the methods respects; each
    method then respects it as well.  The heart is kept apart, since the
    relations of interest differ on it. *)

Class FrameRel (R : relation World) := {
  #[global] frame_preorder :: PreOrder R;
  frame_observe o w : R w (observe o w);
  frame_ready x w : R w (with_ready x w);
  frame_promises x w : R w (with_promises x w);
  frame_delays x w : R w (with_delays x w);
  frame_timers x w : R w (with_timers x w);
  frame_state x w : R w (with_shard (shard_state x) w);
  frame_socket x w : R w (with_shard (shard_socket x) w);
  frame_resolves x w : R w (with_shard (shard_resolves x) w);
  frame_bucket x w : R w (with_shard (shard_bucket x) w);
  frame_cachePending x w : R w (with_shard (shard_cachePending x) w);
  frame_sessionId x w : R w (with_shard (shard_sessionId x) w);
  frame_resumeGatewayUrl x w : R w (with_shard (shard_resumeGatewayUrl x) w);
  frame_previousSequenceNumber x w :
    R w (with_shard (shard_previousSequenceNumber x) w);
  frame_queue_front r w :
    R w (with_shard
           (shard_offlineSendQueue (r :: offlineSendQueue (shard w))) w);
  frame_queue_back r w :
    R w (with_shard
           (shard_offlineSendQueue (offlineSendQueue (shard w) ++ [r])) w);
  frame_socket_new sk w : R w (with_sockets (sockets w ++ [sk]) w);
  frame_socket_closing i sk c w :
    sockets w !! i = Some sk -> readyState sk = OPEN ->
    R w (with_sockets
           (<[i := Build_WebSocket CLOSING (address sk) (onopen sk) c]>
              (sockets w)) w)
}.

(** Updates of the heart that keep [acknowledged]. *)
Class FrameRelBeat (R : relation World) := {
  frame_beat x w :
    acknowledged x = acknowledged (heart (shard w)) ->
    R w (with_shard (shard_heart x) w)
}.

(** All updates of the heart. *)
Class FrameRelHeart (R : relation World) := {
  frame_heart x w : R w (with_shard (shard_heart x) w)
}.

(** [handleDiscordPacket], its first lines: the heart after any packet. *)
Definition heart_after_packet (now : Z) (h : ShardHeart) : ShardHeart :=
  Build_ShardHeart true (interval h) (lastBeat h) (Some now)
    (if truthy_optnumber (lastBeat h) && negb (acknowledged h)
     then Some (now - default 0 (lastBeat h)) else rtt h)
    (timeoutId h) (intervalId h).

(** The effect of the transport itself in a step, before any handler of
    the shard runs. *)
Definition transport (e : Event) (w : World) : World :=
  match e with
  | SocketOpen i => set_readyState i OPEN w
  | SocketClose i _ _ => set_readyState i CLOSED w
  | _ => w
  end.

(** The resolvers of the offline queue called so far, in order. *)
Definition woken (tr : list Obs) : list Resolver :=
  omap (fun o => match o with Woken r => Some r | _ => None end) tr.

Definition outcome_world (o : Outcome) : World :=
  match o with
  | Normal w | Thrown _ w => w
  end.

(** *** The relations the methods are shown to respect *)

(** The trace only grows at its end. *)
Definition trace_grows (w w' : World) : Prop :=
  exists post, trace w' = trace w ++ post.

(** The offline queue only grows, at its front and at its back. *)
Definition queue_grows (w w' : World) : Prop :=
  exists pre post,
    offlineSendQueue (shard w') = pre ++ offlineSendQueue (shard w) ++ post.

(** Socket [i] keeps the continuation parked on its [onopen], and stays
    closed once it is closed. *)
Definition socket_kept (i : nat) (w w' : World) : Prop :=
  forall sk, sockets w !! i = Some sk ->
    exists sk', sockets w' !! i = Some sk'
      /\ onopen sk' = onopen sk
      /\ (readyState sk = CLOSED -> readyState sk' = CLOSED).

(** [heart.acknowledged] is left as it is. *)
Definition same_acknowledged (w w' : World) : Prop :=
  acknowledged (heart (shard w')) = acknowledged (heart (shard w)).

(** The promises, the stored resolvers and the waiters are left alone. *)
Definition waiters_untouched (w w' : World) : Prop :=
  promises w' = promises w
  /\ resolves (shard w') = resolves (shard w)
  /\ offlineSendQueue (shard w') = offlineSendQueue (shard w)
  /\ bucket (shard w') = bucket (shard w).

(** *** Close codes *)

(** The close codes [handleClose] names, class by class. *)
Definition graceful_codes `{GatewayConstants} : list Z :=
  [Shutdown; ReIdentifying; Resharded; ResumeClosingOldConnection;
   ZombiedConnection].

Definition reidentify_codes `{GatewayConstants} : list Z :=
  [UnknownOpcode; NotAuthenticated; InvalidSeq; RateLimited; SessionTimedOut].

Definition fatal_codes `{GatewayConstants} : list Z :=
  [AuthenticationFailed; InvalidShard; ShardingRequired; InvalidApiVersion;
   InvalidIntents; DisallowedIntents].

Definition resumable_codes `{GatewayConstants} : list Z :=
  [UnknownError; DecodeError; AlreadyAuthenticated].

Definition close_codes `{GatewayConstants} : list Z :=
  TestingFinished :: graceful_codes ++ reidentify_codes ++ fatal_codes
    ++ resumable_codes.

(** The members of an enumeration are pairwise different. *)
Fixpoint all_distinct (l : list Z) : bool :=
  match l with
  | [] => true
  | x :: r => negb (existsb (Z.eqb x) r) && all_distinct r
  end.

(** The message of the error a fatal close throws. *)
Definition fatal_message (reason : string) : string :=
  if String.eqb reason "" then
    "Discord gave no reason! GG! You broke Discord!"
  else reason.

(** *** The jitter as the specification words it *)

(** [ceil(interval * max(random(), 0.5))], in doubles. *)
Definition jitter_as_specified (itv : Z) (r : Q) : Z :=
  Qceiling (double_mul (inject_Z itv) (Qmax r (1 # 2))).

(** *** A concrete shard *)

(** Modelled from the spec: the values of the enumerations whose
    declarations are missing.  The specification gives 4000 as a resumable
    close code and 4014 for [DisallowedIntents]; the others are the values
    of the gateway protocol.  The general theorems hold for any pairwise
    different values; these serve to run a shard on concrete events. *)
Definition discord_constants : GatewayConstants := {|
  Shutdown := 3000;
  ResumeClosingOldConnection := 3024;
  ZombiedConnection := 3010;
  TestingFinished := 3064;
  Resharded := 3065;
  ReIdentifying := 3066;
  UnknownError := 4000;
  UnknownOpcode := 4001;
  DecodeError := 4002;
  NotAuthenticated := 4003;
  AuthenticationFailed := 4004;
  AlreadyAuthenticated := 4005;
  InvalidSeq := 4007;
  RateLimited := 4008;
  SessionTimedOut := 4009;
  InvalidShard := 4010;
  ShardingRequired := 4011;
  InvalidApiVersion := 4012;
  InvalidIntents := 4013;
  DisallowedIntents := 4014;
  GuildMembers := 2
|}.

(** A stand-in for the platform, to run a shard on concrete events: a
    string parses when it starts with a websocket scheme and goes on, and
    every address built on such a string is accepted.  The general
    theorems hold for any platform. *)
Definition has_websocket_scheme (u : string) : bool :=
  (String.prefix "wss://" u && negb (String.eqb u "wss://"))
  || (String.prefix "ws://" u && negb (String.eqb u "ws://")).

Definition discord_platform : Platform := {|
  url_parses := has_websocket_scheme;
  url_parses_empty := eq_refl;
  websocket_accepts := fun a =>
    match a with
    | UrlPlain u | UrlVersioned u _ => has_websocket_scheme u
    end
|}.

(** The configuration of the cold-identify scenario of the specification:
    token T, intents 513, shard 0 of 1. *)
Definition example_config : ShardGatewayConfig :=
  {| url := "wss://gateway.discord.gg"; urlIsPrimary := true; version := 10;
     token := "T"; compress := false; properties := "linux"; intents := 513;
     totalShards := 1 |}.

Definition example_world : World := new_world 0 example_config.

(** [identify()] is called, the socket opens and the Identify payload goes
    out: the call now waits for READY or INVALID_SESSION. *)
Definition identify_in_flight : list Event :=
  [CallIdentify 1; SocketOpen 0; Microtask; Microtask; Microtask; Microtask;
   Microtask; Microtask].

(** Packets of the scenarios. *)
Definition hello_packet (itv : Z) : DiscordGatewayPayload :=
  {| op := Hello; d := DHello itv; s := None; t := None |}.

Definition ready_packet (sid : string) : DiscordGatewayPayload :=
  {| op := Dispatch; d := DReady sid "wss://r"; s := Some 42;
     t := Some "READY" |}.

Definition dispatch_packet : DiscordGatewayPayload :=
  {| op := Dispatch; d := DObject; s := Some 43; t := Some "MESSAGE_CREATE" |}.

(** A heartbeat request of the server that carries a sequence number. *)
Definition heartbeat_request : DiscordGatewayPayload :=
  {| op := Heartbeat; d := DNull; s := Some 5; t := None |}.

Definition example_request : ShardSocketRequest :=
  ReqPresenceUpdate [] "online".

(** Cold identify up to READY with the session id [sid]. *)
Definition connected_events (sid : string) : list Event :=
  identify_in_flight
  ++ [SocketMessage 0 (MsgText (hello_packet 41250)) 100 (1 # 4);
      SocketMessage 0 (MsgText (ready_packet sid)) 200 0; Microtask].

(** Identify, Hello, and the jittered first heartbeat. *)
Definition first_beat_events : list Event :=
  identify_in_flight
  ++ [SocketMessage 0 (MsgText (hello_packet 41250)) 100 (1 # 4);
      TimerFired 0 10413].

(** A [send] parked in the offline queue, an [identify] waiting for READY
    and, after a Hello whose interval leaves the bucket empty, a [send]
    parked in the bucket. *)
Definition waiting_events : list Event :=
  [CallSend example_request false 2]
  ++ identify_in_flight
  ++ [SocketMessage 0 (MsgText (hello_packet 1000)) 100 (1 # 4);
      CallSend example_request false 3; Microtask].

(** [shutdown()], its return, and the close signal that follows. *)
Definition shutdown_events : list Event :=
  [CallShutdown 4; Microtask; SocketClose 0 3000 "Shard shutting down."].

(** Runs under the concrete constants and platform. *)
Definition discord_run : list Event -> World -> option World :=
  @run discord_constants discord_platform.

(** The shard of the resume scenario of the specification: connected, with
    session S and sequence number 42. *)
Definition connected_world : World :=
  Eval vm_compute in
    default example_world (discord_run (connected_events "S") example_world).

(** A sender parked in the offline queue before the identify whose READY
    then drains the queue. *)
Definition drained_world : World :=
  Eval vm_compute in
    default example_world
      (discord_run
         ([CallSend example_request false 2]
          ++ identify_in_flight
          ++ [SocketMessage 0 (MsgText (ready_packet "S")) 200 0])
         example_world).

(** *** Parked continuations *)

(** The promise [p] has been resolved and the continuation [k] that awaited
    it is on the microtask queue. *)
Definition released (p : nat) (k : Stack) (w : World) : Prop :=
  promises w !! p = Some Settled /\ k ∈ ready w.

(** The continuation [k] still awaits the promise [p], or was released. *)
Definition parked_or_released (p : nat) (k : Stack) (w : World) : Prop :=
  promises w !! p = Some (Pending k) \/ released p k w.

(** A bare [resolve], as [checkOffline] stores them. *)
Definition is_plain (r : Resolver) : bool :=
  match r with
  | ResolvePlain _ => true
  | _ => false
  end.

(** The shard after Hello, before the jitter timeout fires. *)
Definition hello_world : World :=
  Eval vm_compute in
    default example_world
      (discord_run
         (identify_in_flight
          ++ [SocketMessage 0 (MsgText (hello_packet 41250)) 100 (1 # 4)])
         example_world).

(** The connected shard after its first heartbeat: the jitter timeout has
    fired and the steady interval is set. *)
Definition beating_world : World :=
  Eval vm_compute in
    default example_world
      (discord_run (connected_events "S" ++ [TimerFired 0 10413])
         example_world).

(** A sender parked in the offline queue and an identify waiting for
    READY. *)
Definition parked_world : World :=
  Eval vm_compute in
    default example_world
      (discord_run ([CallSend example_request false 2] ++ identify_in_flight)
         example_world).

(** The beating shard identifies again: socket 0 is closing, socket 1 is
    open, and the Hello of the new connection has set a new jitter
    timeout. *)
Definition superseded_world : World :=
  Eval vm_compute in
    default example_world
      (discord_run
         ([CallIdentify 5; SocketOpen 1; Microtask; Microtask; Microtask;
           Microtask; Microtask; Microtask;
           SocketMessage 1 (MsgText (hello_packet 41250)) 20000 (1 # 4)])
         beating_world).

(** The same handshake with compression configured. *)
Definition compressed_world : World :=
  Eval vm_compute in
    default example_world
      (discord_run identify_in_flight
         (new_world 0
            {| url := "wss://gateway.discord.gg"; urlIsPrimary := true;
               version := 10; token := "T"; compress := true;
               properties := "linux"; intents := 513; totalShards := 1 |})).

(** An invalid session that cannot be resumed. *)
Definition invalid_session_packet : DiscordGatewayPayload :=
  {| op := InvalidSession; d := DBool false; s := None; t := None |}.

(** A request for three members by id, with limit 1. *)
Definition three_members : RequestGuildMembersOptions :=
  {| limit := Some 1; query := None; presences := None;
     userIds := Some ["1"; "2"; "3"] |}.

(** *** Who holds the continuation of a call *)

(** The observations that settle the public call [c]. *)
Definition settles (c : nat) (o : Obs) : Prop :=
  o = Returned c \/ exists msg, o = Failed c msg.

(** The call [c] has neither returned nor failed in [w]. *)
Definition unsettled (c : nat) (w : World) : Prop :=
  forall o, o ∈ trace w -> ~ settles c o.

(** The public call an event makes. *)
Definition call_of (e : Event) : option nat :=
  match e with
  | CallConnect c | CallIdentify c | CallResume c | CallShutdown c
  | CallSend _ _ c | CallEditBotStatus _ c | CallJoinVoiceChannel _ _ _ c
  | CallLeaveVoiceChannel _ c | CallRequestMembers _ _ _ c => Some c
  | _ => None
  end.

(** No continuation held in [w] returns to the call [c], but for what is
    parked on the [onopen] of socket [i]: not on the microtask queue,
    behind no pending promise, on no delay, not among the waiters of the
    bucket, on no other socket. *)
Definition parked_only_on (c i : nat) (w : World) : Prop :=
  (forall k, k ∈ ready w -> KReturn c ∉ k)
  /\ (forall k, Pending k ∈ promises w -> KReturn c ∉ k)
  /\ (forall ms k, (ms, Some k) ∈ delays w -> KReturn c ∉ k)
  /\ (forall n k, (n, k) ∈ waiting (bucket (shard w)) -> KReturn c ∉ k)
  /\ (forall j sk k,
        j <> i -> sockets w !! j = Some sk -> onopen sk = Some k ->
        KReturn c ∉ k).

(** The call [c] waits on socket [i] and nowhere else, and has not been
    settled. *)
Definition waits_on (c i : nat) (w : World) : Prop :=
  parked_only_on c i w /\ unsettled c w.

(** A new shard that was given the session id of an earlier process: no
    READY has stored a resume url yet, [resumeGatewayUrl] is still the
    empty string of the constructor. *)
Definition restored_world : World :=
  with_shard (shard_sessionId (Some "S")) example_world.

(** A shard whose configured gateway url is not a url. *)
Definition unparsable_world : World :=
  new_world 0
    {| url := "gateway.discord.gg"; urlIsPrimary := false; version := 10;
       token := "T"; compress := false; properties := "linux";
       intents := 513; totalShards := 1 |}.

(** A READY whose payload is [null]. *)
Definition null_ready_packet : DiscordGatewayPayload :=
  {| op := Dispatch; d := DNull; s := Some 42; t := Some "READY" |}.

Section Frames.
Context `{GatewayConstants} `{Platform} (R : relation World) `{!FrameRel R}.

Lemma fr_observe w0 o w : R w0 w -> R w0 (observe o w).
Proof. intros; etrans; [eassumption | apply frame_observe]. Qed.

Lemma fr_emit w0 e w : R w0 w -> R w0 (emit e w).
Proof. apply fr_observe. Qed.

Lemma fr_ready w0 x w : R w0 w -> R w0 (with_ready x w).
Proof. intros; etrans; [eassumption | apply frame_ready]. Qed.

Lemma fr_promises w0 x w : R w0 w -> R w0 (with_promises x w).
Proof. intros; etrans; [eassumption | apply frame_promises]. Qed.

Lemma fr_delays w0 x w : R w0 w -> R w0 (with_delays x w).
Proof. intros; etrans; [eassumption | apply frame_delays]. Qed.

Lemma fr_timers w0 x w : R w0 w -> R w0 (with_timers x w).
Proof. intros; etrans; [eassumption | apply frame_timers]. Qed.

Lemma fr_set_state w0 x w : R w0 w -> R w0 (set_state x w).
Proof. intros; etrans; [eassumption | apply frame_state]. Qed.

Lemma fr_socket w0 x w : R w0 w -> R w0 (with_shard (shard_socket x) w).
Proof. intros; etrans; [eassumption | apply frame_socket]. Qed.

Lemma fr_set_resolves w0 x w : R w0 w -> R w0 (set_resolves x w).
Proof. intros; etrans; [eassumption | apply frame_resolves]. Qed.

Lemma fr_set_bucket w0 x w : R w0 w -> R w0 (set_bucket x w).
Proof. intros; etrans; [eassumption | apply frame_bucket]. Qed.

Lemma fr_cachePending w0 x w :
  R w0 w -> R w0 (with_shard (shard_cachePending x) w).
Proof. intros; etrans; [eassumption | apply frame_cachePending]. Qed.

Lemma fr_sessionId w0 x w : R w0 w -> R w0 (with_shard (shard_sessionId x) w).
Proof. intros; etrans; [eassumption | apply frame_sessionId]. Qed.

Lemma fr_resumeGatewayUrl w0 x w :
  R w0 w -> R w0 (with_shard (shard_resumeGatewayUrl x) w).
Proof. intros; etrans; [eassumption | apply frame_resumeGatewayUrl]. Qed.

Lemma fr_previousSequenceNumber w0 x w :
  R w0 w -> R w0 (with_shard (shard_previousSequenceNumber x) w).
Proof. intros; etrans; [eassumption | apply frame_previousSequenceNumber]. Qed.

Lemma fr_queue_front w0 r w :
  R w0 w ->
  R w0 (with_shard (shard_offlineSendQueue (r :: offlineSendQueue (shard w))) w).
Proof. intros; etrans; [eassumption | apply frame_queue_front]. Qed.

Lemma fr_queue_back w0 r w :
  R w0 w ->
  R w0 (with_shard (shard_offlineSendQueue (offlineSendQueue (shard w) ++ [r])) w).
Proof. intros; etrans; [eassumption | apply frame_queue_back]. Qed.

Lemma fr_socket_new w0 sk w : R w0 w -> R w0 (with_sockets (sockets w ++ [sk]) w).
Proof. intros; etrans; [eassumption | apply frame_socket_new]. Qed.

Create HintDb frame.

Lemma fr_refl w : R w w.
Proof. reflexivity. Qed.

#[local] Hint Resolve fr_refl fr_observe fr_emit fr_ready fr_promises fr_delays
  fr_timers fr_set_state fr_socket fr_set_resolves fr_set_bucket
  fr_cachePending fr_sessionId fr_resumeGatewayUrl fr_previousSequenceNumber
  fr_queue_front fr_queue_back fr_socket_new : frame.

Ltac frame :=
  repeat first [ solve [auto 40 with frame] | case_match ].

Lemma fr_enqueue w0 k w : R w0 w -> R w0 (enqueue k w).
Proof. intros; destruct k; cbn; frame. Qed.
#[local] Hint Resolve fr_enqueue : frame.

Lemma fr_reject w0 msg k w : R w0 w -> R w0 (reject msg k w).
Proof. intros; unfold reject; frame. Qed.
#[local] Hint Resolve fr_reject : frame.

Lemma fr_settle w0 p w : R w0 w -> R w0 (settle p w).
Proof. intros; unfold settle; frame. Qed.
#[local] Hint Resolve fr_settle : frame.

Lemma fr_call_resolver w0 r w : R w0 w -> R w0 (call_resolver r w).
Proof. intros; unfold call_resolver; frame. Qed.
#[local] Hint Resolve fr_call_resolver : frame.

Lemma fr_resolve_and_delete w0 key w :
  R w0 w -> R w0 (resolve_and_delete key w).
Proof. intros; unfold resolve_and_delete; frame. Qed.
#[local] Hint Resolve fr_resolve_and_delete : frame.

Lemma fr_socket_send w0 m w : R w0 w -> R w0 (socket_send m w).
Proof. intros; unfold socket_send; frame. Qed.
#[local] Hint Resolve fr_socket_send : frame.

Lemma fr_close w0 code reason w : R w0 w -> R w0 (close code reason w).
Proof.
  intros Hw; unfold close; repeat case_match; try done.
  etrans; [exact Hw|]. apply frame_socket_closing; [done|].
  by eapply bool_decide_eq_true_1.
Qed.
#[local] Hint Resolve fr_close : frame.

Lemma fr_checkOffline w0 hp k w : R w0 w -> R w0 (checkOffline hp k w).
Proof.
  intros; unfold checkOffline, new_promise.
  destruct (negb (isOpen w)), hp; cbn; frame.
  - apply (fr_queue_front w0 _ (with_promises _ w)); frame.
  - apply (fr_queue_back w0 _ (with_promises _ w)); frame.
Qed.
#[local] Hint Resolve fr_checkOffline : frame.

Lemma fr_bucket_acquire w0 n hp k w : R w0 w -> R w0 (bucket_acquire n hp k w).
Proof. intros; unfold bucket_acquire; frame. Qed.
#[local] Hint Resolve fr_bucket_acquire : frame.

Lemma fr_foldl_enqueue w0 ks w :
  R w0 w -> R w0 (foldl (fun w k => enqueue k w) w ks).
Proof. revert w; induction ks; cbn; intros; frame. Qed.

Lemma fr_bucket_refill w0 w : R w0 w -> R w0 (bucket_refill w).
Proof.
  intros; unfold bucket_refill.
  destruct (bucket_serve _ _) as [[? ?] ?]. apply fr_foldl_enqueue; frame.
Qed.
#[local] Hint Resolve fr_bucket_refill : frame.

Lemma fr_send w0 m hp k w : R w0 w -> R w0 (send m hp k w).
Proof. intros; unfold send; frame. Qed.

Lemma fr_send_online w0 m hp k w : R w0 w -> R w0 (send_online m hp k w).
Proof. intros; unfold send_online; frame. Qed.

Lemma fr_send_token w0 m hp k w : R w0 w -> R w0 (send_token m hp k w).
Proof. intros; unfold send_token; frame. Qed.

Lemma fr_send_transmit w0 m k w : R w0 w -> R w0 (send_transmit m k w).
Proof. intros; unfold send_transmit; frame. Qed.
#[local] Hint Resolve fr_send fr_send_online fr_send_token fr_send_transmit
  : frame.

Lemma fr_connect w0 k w : R w0 w -> R w0 (connect k w).
Proof.
  intros; unfold connect, connect_prepared.
  repeat match goal with
         | |- R _ (if ?c then _ else _) => destruct c
         end; [frame.. |]. unfold connect_socket.
  match goal with
  | |- R _ (with_sockets (sockets ?x ++ _) (with_shard ?f ?x)) =>
      apply (fr_socket_new w0 _ (with_shard f x))
  end.
  frame.
Qed.
#[local] Hint Resolve fr_connect : frame.

Lemma fr_socket_onopen w0 k w : R w0 w -> R w0 (socket_onopen k w).
Proof. intros; unfold socket_onopen; frame. Qed.

Lemma fr_requestIdentify w0 k w : R w0 w -> R w0 (requestIdentify k w).
Proof. intros; unfold requestIdentify; frame. Qed.
#[local] Hint Resolve fr_socket_onopen fr_requestIdentify : frame.

Lemma fr_identify_presence w0 p k w : R w0 w -> R w0 (identify_presence p k w).
Proof. intros; unfold identify_presence, new_promise; frame. Qed.

Lemma fr_identify_permitted w0 k w : R w0 w -> R w0 (identify_permitted k w).
Proof. intros; unfold identify_permitted; frame. Qed.

Lemma fr_identify_connected w0 k w : R w0 w -> R w0 (identify_connected k w).
Proof. intros; unfold identify_connected; frame. Qed.
#[local] Hint Resolve fr_identify_presence fr_identify_permitted
  fr_identify_connected : frame.

Lemma fr_identify w0 k w : R w0 w -> R w0 (identify k w).
Proof. intros; unfold identify; frame. Qed.
#[local] Hint Resolve fr_identify : frame.

Lemma fr_resume_connected w0 k w : R w0 w -> R w0 (resume_connected k w).
Proof. intros; unfold resume_connected, new_promise; frame. Qed.

Lemma fr_resume w0 k w : R w0 w -> R w0 (resume k w).
Proof. intros; unfold resume; frame. Qed.

Lemma fr_shutdown w0 k w : R w0 w -> R w0 (shutdown k w).
Proof. intros; unfold shutdown; frame. Qed.
#[local] Hint Resolve fr_resume_connected fr_resume fr_shutdown : frame.

Lemma fr_drain_fold w0 q w :
  R w0 w ->
  R w0 (foldl (fun w r => call_resolver r (observe (Woken r) w)) w q).
Proof. revert w; induction q; cbn; intros; frame. Qed.

Lemma fr_drain_offline_queue w0 w : R w0 w -> R w0 (drain_offline_queue w).
Proof. intros; by apply fr_drain_fold. Qed.
#[local] Hint Resolve fr_drain_offline_queue : frame.

Lemma fr_packet_epilogue w0 packet k w :
  R w0 w -> R w0 (packet_epilogue packet k w).
Proof. intros; unfold packet_epilogue; frame. Qed.
#[local] Hint Resolve fr_packet_epilogue : frame.

Lemma fr_invalidSession_delayed w0 packet k w :
  R w0 w -> R w0 (invalidSession_delayed packet k w).
Proof. intros; unfold invalidSession_delayed; frame. Qed.

Lemma fr_delay w0 ms k w : R w0 w -> R w0 (delay ms k w).
Proof. intros; unfold delay; frame. Qed.

Lemma fr_clear_timer w0 i w : R w0 w -> R w0 (clear_timer i w).
Proof. intros; unfold clear_timer; frame. Qed.
#[local] Hint Resolve fr_invalidSession_delayed fr_delay fr_clear_timer : frame.

Lemma fr_stopHeartbeating w0 w : R w0 w -> R w0 (stopHeartbeating w).
Proof. intros; unfold stopHeartbeating; frame. Qed.
#[local] Hint Resolve fr_stopHeartbeating : frame.

Lemma fr_handleClose w0 code reason k w :
  R w0 w -> R w0 (outcome_world (handleClose code reason k w)).
Proof. intros; unfold handleClose; repeat case_match; cbn; frame. Qed.

Lemma fr_requestMembers w0 g o now k w :
  R w0 w -> R w0 (outcome_world (requestMembers g o now k w)).
Proof.
  intros; unfold requestMembers, new_promise.
  repeat case_match; cbn; frame.
Qed.

Lemma fr_commands w0 w :
  R w0 w ->
  (forall data k, R w0 (editBotStatus data k w))
  /\ (forall g ch o k, R w0 (joinVoiceChannel g ch o k w))
  /\ (forall g k, R w0 (leaveVoiceChannel g k w)).
Proof.
  intros; unfold editBotStatus, editShardStatus, joinVoiceChannel,
    leaveVoiceChannel; repeat split; intros; frame.
Qed.

Section Beat.
Context `{!FrameRelBeat R}.

Lemma fr_set_heart_same w0 x w :
  acknowledged x = acknowledged (heart (shard w)) ->
  R w0 w -> R w0 (set_heart x w).
Proof. intros; etrans; [eassumption | by apply frame_beat]. Qed.
#[local] Hint Extern 1 (R _ (set_heart _ _)) =>
  (apply fr_set_heart_same; [reflexivity |]) : frame.

Lemma fr_startHeartbeating w0 itv rnd w :
  R w0 w -> R w0 (startHeartbeating itv rnd w).
Proof. intros; unfold startHeartbeating; frame. Qed.
#[local] Hint Resolve fr_startHeartbeating : frame.

(** A packet is handled by the update of the heart, then by steps that
    respect the relation. *)
Lemma fr_packet_after_heart packet now rnd k w :
  R (set_heart (heart_after_packet now (heart (shard w))) w)
    (handleDiscordPacket packet now rnd k w).
Proof. unfold handleDiscordPacket, heart_after_packet; frame. Qed.

End Beat.

Section Heart.
Context `{!FrameRelHeart R}.

#[local] Instance heart_beat : FrameRelBeat R.
Proof. split; intros; apply frame_heart. Qed.

Lemma fr_set_heart w0 x w : R w0 w -> R w0 (set_heart x w).
Proof. intros; etrans; [eassumption | apply frame_heart]. Qed.
#[local] Hint Resolve fr_set_heart fr_startHeartbeating : frame.

Lemma fr_jitter_timeout w0 now w : R w0 w -> R w0 (jitter_timeout now w).
Proof. intros; unfold jitter_timeout; frame. Qed.

Lemma fr_steady_interval w0 now k w : R w0 w -> R w0 (steady_interval now k w).
Proof. intros; unfold steady_interval; frame. Qed.
#[local] Hint Resolve fr_startHeartbeating fr_jitter_timeout
  fr_steady_interval : frame.

Lemma fr_handleDiscordPacket w0 packet now rnd k w :
  R w0 w -> R w0 (handleDiscordPacket packet now rnd k w).
Proof.
  intros; etrans; [|apply fr_packet_after_heart]. frame.
Qed.
#[local] Hint Resolve fr_handleDiscordPacket : frame.

Lemma fr_handleMessage w0 data now rnd k w :
  R w0 w -> R w0 (handleMessage data now rnd k w).
Proof. intros; unfold handleMessage; frame. Qed.

Lemma fr_run_frame w0 f k w : R w0 w -> R w0 (run_frame f k w).
Proof. intros; unfold run_frame; frame. Qed.

(** Every step respects the relation from the point where the transport
    has done its part. *)
Lemma fr_step e w w' : step e w = Some w' -> R (transport e w) w'.
Proof.
  pose proof (fr_commands (transport e w) w) as Hc.
  destruct e; cbn [step transport]; intros Hs.
  - repeat case_match; simplify_eq; frame.
  - repeat case_match; simplify_eq; frame.
  - destruct (ready w), (sockets w !! i); try done.
    case_bool_decide; [done|]. simplify_eq.
    pose proof (fr_handleClose (set_readyState i CLOSED w) code reason []
                  (set_readyState i CLOSED w) (fr_refl _)) as Hh.
    destruct (handleClose _ _ _ _); cbn in Hh; frame.
  - repeat case_match; simplify_eq. by apply fr_handleMessage.
  - repeat case_match; simplify_eq; frame.
  - repeat case_match; simplify_eq; frame.
  - repeat case_match; simplify_eq; frame.
  - repeat case_match; simplify_eq; [frame|]. apply fr_run_frame; frame.
  - simplify_eq; frame.
  - simplify_eq; frame.
  - simplify_eq; frame.
  - simplify_eq; frame.
  - simplify_eq; frame.
  - simplify_eq; frame.
  - simplify_eq. by apply Hc.
  - simplify_eq. by apply Hc.
  - simplify_eq. by apply Hc.
  - simplify_eq.
    pose proof (fr_requestMembers w guildId options now [KReturn c] w
                  (fr_refl _)) as Hh.
    destruct (requestMembers _ _ _ _ _); cbn in Hh; frame.
Qed.

End Heart.
End Frames.

(** *** The relations are frames *)

#[global] Instance trace_grows_preorder : PreOrder trace_grows.
Proof.
  split.
  - intros w. exists []. by rewrite app_nil_r.
  - intros w1 w2 w3 [p1 H1] [p2 H2]. exists (p1 ++ p2).
    by rewrite H2, H1, app_assoc.
Qed.

#[global] Instance trace_grows_frame : FrameRel trace_grows.
Proof.
  split; try apply _; intros;
    try (exists []; cbn; by rewrite app_nil_r).
  by exists [o].
Qed.

#[global] Instance trace_grows_heart : FrameRelHeart trace_grows.
Proof. split; intros. exists []. cbn. by rewrite app_nil_r. Qed.

#[global] Instance queue_grows_preorder : PreOrder queue_grows.
Proof.
  split.
  - intros w. exists [], []. by rewrite app_nil_r.
  - intros w1 w2 w3 (a1 & b1 & H1) (a2 & b2 & H2).
    exists (a2 ++ a1), (b1 ++ b2). rewrite H2, H1.
    by rewrite <- !app_assoc.
Qed.

#[global] Instance queue_grows_frame : FrameRel queue_grows.
Proof.
  split; try apply _; intros;
    try (exists [], []; cbn; by rewrite app_nil_r).
  - exists [r], []. cbn. by rewrite app_nil_r.
  - by exists [], [r].
Qed.

#[global] Instance queue_grows_heart : FrameRelHeart queue_grows.
Proof. split; intros. exists [], []. cbn. by rewrite app_nil_r. Qed.

#[global] Instance socket_kept_preorder i : PreOrder (socket_kept i).
Proof.
  split.
  - intros w sk Hsk. by exists sk.
  - intros w1 w2 w3 H12 H23 sk Hsk.
    destruct (H12 sk Hsk) as (sk2 & H2 & Ho2 & Hc2).
    destruct (H23 sk2 H2) as (sk3 & H3 & Ho3 & Hc3).
    exists sk3. repeat split; [done | congruence | auto].
Qed.

#[global] Instance socket_kept_frame i : FrameRel (socket_kept i).
Proof.
  split; try apply _; intros; intros sk0 Hsk0;
    try (by exists sk0).
  - exists sk0. cbn. split; [|done].
    by apply lookup_app_l_Some.
  - cbn. destruct (decide (i = i0)) as [->|Hne].
    + assert (sk0 = sk) as -> by congruence.
      eexists. split; [apply list_lookup_insert_eq; by eapply lookup_lt_Some|].
      cbn. split; [done | congruence].
    + exists sk0. by rewrite list_lookup_insert_ne.
Qed.

#[global] Instance socket_kept_heart i : FrameRelHeart (socket_kept i).
Proof. split; intros; intros sk0 Hsk0. by exists sk0. Qed.

#[global] Instance same_acknowledged_preorder : PreOrder same_acknowledged.
Proof.
  split; unfold same_acknowledged.
  - by intros w.
  - intros w1 w2 w3 H12 H23. congruence.
Qed.

#[global] Instance same_acknowledged_frame : FrameRel same_acknowledged.
Proof. split; try apply _; by intros. Qed.

#[global] Instance same_acknowledged_beat : FrameRelBeat same_acknowledged.
Proof. split; by intros. Qed.

(** ** Doubles *)

Lemma round_half_even_comp (x y : Q) :
  (x == y)%Q -> round_half_even x = round_half_even y.
Proof.
  intros E. unfold round_half_even.
  rewrite (Qfloor_comp _ _ E).
  assert (Ec : Qcompare (x - inject_Z (Qfloor y)) (1 # 2)
               = Qcompare (y - inject_Z (Qfloor y)) (1 # 2)).
  { apply Qcompare_comp; [by rewrite E | reflexivity]. }
  by rewrite Ec.
Qed.

Lemma round_half_even_bounds (q : Q) :
  Qfloor q <= round_half_even q <= Qfloor q + 1.
Proof.
  unfold round_half_even.
  destruct (Qcompare _ _); [destruct (Z.even _)|..]; lia.
Qed.

Lemma round_half_even_Z (n : Z) : round_half_even (inject_Z n) = n.
Proof.
  unfold round_half_even. rewrite Qfloor_Z.
  assert (E : Qcompare (inject_Z n - inject_Z n) (1 # 2) = Lt).
  { rewrite <- Qlt_alt. unfold Qminus. by rewrite Qplus_opp_r. }
  by rewrite E.
Qed.

Lemma round_half_even_mono (x y : Q) :
  (x <= y)%Q -> round_half_even x <= round_half_even y.
Proof.
  intros Hxy.
  pose proof (Qfloor_resp_le _ _ Hxy) as Hf.
  pose proof (round_half_even_bounds x) as Bx.
  pose proof (round_half_even_bounds y) as By.
  destruct (Z.eq_dec (Qfloor x) (Qfloor y)) as [E | N]; [|lia].
  unfold round_half_even in *. rewrite <- E in *.
  assert (Hfr : (x - inject_Z (Qfloor x) <= y - inject_Z (Qfloor x))%Q).
  { apply Qplus_le_l with (z := inject_Z (Qfloor x)). by ring_simplify. }
  destruct (Qcompare (x - inject_Z (Qfloor x)) (1 # 2)) eqn:Cx;
    destruct (Qcompare (y - inject_Z (Qfloor x)) (1 # 2)) eqn:Cy;
    try destruct (Z.even _); try lia; exfalso.
  - apply Qeq_alt in Cx. rewrite <- Qlt_alt in Cy. rewrite Cx in Hfr.
    by apply Qle_not_lt in Hfr.
  - rewrite <- Qgt_alt in Cx. apply Qeq_alt in Cy. rewrite Cy in Hfr.
    by apply Qle_not_lt in Hfr.
  - rewrite <- Qgt_alt in Cx. rewrite <- Qlt_alt in Cy.
    apply Qle_not_lt in Hfr. apply Hfr. by etrans.
Qed.

Lemma two_power_pos (e : Z) : (0 < 2 ^ e)%Q.
Proof. by apply Qpower_0_lt. Qed.

Lemma floor_log2_le (q : Q) : (0 < q)%Q -> (2 ^ floor_log2 q <= q)%Q.
Proof.
  intros Hq. unfold floor_log2.
  destruct (Qle_bool _ q) eqn:E; [by apply Qle_bool_iff|].
  destruct q as [n d]. cbn [Qnum Qden].
  assert (Hn : 0 < n) by (unfold Qlt in Hq; cbn in Hq; lia).
  pose proof (Z.log2_spec n Hn) as [Ln _].
  pose proof (Z.log2_spec (Zpos d) ltac:(lia)) as [_ Ld].
  pose proof (Z.log2_nonneg n). pose proof (Z.log2_nonneg (Zpos d)).
  replace (Z.log2 n - Z.log2 (Z.pos d) - 1)
    with (Z.log2 n - Z.succ (Z.log2 (Z.pos d))) by lia.
  rewrite Qpower_minus by done.
  rewrite <- !(Zpower_Qpower 2) by lia.
  set (a := 2 ^ Z.log2 n) in *. set (b := 2 ^ Z.succ (Z.log2 (Z.pos d))) in *.
  assert (Hb : 0 < b) by lia.
  apply Qle_shift_div_r; [unfold Qlt; cbn; lia|].
  unfold Qle, Qmult, inject_Z. cbn. nia.
Qed.

Lemma floor_log2_below (q : Q) (e : Z) :
  (0 < q)%Q -> (q < 2 ^ e)%Q -> floor_log2 q < e.
Proof.
  intros Hq Hlt. pose proof (floor_log2_le q Hq) as Hle.
  apply (Qpower_lt_compat_l_inv 2); [|done].
  by eapply Qle_lt_trans.
Qed.

Lemma round_double_pos (q : Q) :
  (0 < q)%Q -> round_double q = round_positive q.
Proof.
  intros Hq. unfold round_double.
  apply Qgt_alt in Hq. by rewrite Hq.
Qed.

Lemma ulp_exponent_nonpos (q : Q) :
  (0 < q)%Q -> (q < inject_Z (2 ^ 53))%Q -> ulp_exponent q <= 0.
Proof.
  intros Hq Hlt. unfold ulp_exponent.
  assert (floor_log2 q < 53); [|lia].
  apply floor_log2_below; [done|].
  by rewrite <- (Zpower_Qpower 2 53).
Qed.

(** Below [2^53] the doubles are at most one apart, so rounding never
    crosses an integer. *)
Lemma round_double_integer (q : Q) (N : Z) :
  (0 < q)%Q -> (q < inject_Z (2 ^ 53))%Q ->
  ((q <= inject_Z N)%Q -> (round_double q <= inject_Z N)%Q)
  /\ ((inject_Z N <= q)%Q -> (inject_Z N <= round_double q)%Q).
Proof.
  intros Hq Hlt. rewrite (round_double_pos q Hq). unfold round_positive.
  pose proof (ulp_exponent_nonpos q Hq Hlt) as He.
  set (e := ulp_exponent q) in *. clearbody e.
  set (P := 2 ^ (- e)).
  assert (HP : 0 < P) by (apply Z.pow_pos_nonneg; lia).
  assert (Hpow : (2 ^ e == / inject_Z P)%Q).
  { replace e with (- - e) at 1 by lia. rewrite Qpower_opp.
    subst P. by rewrite (Zpower_Qpower 2) by lia. }
  assert (HPq : (0 < inject_Z P)%Q) by (unfold Qlt; cbn; lia).
  assert (Hint : (inject_Z N / 2 ^ e == inject_Z (N * P))%Q).
  { rewrite Hpow, inject_Z_mult. field. intros E. rewrite E in HPq.
    by apply Qlt_irrefl in HPq. }
  assert (Hback : (inject_Z (N * P) * 2 ^ e == inject_Z N)%Q).
  { rewrite Hpow, inject_Z_mult. field. intros E. rewrite E in HPq.
    by apply Qlt_irrefl in HPq. }
  assert (Hinv : (0 < / 2 ^ e)%Q) by (apply Qinv_lt_0_compat, two_power_pos).
  split; intros Hle.
  - rewrite <- Hback. apply Qmult_le_compat_r; [|apply Qlt_le_weak, two_power_pos].
    rewrite <- Zle_Qle. rewrite <- (round_half_even_Z (N * P)).
    rewrite <- (round_half_even_comp _ _ Hint).
    apply round_half_even_mono. apply Qmult_le_compat_r; [done|].
    by apply Qlt_le_weak.
  - rewrite <- Hback. apply Qmult_le_compat_r; [|apply Qlt_le_weak, two_power_pos].
    rewrite <- Zle_Qle. rewrite <- (round_half_even_Z (N * P)).
    rewrite <- (round_half_even_comp _ _ Hint).
    apply round_half_even_mono. apply Qmult_le_compat_r; [done|].
    by apply Qlt_le_weak.
Qed.

Lemma round_double_nonneg (q : Q) : (0 <= q)%Q -> (0 <= round_double q)%Q.
Proof.
  intros Hq. unfold round_double.
  destruct (Qcompare q 0) eqn:C; [done | |].
  - apply Qlt_alt in C. by apply Qle_not_lt in Hq.
  - apply Qgt_alt in C. unfold round_positive.
    apply Qmult_le_0_compat; [|apply Qlt_le_weak, two_power_pos].
    change 0%Q with (inject_Z 0). rewrite <- Zle_Qle.
    etrans; [|apply round_half_even_bounds].
    change 0 with (Qfloor (inject_Z 0)). apply Qfloor_resp_le.
    apply Qle_shift_div_l; [apply two_power_pos|].
    rewrite Qmult_0_l. by apply Qlt_le_weak.
Qed.

(** The least positive double is [2^-1074]. *)
Lemma round_double_positive (q : Q) :
  (2 ^ (-1074) <= q)%Q -> (0 < round_double q)%Q.
Proof.
  intros Hq.
  assert (Hpos : (0 < q)%Q) by (eapply Qlt_le_trans; [apply two_power_pos | done]).
  rewrite (round_double_pos q Hpos). unfold round_positive.
  apply Qmult_lt_0_compat; [|apply two_power_pos].
  change 0%Q with (inject_Z 0). rewrite <- Zlt_Qlt.
  assert (1 <= round_half_even (q / 2 ^ ulp_exponent q)); [|lia].
  rewrite <- (round_half_even_Z 1). apply round_half_even_mono.
  apply Qle_shift_div_l; [apply two_power_pos|]. rewrite Qmult_1_l.
  unfold ulp_exponent.
  destruct (Z.max_spec (floor_log2 q) (-1022)) as [[_ ->] | [_ ->]]; [done|].
  eapply Qle_trans; [|apply (floor_log2_le q Hpos)].
  apply Qpower_le_compat_l; [lia | done].
Qed.

Lemma double_least_positive (q : Q) :
  is_double q = true -> (0 < q)%Q -> (2 ^ (-1074) <= q)%Q.
Proof.
  intros Hd Hq. apply Qeq_bool_iff in Hd.
  apply Qnot_lt_le. intros Hlt.
  rewrite (round_double_pos q Hq) in Hd. unfold round_positive in Hd.
  assert (He : ulp_exponent q = -1074).
  { unfold ulp_exponent. pose proof (floor_log2_below q (-1074) Hq Hlt). lia. }
  rewrite He in Hd.
  assert (Hx : (0 < q / 2 ^ (-1074))%Q /\ (q / 2 ^ (-1074) < 1)%Q).
  { split.
    - apply Qlt_shift_div_l; [apply two_power_pos | by rewrite Qmult_0_l].
    - apply Qlt_shift_div_r; [apply two_power_pos | by rewrite Qmult_1_l]. }
  destruct Hx as [Hx0 Hx1].
  assert (Hf : Qfloor (q / 2 ^ (-1074)) = 0).
  { pose proof (Qfloor_le (q / 2 ^ (-1074))) as H1.
    pose proof (Qlt_floor (q / 2 ^ (-1074))) as H2.
    assert (0 <= Qfloor (q / 2 ^ (-1074))).
    { change 0 with (Qfloor (inject_Z 0)). apply Qfloor_resp_le.
      by apply Qlt_le_weak. }
    assert (Qfloor (q / 2 ^ (-1074)) < 1); [|lia].
    rewrite Zlt_Qlt. by eapply Qle_lt_trans. }
  pose proof (round_half_even_bounds (q / 2 ^ (-1074))) as Hb.
  rewrite Hf in Hb.
  assert (Hr : round_half_even (q / 2 ^ (-1074)) = 0
               \/ round_half_even (q / 2 ^ (-1074)) = 1) by lia.
  destruct Hr as [Hr | Hr]; rewrite Hr in Hd.
  - rewrite Qmult_0_l in Hd. rewrite <- Hd in Hq. by apply Qlt_irrefl in Hq.
  - rewrite Qmult_1_l in Hd. rewrite <- Hd in Hlt. by apply Qlt_irrefl in Hlt.
Qed.

(** [round_double] agrees with the specification of IEEE 754 arithmetic of
    the Standard Library, instantiated to doubles, at the products and sums
    where rounding decides the results below: [41250 * r] for a sample [r]
    just below [4438 / 41250], and [(r * 4 + 1) * 1000] for the largest
    sample below [1]. *)
Lemma round_double_agrees_with_SpecFloat :
  (spec_value
     (SFmul 53 1024 (S754_finite false 41250 0)
        (S754_finite false 484532730818673 (-52)))
   == double_mul 41250 (484532730818673 # 2 ^ 52))%Q
  /\ (spec_value
        (SFmul 53 1024
           (SFadd 53 1024
              (SFmul 53 1024 (S754_finite false (2 ^ 53 - 1) (-53))
                 (S754_finite false 4 0))
              (S754_finite false 1 0))
           (S754_finite false 1000 0))
      == double_mul (double_add (double_mul (1 - (1 # 2 ^ 53)) 4) 1) 1000)%Q.
Proof. split; apply Qeq_bool_iff; vm_compute; reflexivity. Qed.

(** ** The first heartbeat *)

Lemma random_or_half_bounds (r : Q) :
  (0 <= r)%Q -> (r < 1)%Q ->
  (0 < random_or_half r)%Q /\ (random_or_half r <= 1)%Q.
Proof.
  intros H0 H1. unfold random_or_half.
  destruct (Qeq_bool r 0) eqn:E.
  - split; reflexivity || discriminate.
  - apply Qeq_bool_neq in E. split.
    + apply Qle_lt_or_eq in H0 as [Hlt | Heq]; [done|].
      exfalso; apply E; symmetry; exact Heq.
    + by apply Qlt_le_weak.
Qed.

Lemma random_or_half_double (r : Q) :
  is_double r = true -> is_double (random_or_half r) = true.
Proof. intros Hd. unfold random_or_half. by destruct (Qeq_bool r 0). Qed.

Lemma jitter_bounds (itv : Z) (r : Q) :
  is_double r = true -> (0 <= r)%Q -> (r < 1)%Q -> 0 < itv < 2 ^ 53 ->
  1 <= jitter itv r <= itv.
Proof.
  intros Hd H0 H1 [Hi Hb]. unfold jitter, double_mul.
  destruct (random_or_half_bounds r H0 H1) as [Hpos Hle].
  pose proof (double_least_positive _ (random_or_half_double r Hd) Hpos) as Hmin.
  set (x := random_or_half r) in *. clearbody x.
  assert (Hq : (0 < inject_Z itv)%Q).
  { change 0%Q with (inject_Z 0). by rewrite <- Zlt_Qlt. }
  assert (Hp : (0 < inject_Z itv * x)%Q) by (by apply Qmult_lt_0_compat).
  assert (Hup : (inject_Z itv * x <= inject_Z itv)%Q).
  { rewrite <- (Qmult_1_r (inject_Z itv)) at 2. by apply Qmult_le_l. }
  assert (Hlo : (x <= inject_Z itv * x)%Q).
  { rewrite <- (Qmult_1_l x) at 1. apply Qmult_le_compat_r.
    - change 1%Q with (inject_Z 1). rewrite <- Zle_Qle. lia.
    - by apply Qlt_le_weak. }
  assert (Hlt : (inject_Z itv * x < inject_Z (2 ^ 53))%Q).
  { eapply Qle_lt_trans; [exact Hup|]. by rewrite <- Zlt_Qlt. }
  destruct (round_double_integer _ itv Hp Hlt) as [Hle' _].
  specialize (Hle' Hup).
  assert (Hrp : (0 < round_double (inject_Z itv * x))%Q).
  { apply round_double_positive. by eapply Qle_trans. }
  split.
  - pose proof (Qle_ceiling (round_double (inject_Z itv * x))) as Hc.
    assert (Hz : (inject_Z 0
                  < inject_Z (Qceiling (round_double (inject_Z itv * x))))%Q).
    { eapply Qlt_le_trans; [exact Hrp | exact Hc]. }
    rewrite <- Zlt_Qlt in Hz. lia.
  - rewrite <- (Qceiling_Z itv) at 2. by apply Qceiling_resp_le.
Qed.

(** The delay against the ceiling of the exact product: rounding the
    product to a double never crosses an integer, so the delay is that
    ceiling or one less. *)
Lemma jitter_near_exact (itv : Z) (r : Q) :
  (0 <= r)%Q -> (r < 1)%Q -> 0 < itv < 2 ^ 53 ->
  Qceiling (inject_Z itv * random_or_half r) - 1
  <= jitter itv r
  <= Qceiling (inject_Z itv * random_or_half r).
Proof.
  intros Hr0 Hr1 [Hi Hb]. unfold jitter, double_mul.
  destruct (random_or_half_bounds r Hr0 Hr1) as [Hpos Hle].
  set (x := random_or_half r) in *. clearbody x.
  assert (Hq : (0 < inject_Z itv)%Q).
  { change 0%Q with (inject_Z 0). by rewrite <- Zlt_Qlt. }
  assert (Hp : (0 < inject_Z itv * x)%Q) by (by apply Qmult_lt_0_compat).
  assert (Hup : (inject_Z itv * x <= inject_Z itv)%Q).
  { rewrite <- (Qmult_1_r (inject_Z itv)) at 2. by apply Qmult_le_l. }
  assert (Hlt : (inject_Z itv * x < inject_Z (2 ^ 53))%Q).
  { eapply Qle_lt_trans; [exact Hup|]. by rewrite <- Zlt_Qlt. }
  set (q := (inject_Z itv * x)%Q) in *. clearbody q.
  destruct (round_double_integer q (Qceiling q) Hp Hlt) as [Hc _].
  destruct (round_double_integer q (Qfloor q) Hp Hlt) as [_ Hf].
  specialize (Hc (Qle_ceiling q)). specialize (Hf (Qfloor_le q)).
  apply Qceiling_resp_le in Hc, Hf. rewrite Qceiling_Z in Hc, Hf.
  assert (Hcf : Qceiling q - 1 <= Qfloor q).
  { rewrite <- (Qfloor_Z (Qceiling q - 1)). apply Qfloor_resp_le.
    apply Qlt_le_weak, Qceiling_lt. }
  lia.
Qed.

(** C5 (amended): on Hello the one-shot timer is set to
    [ceil(interval * (random() || 0.5))], a product of doubles, where [0.5]
    replaces the sample only when the sample is [0]; the delay is the
    ceiling of the exact product or one less, and for a positive interval
    and a sample in [0,1) it lies between [1] and [interval]. *)
Theorem C5_jitter_delay (itv : Z) (rnd : Q) (w : World)
  (Hd : is_double rnd = true)
  (Hrnd : (0 <= rnd)%Q /\ (rnd < 1)%Q) (Hitv : 0 < itv < 2 ^ 53) :
  timers (startHeartbeating itv rnd w)
    = timers w ++ [Build_Timer JitterTimeout (jitter itv rnd) true]
  /\ ((rnd == 0)%Q ->
      jitter itv rnd = Qceiling (double_mul (inject_Z itv) (1 # 2)))
  /\ (~ (rnd == 0)%Q ->
      jitter itv rnd = Qceiling (double_mul (inject_Z itv) rnd))
  /\ Qceiling (inject_Z itv * (if Qeq_bool rnd 0 then 1 # 2 else rnd)) - 1
     <= jitter itv rnd
     <= Qceiling (inject_Z itv * (if Qeq_bool rnd 0 then 1 # 2 else rnd))
  /\ 1 <= jitter itv rnd <= itv.
Proof.
  destruct Hrnd as [Hr0 Hr1].
  split; [|split; [|split; [|split]]].
  - unfold startHeartbeating. by case_match.
  - intros E. unfold jitter, random_or_half.
    by rewrite (proj2 (Qeq_bool_iff rnd 0) E).
  - intros N. unfold jitter, random_or_half.
    destruct (Qeq_bool rnd 0) eqn:E; [|done].
    by apply Qeq_bool_iff in E.
  - by apply jitter_near_exact.
  - by apply jitter_bounds.
Qed.

(** The interval 41250 of the cold-identify scenario: with the sample 0.25
    the product is exact; with a sample just below [4438 / 41250] the exact
    product lies above 4438 and the product of doubles is 4438. *)
Lemma C5_jitter_delay_witness :
  timers (startHeartbeating 41250 (1 # 4) example_world)
    = [Build_Timer JitterTimeout 10313 true]
  /\ 1 <= jitter 41250 (1 # 4) <= 41250
  /\ jitter 41250 (484532730818673 # 2 ^ 52) = 4438
  /\ Qceiling (41250 * (484532730818673 # 2 ^ 52)) = 4439.
Proof.
  destruct (C5_jitter_delay 41250 (1 # 4) example_world)
    as (Ht & _ & _ & _ & Hb).
  - reflexivity.
  - split; [discriminate | reflexivity].
  - split; reflexivity.
  - split; [exact Ht|]. split; [exact Hb|]. split; vm_compute; reflexivity.
Defined.

(** C5 as stated fails: with the sample [0.25] and the interval [1000] the
    shard waits 250 ms, not [ceil(1000 * max(0.25, 0.5)) = 500], and 250 is
    below [ceil(1000 * 0.5)]. *)
Lemma C5_jitter_below_half :
  is_double (1 # 4) = true
  /\ timers (startHeartbeating 1000 (1 # 4) example_world)
     = [Build_Timer JitterTimeout 250 true]
  /\ jitter_as_specified 1000 (1 # 4) = 500
  /\ jitter 1000 (1 # 4) <> jitter_as_specified 1000 (1 # 4)
  /\ ~ (Qceiling (double_mul (inject_Z 1000) (1 # 2)) <= jitter 1000 (1 # 4)).
Proof. repeat split; vm_compute; congruence. Qed.

(** ** requestMembers *)

Section Members.
Context `{GatewayConstants} `{Platform}.

Lemma missing_members_intent_spec (ints : Z)
  (options : option RequestGuildMembersOptions) :
  missing_members_intent ints options = true
  <-> ints <> 0
      /\ (options ≫= limit = None \/ options ≫= limit = Some 0
          \/ exists l, options ≫= limit = Some l /\ 1 < l)
      /\ Z.land ints GuildMembers = 0.
Proof.
  unfold missing_members_intent, truthy_optnumber, truthy_number.
  destruct (Z.eqb_spec ints 0), (Z.eqb_spec (Z.land ints GuildMembers) 0),
    (options ≫= limit) as [l|]; cbn;
    try destruct (Z.eqb_spec l 0); try destruct (Z.ltb_spec 1 l); cbn;
    split; try done; try (intros (? & ? & ?); done).
  all: try (intros _; split; [done|]; split; [|done]).
  all: try (left; done).
  all: try (right; left; congruence).
  all: try (right; right; exists l; split; [done | lia]).
  intros (_ & [? | [? | (l' & ? & ?)]] & _); simplify_eq; lia.
Qed.

(** C8: [requestMembers] fails with MISSING_INTENT_GUILD_MEMBERS exactly
    when the intents are not zero, the limit is absent, zero or greater than
    one, and the GuildMembers bit is not set; it fails before anything is
    sent, queued or stored, and has no other failure. *)
Theorem C8_requestMembers_missing_intent (guildId : string)
  (options : option RequestGuildMembersOptions) (now : Z) (k : Stack)
  (w : World) :
  (requestMembers guildId options now k w
     = Thrown "MISSING_INTENT_GUILD_MEMBERS" w
   <-> intents (connection (shard w)) <> 0
       /\ (options ≫= limit = None \/ options ≫= limit = Some 0
           \/ exists l, options ≫= limit = Some l /\ 1 < l)
       /\ Z.land (intents (connection (shard w))) GuildMembers = 0)
  /\ (forall msg w',
        requestMembers guildId options now k w = Thrown msg w' ->
        msg = "MISSING_INTENT_GUILD_MEMBERS" /\ w' = w).
Proof.
  rewrite <- missing_members_intent_spec. unfold requestMembers.
  destruct (missing_members_intent _ _).
  - split; [done|]. by intros ? ? [= <- <-].
  - split.
    + split; [|done]. repeat case_match; discriminate.
    + intros ? ?. repeat case_match; discriminate.
Qed.

End Members.

(** ** Closing *)

Section Closing.
Context `{GatewayConstants} `{Platform}.

Lemma stopHeartbeating_keeps (w : World) :
  shard (stopHeartbeating w) = shard w
  /\ trace (stopHeartbeating w) = trace w
  /\ promises (stopHeartbeating w) = promises w
  /\ ready (stopHeartbeating w) = ready w
  /\ sockets (stopHeartbeating w) = sockets w.
Proof. unfold stopHeartbeating, clear_timer. by repeat case_match. Qed.

Lemma code_in_spec (code : Z) (l : list Z) :
  code_in code l = true <-> In code l.
Proof.
  unfold code_in. rewrite existsb_exists. split.
  - intros (x & Hx & He). apply Z.eqb_eq in He. by subst.
  - intros Hc. exists code. split; [done | apply Z.eqb_refl].
Qed.

Lemma all_distinct_NoDup (l : list Z) : all_distinct l = true -> List.NoDup l.
Proof.
  induction l as [|x l IH]; cbn; [constructor|].
  rewrite andb_true_iff, negb_true_iff. intros [Hx Hl].
  constructor; [|auto].
  intros Hin. apply code_in_spec in Hin. unfold code_in in Hin. congruence.
Qed.

(** In a list without duplicates, members of two separate segments differ. *)
Lemma NoDup_app_disjoint (l1 l2 : list Z) (x : Z) :
  List.NoDup (l1 ++ l2) -> In x l1 -> In x l2 -> False.
Proof.
  induction l1 as [|y l1 IH]; cbn; [done|].
  intros Hn [-> | Hin] H2.
  - inversion Hn as [|? ? Hy]. apply Hy, in_or_app. by right.
  - inversion Hn. auto.
Qed.

Lemma code_in_app (code : Z) (l1 l2 : list Z) :
  code_in code (l1 ++ l2) = code_in code l1 || code_in code l2.
Proof. apply existsb_app. Qed.

(** The chain of tests in [handleClose], by class. *)
Lemma handleClose_unfold (code : Z) (reason : string) (k : Stack) (w : World) :
  handleClose code reason k w =
  let w0 := stopHeartbeating w in
  if code_in code [TestingFinished] then
    Normal (enqueue k (emit disconnected (set_state Offline w0)))
  else if code_in code graceful_codes then
    Normal (enqueue k (emit disconnected (set_state Disconnected w0)))
  else if code_in code reidentify_codes then
    Normal (identify k (emit disconnected (set_state Identifying w0)))
  else if code_in code fatal_codes then
    Thrown (fatal_message reason) (emit disconnected (set_state Offline w0))
  else
    Normal (resume k (emit disconnected (set_state Resuming w0))).
Proof.
  unfold handleClose, fatal_message, graceful_codes, reidentify_codes,
    fatal_codes.
  cbn [code_in existsb]. by rewrite !orb_false_r.
Qed.

Lemma distinct_earlier (l1 l2 : list Z) (code : Z) :
  all_distinct (l1 ++ l2) = true ->
  code_in code l2 = true -> code_in code l1 = false.
Proof.
  intros Hd Hin. apply all_distinct_NoDup in Hd.
  destruct (code_in code l1) eqn:E; [|done]. exfalso.
  apply code_in_spec in E, Hin. by eapply NoDup_app_disjoint.
Qed.

Lemma distinct_classes (code : Z) :
  all_distinct close_codes = true ->
  (code_in code reidentify_codes = true ->
     code_in code ([TestingFinished] ++ graceful_codes) = false)
  /\ (code_in code fatal_codes = true ->
     code_in code ([TestingFinished] ++ graceful_codes ++ reidentify_codes)
       = false)
  /\ (code_in code resumable_codes = true ->
     code_in code ([TestingFinished] ++ graceful_codes ++ reidentify_codes
                   ++ fatal_codes) = false).
Proof.
  intros Hd. repeat split; intros Hin.
  - apply (distinct_earlier _
             (reidentify_codes ++ fatal_codes ++ resumable_codes)).
    + by rewrite <- app_assoc.
    + rewrite code_in_app, Hin. done.
  - apply (distinct_earlier _ (fatal_codes ++ resumable_codes)).
    + by rewrite <- !app_assoc.
    + rewrite code_in_app, Hin. done.
  - apply (distinct_earlier _ resumable_codes).
    + by rewrite <- !app_assoc.
    + done.
Qed.

(** Where [handleClose] leaves the shard before a reconnect starts. *)
Lemma closed_world_keeps (st : ShardState) (w : World) :
  let w1 := emit disconnected (set_state st (stopHeartbeating w)) in
  state (shard w1) = st
  /\ trace w1 = trace w ++ [Emitted disconnected]
  /\ waiters_untouched w w1
  /\ ready w1 = ready w.
Proof.
  destruct (stopHeartbeating_keeps w) as (Hs & Ht & Hp & Hr & _).
  cbn. unfold waiters_untouched. cbn. rewrite Hs, Ht, Hp, Hr. done.
Qed.

(** C1 (amended): a close code of the re-identify class sets the state to
    Identifying and calls [identify()]; a code of the fatal class sets the
    state to Offline and makes [handleClose] itself throw, with the close
    reason or a default message, while the promises and resolvers of an
    identify or resume in flight are left as they are; any code outside the
    testing, graceful, re-identify and fatal classes, UnknownError,
    DecodeError and AlreadyAuthenticated among them, sets the state to
    Resuming and calls [resume()]. *)
Theorem C1_handleClose_classes
  (Hd : all_distinct close_codes = true)
  (code : Z) (reason : string) (k : Stack) (w : World) :
  (code_in code reidentify_codes = true ->
     exists w1,
       state (shard w1) = Identifying
       /\ handleClose code reason k w = Normal (identify k w1))
  /\ (code_in code fatal_codes = true ->
     exists w1,
       state (shard w1) = Offline
       /\ handleClose code reason k w = Thrown (fatal_message reason) w1
       /\ waiters_untouched w w1
       /\ ready w1 = ready w)
  /\ (code_in code ([TestingFinished] ++ graceful_codes ++ reidentify_codes
                    ++ fatal_codes) = false ->
     exists w1,
       state (shard w1) = Resuming
       /\ handleClose code reason k w = Normal (resume k w1))
  /\ (code_in code resumable_codes = true ->
     exists w1,
       state (shard w1) = Resuming
       /\ handleClose code reason k w = Normal (resume k w1)).
Proof.
  destruct (distinct_classes code Hd) as (Hre & Hfa & Hru).
  assert (Hdefault :
    code_in code ([TestingFinished] ++ graceful_codes ++ reidentify_codes
                  ++ fatal_codes) = false ->
    exists w1, state (shard w1) = Resuming
      /\ handleClose code reason k w = Normal (resume k w1)).
  { intros Hout. rewrite !code_in_app, !orb_false_iff in Hout.
    destruct Hout as (Ht & Hg & Hr & Hf).
    eexists. split; [apply (closed_world_keeps Resuming w)|].
    rewrite handleClose_unfold. cbn zeta. by rewrite Ht, Hg, Hr, Hf. }
  repeat split.
  - intros Hin. specialize (Hre Hin).
    rewrite !code_in_app, !orb_false_iff in Hre. destruct Hre as (Ht & Hg).
    eexists. split; [apply (closed_world_keeps Identifying w)|].
    rewrite handleClose_unfold. cbn zeta. by rewrite Ht, Hg, Hin.
  - intros Hin. specialize (Hfa Hin).
    rewrite !code_in_app, !orb_false_iff in Hfa.
    destruct Hfa as (Ht & Hg & Hr).
    destruct (closed_world_keeps Offline w) as (Hs & _ & Hw & Hq).
    eexists. split; [exact Hs|]. split; [|split; [exact Hw | exact Hq]].
    rewrite handleClose_unfold. cbn zeta. by rewrite Ht, Hg, Hr, Hin.
  - exact Hdefault.
  - intros Hin. apply Hdefault. by apply Hru.
Qed.

(** C7 (amended): [handleClose] calls the [disconnected] callback on every
    close code, TestingFinished included, before any reconnect starts. *)
Theorem C7_disconnected_on_every_close
  (code : Z) (reason : string) (k : Stack) (w : World) :
  exists post,
    trace (outcome_world (handleClose code reason k w))
      = trace w ++ Emitted disconnected :: post.
Proof.
  assert (Hgen : forall st (f : World -> World),
            (forall w1, trace_grows w1 (f w1)) ->
            exists post,
              trace (f (emit disconnected (set_state st (stopHeartbeating w))))
                = trace w ++ Emitted disconnected :: post).
  { intros st f Hf.
    destruct (Hf (emit disconnected (set_state st (stopHeartbeating w))))
      as [post Hp].
    exists post. rewrite Hp.
    destruct (closed_world_keeps st w) as (_ & -> & _).
    by rewrite <- app_assoc. }
  rewrite handleClose_unfold. cbn zeta.
  repeat case_match; cbn [outcome_world].
  - apply (Hgen Offline (enqueue k)). intros. apply fr_enqueue; [apply _ | reflexivity].
  - apply (Hgen Disconnected (enqueue k)). intros. apply fr_enqueue; [apply _ | reflexivity].
  - apply (Hgen Identifying (identify k)). intros. apply fr_identify; [apply _ | reflexivity].
  - apply (Hgen Offline (fun w => w)). intros. reflexivity.
  - apply (Hgen Resuming (resume k)). intros. apply fr_resume; [apply _ | reflexivity].
Qed.

End Closing.

(** ** Heartbeats and acknowledgement *)

Section Packets.
Context `{GatewayConstants} `{Platform}.

Lemma isOpen_intro (w : World) (i : nat) (sk : WebSocket) :
  socket (shard w) = Some i -> sockets w !! i = Some sk ->
  readyState sk = OPEN -> isOpen w = true.
Proof.
  intros Hi Hsk Ho. unfold isOpen, socket_readyState.
  rewrite Hi. cbn. rewrite Hsk. cbn. rewrite Ho. by apply bool_decide_eq_true_2.
Qed.

Lemma isOpen_same (w w' : World) :
  socket (shard w') = socket (shard w) -> sockets w' = sockets w ->
  isOpen w' = isOpen w.
Proof. intros Hs Hk. unfold isOpen, socket_readyState. by rewrite Hs, Hk. Qed.

Lemma isOpen_socket (w : World) :
  isOpen w = true -> exists i, socket (shard w) = Some i.
Proof.
  unfold isOpen, socket_readyState. intros Ho%bool_decide_eq_true.
  destruct (socket (shard w)); [eauto | done].
Qed.

(** C2 (amended): [heart.acknowledged] is set to [false] when the jittered
    first heartbeat or a steady heartbeat is transmitted, and every incoming
    packet, whatever its opcode, sets it to [true]; a heartbeat echoed on a
    request of the server leaves it [true]. *)
Theorem C2_acknowledged_by_any_packet :
  (forall packet now rnd k w,
     acknowledged (heart (shard (handleDiscordPacket packet now rnd k w)))
       = true)
  /\ (forall now w,
        isOpen w = true ->
        exists i,
          socket (shard w) = Some i
          /\ trace (jitter_timeout now w)
             = trace w
               ++ [Transmitted i (WireHeartbeat (previousSequenceNumber (shard w)))]
          /\ acknowledged (heart (shard (jitter_timeout now w))) = false)
  /\ (forall now k w,
        isOpen w = true ->
        acknowledged (heart (shard w)) = true ->
        exists i,
          socket (shard w) = Some i
          /\ trace (steady_interval now k w)
             = trace w
               ++ [Transmitted i (WireHeartbeat (previousSequenceNumber (shard w)));
                   Emitted heartbeat]
          /\ acknowledged (heart (shard (steady_interval now k w))) = false)
  /\ (forall packet now rnd k w,
        op packet = Heartbeat -> isOpen w = true ->
        exists i post,
          socket (shard w) = Some i
          /\ trace (handleDiscordPacket packet now rnd k w)
             = trace w
               ++ Transmitted i (WireHeartbeat (previousSequenceNumber (shard w)))
                  :: post
          /\ acknowledged (heart (shard (handleDiscordPacket packet now rnd k w)))
             = true).
Proof.
  assert (Hack : forall packet now rnd k w,
            acknowledged (heart (shard (handleDiscordPacket packet now rnd k w)))
              = true).
  { intros.
    pose proof (fr_packet_after_heart same_acknowledged packet now rnd k w) as Hf.
    unfold same_acknowledged in Hf. by rewrite Hf. }
  split; [exact Hack|]. split; [|split].
  3: {
    intros packet now rnd k w Hop Ho.
    destruct (isOpen_socket w Ho) as [i Hi]. exists i.
    assert (Htr : exists post,
              trace (handleDiscordPacket packet now rnd k w)
              = trace w
                ++ Transmitted i (WireHeartbeat (previousSequenceNumber (shard w)))
                   :: post).
    { unfold handleDiscordPacket. cbn zeta. rewrite Hop.
      rewrite (isOpen_same w) by reflexivity. rewrite Ho. cbn [negb].
      unfold socket_send. rewrite (isOpen_same w) by reflexivity. rewrite Ho.
      cbn [shard set_heart with_shard shard_heart socket].
      rewrite Hi.
      match goal with
      | |- context [packet_epilogue packet k ?x] =>
          destruct (fr_packet_epilogue trace_grows x packet k x) as [post Hp];
            [reflexivity|]; rewrite Hp
      end.
      cbn. exists (Emitted heartbeat :: post). by rewrite <- !app_assoc. }
    destruct Htr as [post Htr]. exists post. by rewrite Htr, Hack. }
  - intros now w Ho. destruct (isOpen_socket w Ho) as [i Hi]. exists i.
    unfold jitter_timeout, socket_send. rewrite Ho, Hi. by cbn.
  - intros now k w Ho Ha. destruct (isOpen_socket w Ho) as [i Hi]. exists i.
    unfold steady_interval, socket_send. rewrite Ho, Ha. cbn.
    assert (Ho' : isOpen (set_heart (heart_acknowledged false (heart (shard w))) w)
                  = true) by exact Ho.
    rewrite Ho', Hi. destruct k; cbn; by rewrite <- app_assoc.
Qed.

(** ** The sequence counter *)

(** The end of [handleDiscordPacket] stores a sequence number that is not
    [null]. *)
Lemma packet_epilogue_sets_sequence packet k w n :
  null_ready packet = false ->
  s packet = Some n ->
  previousSequenceNumber (shard (packet_epilogue packet k w)) = Some n.
Proof.
  intros Hn Hs. unfold packet_epilogue. rewrite Hn, Hs. by destruct k.
Qed.

(** Packets whose case of the [switch] ends in [break] without an [await]
    reach that end at once. *)
Lemma null_hello_Hello packet :
  op packet = Hello -> null_hello packet = is_null (d packet).
Proof. intros E. unfold null_hello. by rewrite bool_decide_eq_true_2. Qed.

Lemma handleDiscordPacket_sets_sequence packet now rnd k w n :
  null_hello packet = false -> null_ready packet = false ->
  s packet = Some n ->
  op packet <> Reconnect -> op packet <> InvalidSession ->
  (op packet = Heartbeat -> isOpen w = true) ->
  previousSequenceNumber (shard (handleDiscordPacket packet now rnd k w))
    = Some n.
Proof.
  intros Hnh Hnr Hs Hr Hi Ho. unfold handleDiscordPacket.
  destruct (op packet) eqn:E; try done;
    try by apply packet_epilogue_sets_sequence.
  - assert (Ho' : isOpen (set_heart (heart_after_packet now (heart (shard w))) w)
                  = true) by (by apply Ho).
    unfold heart_after_packet in Ho'. rewrite Ho'. cbn [negb].
    by apply packet_epilogue_sets_sequence.
  - rewrite (null_hello_Hello packet E) in Hnh. rewrite Hnh.
    by apply packet_epilogue_sets_sequence.
Qed.

(** ** Shutdown *)

(** C6 (amended): [shutdown()] closes the socket if it is open, sets the
    state to Offline and completes; it wakes nobody: the promises, the
    [resolves] map, the offline queue and the bucket with its waiters are
    what they were, and only the caller of [shutdown] is resumed. *)
Theorem C6_shutdown_wakes_nobody (k : Stack) (w : World) :
  state (shard (shutdown k w)) = Offline
  /\ sockets (shutdown k w) = sockets (close Shutdown "Shard shutting down." w)
  /\ waiters_untouched w (shutdown k w)
  /\ delays (shutdown k w) = delays w
  /\ trace (shutdown k w) = trace w
  /\ ready (shutdown k w) = ready (enqueue k w).
Proof.
  unfold shutdown, close, waiters_untouched.
  destruct k; repeat case_match; cbn; done.
Qed.

(** ** The offline queue *)

Lemma woken_app (a b : list Obs) : woken (a ++ b) = woken a ++ woken b.
Proof. apply omap_app. Qed.

Lemma call_resolver_keeps (r : Resolver) (w : World) :
  offlineSendQueue (shard (call_resolver r w)) = offlineSendQueue (shard w)
  /\ woken (trace (call_resolver r w)) = woken (trace w).
Proof.
  destruct r; unfold call_resolver, settle, enqueue;
    repeat case_match; cbn; rewrite ?woken_app, ?app_nil_r; done.
Qed.

Lemma drain_fold_keeps (q : list Resolver) (w : World) :
  let w' := foldl (fun w r => call_resolver r (observe (Woken r) w)) w q in
  offlineSendQueue (shard w') = offlineSendQueue (shard w)
  /\ woken (trace w') = woken (trace w) ++ q.
Proof.
  revert w. induction q as [|r q IH]; intros w; cbn.
  - by rewrite app_nil_r.
  - destruct (IH (call_resolver r (observe (Woken r) w))) as [Hq Hw].
    destruct (call_resolver_keeps r (observe (Woken r) w)) as [Hq1 Hw1].
    cbn in Hq, Hw. rewrite Hq, Hw, Hq1, Hw1. cbn.
    rewrite woken_app. cbn. by rewrite <- app_assoc.
Qed.

Lemma resolve_and_delete_keeps (key : ResolveKey) (w : World) :
  offlineSendQueue (shard (resolve_and_delete key w))
    = offlineSendQueue (shard w)
  /\ woken (trace (resolve_and_delete key w)) = woken (trace w).
Proof.
  unfold resolve_and_delete. cbn. case_match; [|done].
  apply call_resolver_keeps.
Qed.

Lemma drains_cases packet :
  drains packet = true ->
  null_ready packet = false
  /\ (t packet = Some "READY" \/ t packet = Some "RESUMED").
Proof.
  unfold drains, null_ready. intros Hd.
  destruct (decide (t packet = Some "RESUMED")) as [E | N].
  - rewrite E. split; [|by right].
    by rewrite bool_decide_eq_false_2.
  - rewrite (bool_decide_eq_false_2 _ N) in Hd. cbn in Hd.
    apply andb_true_iff in Hd as [Hr Hn]. apply bool_decide_eq_true in Hr.
    apply negb_true_iff in Hn. rewrite Hn, andb_false_r. split; [done|].
    by left.
Qed.

Lemma packet_epilogue_drains packet k w :
  drains packet = true ->
  offlineSendQueue (shard (packet_epilogue packet k w))
    = offlineSendQueue (shard w)
  /\ woken (trace (packet_epilogue packet k w))
     = woken (trace w) ++ offlineSendQueue (shard w).
Proof.
  intros Ht.
  assert (Hend : forall w1,
    offlineSendQueue (shard (enqueue k (emit (message packet)
      match s packet with
      | Some n => with_shard (shard_previousSequenceNumber (Some n)) w1
      | None => w1
      end))) = offlineSendQueue (shard w1)
    /\ woken (trace (enqueue k (emit (message packet)
      match s packet with
      | Some n => with_shard (shard_previousSequenceNumber (Some n)) w1
      | None => w1
      end))) = woken (trace w1)).
  { intros w1. destruct k, (s packet); cbn; rewrite woken_app; cbn;
      by rewrite app_nil_r. }
  destruct (drains_cases packet Ht) as [Hn Ht']. clear Ht.
  rename Ht' into Ht.
  unfold packet_epilogue. rewrite Hn. cbn zeta.
  match goal with |- context [enqueue k (emit _ (match _ with Some n => _ ?x | None => _ end))] =>
    destruct (Hend x) as [-> ->]; clear Hend end.
  assert (Hdrain : forall w1,
    offlineSendQueue (shard w1) = offlineSendQueue (shard w) ->
    woken (trace w1) = woken (trace w) ->
    forall key,
      offlineSendQueue (shard (resolve_and_delete key (drain_offline_queue w1)))
        = offlineSendQueue (shard w)
      /\ woken (trace (resolve_and_delete key (drain_offline_queue w1)))
         = woken (trace w) ++ offlineSendQueue (shard w)).
  { intros w1 Hq Hw key.
    destruct (resolve_and_delete_keeps key (drain_offline_queue w1)) as [-> ->].
    destruct (drain_fold_keeps (offlineSendQueue (shard w1)) w1) as [Hq2 Hw2].
    unfold drain_offline_queue. cbn in Hq2, Hw2. by rewrite Hq2, Hw2, Hq, Hw. }
  destruct Ht as [Ht | Ht]; rewrite Ht.
  - rewrite bool_decide_eq_false_2 by done.
    rewrite bool_decide_eq_true_2 by done. by apply Hdrain.
  - rewrite bool_decide_eq_true_2 by done. apply Hdrain; [done|].
    cbn. rewrite woken_app. cbn. by rewrite app_nil_r.
Qed.

Lemma queue_grows_transport e w : queue_grows w (transport e w).
Proof.
  destruct e; try reflexivity; cbn; unfold set_readyState;
    case_match; try reflexivity; exists [], []; cbn; by rewrite app_nil_r.
Qed.

Lemma queue_grows_run es w w' : run es w = Some w' -> queue_grows w w'.
Proof.
  revert w. induction es as [|e es IH]; intros w; cbn.
  - intros [= ->]. reflexivity.
  - destruct (step e w) as [w1|] eqn:E; [|done]. intros Hr.
    etrans; [apply (queue_grows_transport e)|].
    etrans; [by apply (fr_step queue_grows)|]. by apply IH.
Qed.

(** C9 (amended): on RESUMED, and on READY when the payload [d] is not
    [null] ([drains]), every resolver stored in the offline queue is
    called, in the order of the queue, and the queue is left as it was; no
    step of the shard removes an entry, so the queue only grows and every
    resolver, once stored, is called again by each later drain.  A READY
    whose [d] is [null] throws before the drain: it calls and resumes
    nobody. *)
Theorem C9_offline_queue_never_shrinks :
  (forall packet k w,
     drains packet = true ->
     offlineSendQueue (shard (packet_epilogue packet k w))
       = offlineSendQueue (shard w)
     /\ woken (trace (packet_epilogue packet k w))
        = woken (trace w) ++ offlineSendQueue (shard w))
  /\ (forall packet now rnd k w,
        op packet = Dispatch ->
        drains packet = true ->
        offlineSendQueue (shard (handleDiscordPacket packet now rnd k w))
          = offlineSendQueue (shard w)
        /\ woken (trace (handleDiscordPacket packet now rnd k w))
           = woken (trace w) ++ offlineSendQueue (shard w))
  /\ (forall es w w',
        run es w = Some w' ->
        exists pre post,
          offlineSendQueue (shard w')
            = pre ++ offlineSendQueue (shard w) ++ post)
  /\ (forall es packet k w w' r,
        r ∈ offlineSendQueue (shard w) ->
        run es w = Some w' ->
        drains packet = true ->
        r ∈ woken (trace (packet_epilogue packet k w'))
        /\ r ∈ offlineSendQueue (shard (packet_epilogue packet k w')))
  /\ (forall packet k w,
        null_ready packet = true ->
        woken (trace (packet_epilogue packet k w)) = woken (trace w)
        /\ promises (packet_epilogue packet k w) = promises w
        /\ ready (packet_epilogue packet k w) = ready w
        /\ exists msg,
             last (trace (packet_epilogue packet k w))
             = Some (rejection msg k)).
Proof.
  split; [|split; [|split; [|split]]]; cycle 4.
  { intros packet k w Hn. unfold packet_epilogue. rewrite Hn.
    unfold reject. cbn. split; [|split; [done|split; [done|]]].
    - unfold woken. rewrite omap_app. cbn.
      assert (E : match rejection null_read k with
                  | Woken r => Some r
                  | _ => None
                  end = None).
      { induction k as [|f k IH]; [done|]. by destruct f. }
      by rewrite E, app_nil_r.
    - exists null_read. by rewrite last_snoc. }
  - apply packet_epilogue_drains.
  - intros packet now rnd k w Ho Ht. unfold handleDiscordPacket. rewrite Ho.
    by apply (packet_epilogue_drains packet k
                (set_heart (heart_after_packet now (heart (shard w))) w)).
  - intros es w w' Hr. exact (queue_grows_run es w w' Hr).
  - intros es packet k w w' r Hin Hr Ht.
    destruct (queue_grows_run es w w' Hr) as (pre & post & Hq).
    destruct (packet_epilogue_drains packet k w' Ht) as [-> ->].
    assert (r ∈ offlineSendQueue (shard w')).
    { rewrite Hq, !elem_of_app. auto. }
    split; [|done]. rewrite elem_of_app. by right.
Qed.

End Packets.

(** ** Connecting *)

Section Connecting.
Context `{GatewayConstants} `{Platform}.

Lemma socket_kept_set_readyState_other (i j : nat) (r : ReadyState) (w : World) :
  i <> j -> socket_kept i w (set_readyState j r w).
Proof.
  intros Hne sk Hsk. exists sk. unfold set_readyState.
  case_match; [|done]. cbn. by rewrite list_lookup_insert_ne.
Qed.

Lemma socket_kept_set_readyState_closed (i j : nat) (w : World) :
  socket_kept i w (set_readyState j CLOSED w).
Proof.
  destruct (decide (i = j)) as [<-|Hne];
    [|by apply socket_kept_set_readyState_other].
  intros sk Hsk. unfold set_readyState. rewrite Hsk. cbn.
  eexists. split; [apply list_lookup_insert_eq; by eapply lookup_lt_Some|].
  done.
Qed.

Lemma socket_kept_transport (i : nat) (e : Event) (w : World) :
  e <> SocketOpen i -> socket_kept i w (transport e w).
Proof.
  intros He. destruct e; cbn; try reflexivity.
  - apply socket_kept_set_readyState_other. congruence.
  - apply socket_kept_set_readyState_closed.
Qed.

Lemma step_socket_kept (i : nat) (e : Event) (w w' : World) :
  step e w = Some w' -> e <> SocketOpen i -> socket_kept i w w'.
Proof.
  intros Hs He. etrans; [by apply socket_kept_transport|].
  by apply (fr_step (socket_kept i)).
Qed.

(** The transport opens a socket only while it is connecting. *)
Lemma step_open_connecting (i : nat) (w w' : World) (sk : WebSocket) :
  step (SocketOpen i) w = Some w' -> sockets w !! i = Some sk ->
  readyState sk = CONNECTING.
Proof.
  cbn. intros Hs Hsk. rewrite Hsk in Hs.
  destruct (ready w); [|done]. by case_bool_decide.
Qed.

Lemma connect_prepared_keeps (w : World) :
  connection (shard (connect_prepared w)) = connection (shard w)
  /\ resumeGatewayUrl (shard (connect_prepared w)) = resumeGatewayUrl (shard w)
  /\ bool_decide (state (shard (connect_prepared w)) = Resuming)
     = bool_decide (state (shard w) = Resuming)
  /\ connect_address (connect_prepared w) = connect_address w
  /\ sockets (connect_prepared w) = sockets w
  /\ trace (connect_prepared w) = trace w ++ [Emitted connecting].
Proof.
  unfold connect_prepared, connect_address, in_handshake.
  repeat case_bool_decide; cbn; try done; try congruence.
  all: repeat case_bool_decide; try done; congruence.
Qed.

Lemma connect_prepared_frame (w : World) :
  socket (shard (connect_prepared w)) = socket (shard w)
  /\ ready (connect_prepared w) = ready w
  /\ promises (connect_prepared w) = promises w
  /\ timers (connect_prepared w) = timers w
  /\ delays (connect_prepared w) = delays w
  /\ heart (shard (connect_prepared w)) = heart (shard w)
  /\ sessionId (shard (connect_prepared w)) = sessionId (shard w)
  /\ previousSequenceNumber (shard (connect_prepared w))
     = previousSequenceNumber (shard w)
  /\ waiters_untouched w (connect_prepared w)
  /\ state (shard (connect_prepared w))
     = (if in_handshake w then state (shard w) else Connecting).
Proof.
  unfold connect_prepared, waiters_untouched. by destruct (in_handshake w).
Qed.

(** [connect()] either reaches [new WebSocket] and parks, or throws. *)
Lemma connect_cases (k : Stack) (w : World) :
  (connectable w = true
   /\ connect k w = connect_socket k (connect_prepared w))
  \/ (connectable w = false
      /\ exists msg, connect k w = reject msg k (connect_prepared w)).
Proof.
  destruct (connect_prepared_keeps w) as (Hc & Hu & Hr & Ha & _).
  unfold connect, connectable.
  cbv zeta. rewrite Hc, Hu, Hr, Ha.
  destruct (url_parses (url (connection (shard w)))); cbn [negb andb];
    [|right; eauto].
  destruct (urlIsPrimary (connection (shard w))
            && bool_decide (state (shard w) = Resuming)); cbn [negb andb orb].
  - destruct (url_parses (resumeGatewayUrl (shard w))); cbn [negb andb];
      [|right; eauto].
    destruct (websocket_accepts (connect_address w)); cbn [negb];
      [left | right]; eauto.
  - destruct (websocket_accepts (connect_address w)); cbn [negb];
      [left | right]; eauto.
Qed.

(** What [connect()] leaves alone whether or not it throws. *)
Lemma connect_frame (k : Stack) (w : World) :
  timers (connect k w) = timers w
  /\ delays (connect k w) = delays w
  /\ ready (connect k w) = ready w
  /\ heart (shard (connect k w)) = heart (shard w)
  /\ sessionId (shard (connect k w)) = sessionId (shard w)
  /\ previousSequenceNumber (shard (connect k w))
     = previousSequenceNumber (shard w)
  /\ waiters_untouched w (connect k w)
  /\ state (shard (connect k w))
     = (if in_handshake w then state (shard w) else Connecting)
  /\ promises (connect k w) = promises w.
Proof.
  destruct (connect_prepared_frame w)
    as (_ & Hr & Hp & Ht & Hd & Hh & Hse & Hps & (_ & Hre & Hq & Hb) & Hst).
  unfold waiters_untouched.
  destruct (connect_cases k w) as [[_ E] | [_ [msg E]]]; rewrite E;
    unfold connect_socket, reject, observe;
    cbn [timers delays ready promises shard with_sockets with_shard with_trace
         shard_socket heart sessionId previousSequenceNumber resolves
         offlineSendQueue bucket state];
    by rewrite Hr, Hp, Ht, Hd, Hh, Hse, Hps, Hre, Hq, Hb, Hst.
Qed.

Lemma connect_connectable (k : Stack) (w : World) :
  connectable w = true ->
  connect k w = connect_socket k (connect_prepared w).
Proof.
  intros Hc. destruct (connect_cases k w) as [[_ E] | [Hn _]]; [done|].
  congruence.
Qed.

(** *** A caller parked on a socket

    [waits_on c i] is kept by every step that is neither the open signal of
    socket [i] nor a new call under the name [c]: each method builds the
    continuations it parks from the one it was given. *)

Section Parked.
Context (c i : nat).

Lemma free_cons (f : Frame) (k : Stack) :
  f <> KReturn c -> KReturn c ∉ k -> KReturn c ∉ f :: k.
Proof. intros Hf Hk. apply not_elem_of_cons. split; [congruence | done]. Qed.

Lemma free_nil : KReturn c ∉ ([] : Stack).
Proof. apply not_elem_of_nil. Qed.

Lemma rejection_settles_not (msg : string) (k : Stack) :
  KReturn c ∉ k -> ~ settles c (rejection msg k).
Proof.
  induction k as [|f k IH]; intros Hk.
  - intros [? | [? ?]]; discriminate.
  - apply not_elem_of_cons in Hk as [Hf Hk].
    destruct f; try (by apply IH).
    intros [E | [m E]]; cbn in E; congruence.
Qed.

Create HintDb parked.

#[local] Hint Resolve free_nil rejection_settles_not : parked.
#[local] Hint Extern 1 (KReturn _ ∉ _ :: _) =>
  (apply free_cons; [discriminate |]) : parked.
#[local] Hint Extern 1 (~ settles _ _) =>
  (solve [intros [? | [? ?]]; discriminate]) : parked.

Lemma w_observe o w :
  ~ settles c o -> waits_on c i w -> waits_on c i (observe o w).
Proof.
  intros Hs [Hp Hu]. split; [exact Hp|].
  intros o' Hin. cbn in Hin. apply elem_of_app in Hin as [Hin | Hin].
  - by apply Hu.
  - apply list_elem_of_singleton in Hin. by subst.
Qed.

Lemma w_emit e w : waits_on c i w -> waits_on c i (emit e w).
Proof. intros. apply w_observe; auto with parked. Qed.

Lemma w_reject msg k w :
  KReturn c ∉ k -> waits_on c i w -> waits_on c i (reject msg k w).
Proof. intros. apply w_observe; auto with parked. Qed.

Lemma w_timers x w : waits_on c i w -> waits_on c i (with_timers x w).
Proof. intros [Hp Hu]. by split. Qed.

(** An update of the shard that leaves the waiters of the bucket alone. *)
Lemma w_shard f w :
  waiting (bucket (f (shard w))) = waiting (bucket (shard w)) ->
  waits_on c i w -> waits_on c i (with_shard f w).
Proof.
  intros E [(P1 & P2 & P3 & P4 & P5) Hu]. split; [|exact Hu].
  repeat split; try done. cbn. by rewrite E.
Qed.

Lemma w_enqueue k w :
  KReturn c ∉ k -> waits_on c i w -> waits_on c i (enqueue k w).
Proof.
  intros Hk [(P1 & P2 & P3 & P4 & P5) Hu]. destruct k as [|f k]; [done|].
  split; [|exact Hu]. repeat split; try done.
  intros k' Hin. cbn in Hin. apply elem_of_app in Hin as [Hin | Hin].
  - by apply P1.
  - apply list_elem_of_singleton in Hin. by subst.
Qed.

Lemma w_promise_new k w :
  KReturn c ∉ k -> waits_on c i w ->
  waits_on c i (with_promises (promises w ++ [Pending k]) w).
Proof.
  intros Hk [(P1 & P2 & P3 & P4 & P5) Hu]. split; [|exact Hu].
  repeat split; try done.
  intros k' Hin. cbn in Hin. apply elem_of_app in Hin as [Hin | Hin].
  - by apply P2.
  - apply list_elem_of_singleton in Hin. by simplify_eq.
Qed.

Lemma w_settle p w : waits_on c i w -> waits_on c i (settle p w).
Proof.
  intros Hw. unfold settle.
  destruct (promises w !! p) as [[k|]|] eqn:E; try done.
  destruct Hw as [(P1 & P2 & P3 & P4 & P5) Hu].
  apply w_enqueue.
  - apply P2. by eapply list_elem_of_lookup_2.
  - split; [|exact Hu]. repeat split; try done.
    intros k' Hin. cbn in Hin.
    apply list_elem_of_lookup in Hin as [j Hj].
    destruct (decide (j = p)) as [->|Hne].
    + rewrite list_lookup_insert_eq in Hj by (by eapply lookup_lt_Some).
      discriminate.
    + rewrite list_lookup_insert_ne in Hj by done.
      apply P2. by eapply list_elem_of_lookup_2.
Qed.

Lemma w_delay ms k w :
  KReturn c ∉ k -> waits_on c i w -> waits_on c i (delay ms k w).
Proof.
  intros Hk [(P1 & P2 & P3 & P4 & P5) Hu]. split; [|exact Hu].
  repeat split; try done.
  intros ms' k' Hin. cbn in Hin. apply elem_of_app in Hin as [Hin | Hin].
  - by eapply P3.
  - apply list_elem_of_singleton in Hin. by simplify_eq.
Qed.

Lemma w_delay_elapsed n ms k w :
  delays w !! n = Some (ms, Some k) -> waits_on c i w ->
  (KReturn c ∉ k)
  /\ waits_on c i (with_delays (<[n := (ms, None)]> (delays w)) w).
Proof.
  intros Hn [(P1 & P2 & P3 & P4 & P5) Hu]. split.
  - eapply P3. by eapply list_elem_of_lookup_2.
  - split; [|exact Hu]. repeat split; try done.
    intros ms' k' Hin. cbn in Hin.
    apply list_elem_of_lookup in Hin as [j Hj].
    destruct (decide (j = n)) as [->|Hne].
    + rewrite list_lookup_insert_eq in Hj by (by eapply lookup_lt_Some).
      discriminate.
    + rewrite list_lookup_insert_ne in Hj by done.
      eapply P3. by eapply list_elem_of_lookup_2.
Qed.

(** A new bucket whose waiters are waiters of the old one. *)
Lemma w_bucket b w :
  (forall x, x ∈ waiting b -> x ∈ waiting (bucket (shard w))) ->
  waits_on c i w -> waits_on c i (set_bucket b w).
Proof.
  intros Hb [(P1 & P2 & P3 & P4 & P5) Hu]. split; [|exact Hu].
  repeat split; try done. intros n k Hin. cbn in Hin. eapply P4, Hb, Hin.
Qed.

Lemma w_bucket_wait b n k (hp : bool) w :
  KReturn c ∉ k ->
  waiting b
  = (if hp then (n, k) :: waiting (bucket (shard w))
     else waiting (bucket (shard w)) ++ [(n, k)]) ->
  waits_on c i w -> waits_on c i (set_bucket b w).
Proof.
  intros Hk E [(P1 & P2 & P3 & P4 & P5) Hu]. split; [|exact Hu].
  repeat split; try done. intros n' k' Hin. cbn in Hin. rewrite E in Hin.
  destruct hp.
  - apply elem_of_cons in Hin as [Hin | Hin]; [by simplify_eq | by eapply P4].
  - apply elem_of_app in Hin as [Hin | Hin]; [by eapply P4|].
    apply list_elem_of_singleton in Hin. by simplify_eq.
Qed.

(** A socket is replaced by one with the same continuation parked, or with
    none. *)
Lemma w_socket_update j sk sk' w :
  sockets w !! j = Some sk ->
  onopen sk' = onopen sk \/ onopen sk' = None ->
  waits_on c i w -> waits_on c i (with_sockets (<[j := sk']> (sockets w)) w).
Proof.
  intros Hj Ho [(P1 & P2 & P3 & P4 & P5) Hu]. split; [|exact Hu].
  repeat split; try done.
  intros j' s' k' Hne Hl Hk. cbn in Hl.
  destruct (decide (j' = j)) as [->|Hd].
  - rewrite list_lookup_insert_eq in Hl by (by eapply lookup_lt_Some).
    simplify_eq. destruct Ho as [Ho | Ho]; [|congruence].
    eapply P5; [done | exact Hj | congruence].
  - rewrite list_lookup_insert_ne in Hl by done. by eapply P5.
Qed.

(** A new socket, with a continuation that does not return to [c]. *)
Lemma w_socket_new sk w :
  (forall k, onopen sk = Some k -> KReturn c ∉ k) ->
  waits_on c i w -> waits_on c i (with_sockets (sockets w ++ [sk]) w).
Proof.
  intros Ho [(P1 & P2 & P3 & P4 & P5) Hu]. split; [|exact Hu].
  repeat split; try done.
  intros j s' k' Hne Hl Hk. cbn in Hl.
  apply lookup_app_Some in Hl as [Hl | [_ Hl]]; [by eapply P5|].
  apply list_lookup_singleton_Some in Hl as [_ <-]. by apply Ho.
Qed.

(** A new socket that becomes socket [i]: whatever is parked on it. *)
Lemma w_socket_here sk w :
  i = length (sockets w) ->
  waits_on c i w -> waits_on c i (with_sockets (sockets w ++ [sk]) w).
Proof.
  intros Hi [(P1 & P2 & P3 & P4 & P5) Hu]. split; [|exact Hu].
  repeat split; try done.
  intros j s' k' Hne Hl Hk. cbn in Hl.
  apply lookup_app_Some in Hl as [Hl | [Hge Hl]]; [by eapply P5|].
  apply list_lookup_singleton_Some in Hl as [Hj _]. lia.
Qed.

#[local] Hint Resolve w_observe w_emit w_reject w_timers w_enqueue
  w_promise_new w_settle w_delay : parked.
#[local] Hint Extern 2 (waits_on _ _ (with_shard _ _)) =>
  (apply w_shard; [reflexivity |]) : parked.
#[local] Hint Extern 2 (waits_on _ _ (set_state _ _)) =>
  (apply w_shard; [reflexivity |]) : parked.
#[local] Hint Extern 2 (waits_on _ _ (set_heart _ _)) =>
  (apply w_shard; [reflexivity |]) : parked.
#[local] Hint Extern 2 (waits_on _ _ (set_resolves _ _)) =>
  (apply w_shard; [reflexivity |]) : parked.
#[local] Hint Extern 3 (waits_on _ _ (set_bucket _ _)) =>
  (apply w_bucket; [intros ? ?; assumption |]) : parked.

Ltac parked :=
  repeat first [ solve [auto 40 with parked] | case_match ].

Lemma w_call_resolver r w : waits_on c i w -> waits_on c i (call_resolver r w).
Proof. intros; unfold call_resolver; parked. Qed.
#[local] Hint Resolve w_call_resolver : parked.

Lemma w_resolve_and_delete key w :
  waits_on c i w -> waits_on c i (resolve_and_delete key w).
Proof. intros; unfold resolve_and_delete; parked. Qed.
#[local] Hint Resolve w_resolve_and_delete : parked.

Lemma w_socket_send m w : waits_on c i w -> waits_on c i (socket_send m w).
Proof. intros; unfold socket_send; parked. Qed.
#[local] Hint Resolve w_socket_send : parked.

Lemma w_close code reason w :
  waits_on c i w -> waits_on c i (close code reason w).
Proof.
  intros Hw; unfold close; repeat case_match; try done.
  eapply w_socket_update; [eassumption | by left | done].
Qed.
#[local] Hint Resolve w_close : parked.

Lemma w_set_readyState j r w :
  waits_on c i w -> waits_on c i (set_readyState j r w).
Proof.
  intros Hw; unfold set_readyState. destruct (sockets w !! j) eqn:E; [|done].
  eapply w_socket_update; [eassumption | | done].
  cbn. case_bool_decide; auto.
Qed.
#[local] Hint Resolve w_set_readyState : parked.

Lemma w_checkOffline hp k w :
  KReturn c ∉ k -> waits_on c i w -> waits_on c i (checkOffline hp k w).
Proof.
  intros; unfold checkOffline, new_promise.
  destruct (negb (isOpen w)), hp; cbn; parked.
Qed.
#[local] Hint Resolve w_checkOffline : parked.

Lemma w_bucket_acquire n hp k w :
  KReturn c ∉ k -> waits_on c i w -> waits_on c i (bucket_acquire n hp k w).
Proof.
  intros Hk Hw; unfold bucket_acquire. case_match; [parked|].
  by eapply (w_bucket_wait _ n k hp).
Qed.
#[local] Hint Resolve w_bucket_acquire : parked.

Lemma bucket_serve_sub tok ws tok' rest woken :
  bucket_serve tok ws = (tok', rest, woken) ->
  (forall x, x ∈ rest -> x ∈ ws)
  /\ (forall k, k ∈ woken -> exists n, (n, k) ∈ ws).
Proof.
  revert tok tok' rest woken.
  induction ws as [|[n k] ws IH]; intros tok tok' rest woken; cbn.
  - intros [= <- <- <-]. split; intros ? Hin; by apply elem_of_nil in Hin.
  - destruct (n <=? tok).
    + destruct (bucket_serve (tok - n) ws) as [[t1 r1] w1] eqn:E.
      intros [= <- <- <-]. destruct (IH _ _ _ _ E) as [H1 H2].
      split.
      * intros x Hx. apply elem_of_cons. right. by apply H1.
      * intros k' Hk'. apply elem_of_cons in Hk' as [-> | Hk'].
        -- exists n. apply elem_of_cons. by left.
        -- destruct (H2 k' Hk') as [n' Hn']. exists n'.
           apply elem_of_cons. by right.
    + intros [= <- <- <-]. split; [done|].
      intros ? Hin; by apply elem_of_nil in Hin.
Qed.

Lemma w_foldl_enqueue ks w :
  (forall k, k ∈ ks -> KReturn c ∉ k) ->
  waits_on c i w -> waits_on c i (foldl (fun w k => enqueue k w) w ks).
Proof.
  revert w; induction ks as [|k ks IH]; cbn; intros w Hks Hw; [done|].
  apply IH.
  - intros k' Hk'. apply Hks. apply elem_of_cons. by right.
  - apply w_enqueue; [|done]. apply Hks. apply elem_of_cons. by left.
Qed.

Lemma w_bucket_refill w : waits_on c i w -> waits_on c i (bucket_refill w).
Proof.
  intros Hw; unfold bucket_refill.
  destruct (bucket_serve _ _) as [[tok rest] woken] eqn:E.
  destruct (bucket_serve_sub _ _ _ _ _ E) as [Hr Hk].
  apply w_foldl_enqueue.
  - intros k Hin. destruct (Hk k Hin) as [n Hn].
    destruct Hw as [(_ & _ & _ & P4 & _) _]. by eapply P4.
  - by apply w_bucket.
Qed.
#[local] Hint Resolve w_bucket_refill : parked.

Lemma w_send m hp k w :
  KReturn c ∉ k -> waits_on c i w -> waits_on c i (send m hp k w).
Proof. intros; unfold send; parked. Qed.

Lemma w_send_online m hp k w :
  KReturn c ∉ k -> waits_on c i w -> waits_on c i (send_online m hp k w).
Proof. intros; unfold send_online; parked. Qed.

Lemma w_send_token m hp k w :
  KReturn c ∉ k -> waits_on c i w -> waits_on c i (send_token m hp k w).
Proof. intros; unfold send_token; parked. Qed.

Lemma w_send_transmit m k w :
  KReturn c ∉ k -> waits_on c i w -> waits_on c i (send_transmit m k w).
Proof. intros; unfold send_transmit; parked. Qed.
#[local] Hint Resolve w_send w_send_online w_send_token w_send_transmit
  : parked.

Lemma w_connect_prepared w :
  waits_on c i w -> waits_on c i (connect_prepared w).
Proof. intros; unfold connect_prepared; parked. Qed.
#[local] Hint Resolve w_connect_prepared : parked.

Lemma w_connect_socket k w :
  KReturn c ∉ k \/ i = length (sockets w) ->
  waits_on c i w -> waits_on c i (connect_socket k w).
Proof.
  intros Hk Hw; unfold connect_socket.
  assert (Hs : waits_on c i
                 (with_shard (shard_socket (Some (length (sockets w)))) w))
    by parked.
  destruct Hk as [Hk | Hi].
  - apply (w_socket_new _ (with_shard _ w)); [|done].
    cbn. by intros k' [= <-].
  - by apply (w_socket_here _ (with_shard _ w)).
Qed.

Lemma w_connect k w :
  KReturn c ∉ k -> waits_on c i w -> waits_on c i (connect k w).
Proof.
  intros Hk Hw.
  destruct (connect_cases k w) as [[_ ->] | [_ [msg ->]]].
  - apply w_connect_socket; [by left | parked].
  - parked.
Qed.
#[local] Hint Resolve w_connect : parked.

Lemma w_socket_onopen k w :
  KReturn c ∉ k -> waits_on c i w -> waits_on c i (socket_onopen k w).
Proof. intros; unfold socket_onopen; parked. Qed.

Lemma w_requestIdentify k w :
  KReturn c ∉ k -> waits_on c i w -> waits_on c i (requestIdentify k w).
Proof. intros; unfold requestIdentify; parked. Qed.
#[local] Hint Resolve w_socket_onopen w_requestIdentify : parked.

Lemma w_identify_presence p k w :
  KReturn c ∉ k -> waits_on c i w -> waits_on c i (identify_presence p k w).
Proof. intros; unfold identify_presence, new_promise; parked. Qed.

Lemma w_identify_permitted k w :
  KReturn c ∉ k -> waits_on c i w -> waits_on c i (identify_permitted k w).
Proof. intros; unfold identify_permitted; parked. Qed.

Lemma w_identify_connected k w :
  KReturn c ∉ k -> waits_on c i w -> waits_on c i (identify_connected k w).
Proof. intros; unfold identify_connected; parked. Qed.
#[local] Hint Resolve w_identify_presence w_identify_permitted
  w_identify_connected : parked.

Lemma w_identify k w :
  KReturn c ∉ k -> waits_on c i w -> waits_on c i (identify k w).
Proof. intros; unfold identify; parked. Qed.
#[local] Hint Resolve w_identify : parked.

Lemma w_resume_connected k w :
  KReturn c ∉ k -> waits_on c i w -> waits_on c i (resume_connected k w).
Proof. intros; unfold resume_connected, new_promise; parked. Qed.

Lemma w_resume k w :
  KReturn c ∉ k -> waits_on c i w -> waits_on c i (resume k w).
Proof. intros; unfold resume; parked. Qed.

Lemma w_shutdown k w :
  KReturn c ∉ k -> waits_on c i w -> waits_on c i (shutdown k w).
Proof. intros; unfold shutdown; parked. Qed.
#[local] Hint Resolve w_resume_connected w_resume w_shutdown : parked.

Lemma w_drain_fold q w :
  waits_on c i w ->
  waits_on c i (foldl (fun w r => call_resolver r (observe (Woken r) w)) w q).
Proof. revert w; induction q; cbn; intros; parked. Qed.

Lemma w_drain_offline_queue w :
  waits_on c i w -> waits_on c i (drain_offline_queue w).
Proof. intros; by apply w_drain_fold. Qed.
#[local] Hint Resolve w_drain_offline_queue : parked.

Lemma w_packet_epilogue packet k w :
  KReturn c ∉ k -> waits_on c i w -> waits_on c i (packet_epilogue packet k w).
Proof. intros; unfold packet_epilogue; parked. Qed.
#[local] Hint Resolve w_packet_epilogue : parked.

Lemma w_invalidSession_delayed packet k w :
  KReturn c ∉ k -> waits_on c i w ->
  waits_on c i (invalidSession_delayed packet k w).
Proof. intros; unfold invalidSession_delayed; parked. Qed.

Lemma w_clear_timer n w : waits_on c i w -> waits_on c i (clear_timer n w).
Proof. intros; unfold clear_timer; parked. Qed.
#[local] Hint Resolve w_invalidSession_delayed w_clear_timer : parked.

Lemma w_stopHeartbeating w :
  waits_on c i w -> waits_on c i (stopHeartbeating w).
Proof. intros; unfold stopHeartbeating; parked. Qed.
#[local] Hint Resolve w_stopHeartbeating : parked.

Lemma w_handleClose code reason k w :
  KReturn c ∉ k -> waits_on c i w ->
  waits_on c i (outcome_world (handleClose code reason k w)).
Proof. intros; unfold handleClose; repeat case_match; cbn; parked. Qed.

Lemma w_requestMembers g o now k w :
  KReturn c ∉ k -> waits_on c i w ->
  waits_on c i (outcome_world (requestMembers g o now k w)).
Proof.
  intros; unfold requestMembers, new_promise.
  repeat case_match; cbn; parked.
Qed.

Lemma w_commands k w :
  KReturn c ∉ k -> waits_on c i w ->
  (forall data, waits_on c i (editBotStatus data k w))
  /\ (forall g ch o, waits_on c i (joinVoiceChannel g ch o k w))
  /\ (forall g, waits_on c i (leaveVoiceChannel g k w)).
Proof.
  intros; unfold editBotStatus, editShardStatus, joinVoiceChannel,
    leaveVoiceChannel; split; [|split]; intros; parked.
Qed.

Lemma w_startHeartbeating itv rnd w :
  waits_on c i w -> waits_on c i (startHeartbeating itv rnd w).
Proof. intros; unfold startHeartbeating; parked. Qed.
#[local] Hint Resolve w_startHeartbeating : parked.

Lemma w_jitter_timeout now w :
  waits_on c i w -> waits_on c i (jitter_timeout now w).
Proof. intros; unfold jitter_timeout; parked. Qed.

Lemma w_steady_interval now k w :
  KReturn c ∉ k -> waits_on c i w -> waits_on c i (steady_interval now k w).
Proof. intros; unfold steady_interval; parked. Qed.
#[local] Hint Resolve w_jitter_timeout w_steady_interval : parked.

Lemma w_handleDiscordPacket packet now rnd k w :
  KReturn c ∉ k -> waits_on c i w ->
  waits_on c i (handleDiscordPacket packet now rnd k w).
Proof. intros; unfold handleDiscordPacket; parked. Qed.
#[local] Hint Resolve w_handleDiscordPacket : parked.

Lemma w_handleMessage data now rnd k w :
  KReturn c ∉ k -> waits_on c i w ->
  waits_on c i (handleMessage data now rnd k w).
Proof. intros; unfold handleMessage; parked. Qed.

Lemma w_run_frame f k w :
  KReturn c ∉ f :: k -> waits_on c i w -> waits_on c i (run_frame f k w).
Proof.
  intros Hfk Hw. apply not_elem_of_cons in Hfk as [Hf Hk].
  unfold run_frame; destruct f; parked.
  apply w_enqueue; [done|]. apply w_observe; [|done].
  intros [E | [m E]]; congruence.
Qed.

(** One step. *)
Lemma w_step e w w' :
  step e w = Some w' -> e <> SocketOpen i -> call_of e <> Some c ->
  waits_on c i w -> waits_on c i w'.
Proof.
  intros Hs He Hc Hw.
  assert (Hret : forall c', Some c' <> Some c -> KReturn c ∉ [KReturn c']).
  { intros c' Hne. apply not_elem_of_cons. split; [congruence|].
    apply not_elem_of_nil. }
  destruct e; cbn [step call_of] in Hs, Hc.
  - destruct (ready w), (sockets w !! i0) as [sk|] eqn:Hi; try done.
    case_bool_decide; [|done]. simplify_eq.
    destruct (onopen sk) as [k|] eqn:Ho; [|parked].
    apply w_socket_onopen; [|parked].
    destruct Hw as [(_ & _ & _ & _ & P5) _].
    eapply (P5 i0); [congruence | exact Hi | exact Ho].
  - repeat case_match; simplify_eq; parked.
  - destruct (ready w), (sockets w !! i0); try done.
    case_bool_decide; [done|]. simplify_eq.
    pose proof (w_handleClose code reason [] (set_readyState i0 CLOSED w)
                  free_nil ltac:(parked)) as Hh.
    destruct (handleClose _ _ _ _); cbn in Hh; parked.
  - repeat case_match; simplify_eq.
    apply w_handleMessage; [apply free_nil | done].
  - repeat case_match; simplify_eq; parked.
  - destruct (ready w), (delays w !! n) as [[ms [k|]]|] eqn:Hn; try done.
    simplify_eq. destruct (w_delay_elapsed n ms k w Hn Hw) as [Hk Hd].
    by apply w_enqueue.
  - repeat case_match; simplify_eq; parked.
  - destruct (ready w) as [|[|f k] rest] eqn:Hr; simplify_eq.
    + destruct Hw as [(P1 & P2 & P3 & P4 & P5) Hu]. split; [|exact Hu].
      repeat split; try done. intros k Hin. apply P1. rewrite Hr.
      apply elem_of_cons. by right.
    + apply w_run_frame.
      * destruct Hw as [(P1 & _) _]. apply P1. rewrite Hr.
        apply elem_of_cons. by left.
      * destruct Hw as [(P1 & P2 & P3 & P4 & P5) Hu]. split; [|exact Hu].
        repeat split; try done. intros k' Hin. apply P1. rewrite Hr.
        apply elem_of_cons. by right.
  - simplify_eq. apply w_connect; auto.
  - simplify_eq. apply w_identify; auto.
  - simplify_eq. apply w_resume; auto.
  - simplify_eq. apply w_shutdown; auto.
  - simplify_eq. parked.
  - simplify_eq. apply w_send; auto.
  - simplify_eq. by apply (w_commands [KReturn c0] w); auto.
  - simplify_eq. by apply (w_commands [KReturn c0] w); auto.
  - simplify_eq. by apply (w_commands [KReturn c0] w); auto.
  - simplify_eq.
    pose proof (w_requestMembers guildId options now [KReturn c0] w
                  (Hret _ Hc) Hw) as Hh.
    destruct (requestMembers _ _ _ _ _); cbn in Hh; [done|].
    apply w_observe; [|done]. intros [E | [m E]]; congruence.
Qed.

(** Runs without the open signal of socket [i] and without a call under
    the name [c]. *)
Lemma w_run es w w' :
  run es w = Some w' ->
  Forall (fun e => e <> SocketOpen i /\ call_of e <> Some c) es ->
  waits_on c i w -> waits_on c i w'.
Proof.
  revert w. induction es as [|e es IH]; intros w; cbn.
  - by intros [= <-].
  - destruct (step e w) as [w1|] eqn:E; [|done].
    intros Hr Hes Hw. apply Forall_cons in Hes as [[He Hc] Hes].
    apply (IH w1 Hr Hes). by eapply w_step.
Qed.

End Parked.

(** After a close, the socket cannot open any more: no run needs to be
    kept from its open signal. *)
Lemma waits_on_closed (c i : nat) (es : list Event) (w w' : World)
  (sk : WebSocket) :
  run es w = Some w' ->
  sockets w !! i = Some sk -> readyState sk = CLOSED ->
  Forall (fun e => call_of e <> Some c) es ->
  waits_on c i w -> waits_on c i w'.
Proof.
  revert w sk. induction es as [|e es IH]; intros w sk; cbn.
  - by intros [= <-].
  - destruct (step e w) as [w1|] eqn:E; [|done].
    intros Hr Hsk Hcl Hes Hw. apply Forall_cons in Hes as [Hc Hes].
    assert (He : e <> SocketOpen i).
    { intros ->. pose proof (step_open_connecting i w w1 sk E Hsk).
      congruence. }
    destruct (step_socket_kept i e w w1 E He sk Hsk) as (sk1 & Hsk1 & _ & Hc1).
    apply (IH w1 sk1 Hr Hsk1 (Hc1 Hcl) Hes). by eapply w_step.
Qed.

(** C10 (amended): [connect()] rejects, with no socket made and nobody
    parked, when one of its constructors throws.  Otherwise it parks its
    caller on the [onopen] of the socket it creates and resumes nobody:
    the caller then waits on that socket and nowhere else.  No step other
    than the open signal of that socket, an error or close signal
    included, takes the caller from there or settles the call; and once the
    socket is closed with the caller still parked, the caller stays parked
    and the call unsettled in every later state: the promise of
    [connect()], and with it the [identify()] or [resume()] awaiting it,
    never settles. *)
Theorem C10_connect_only_resolved_by_open :
  (forall k w,
     connectable w = true ->
     sockets (connect k w)
       = sockets w
         ++ [Build_WebSocket CONNECTING (connect_address w) (Some k) None]
     /\ ready (connect k w) = ready w
     /\ promises (connect k w) = promises w
     /\ trace (connect k w) = trace w ++ [Emitted connecting])
  /\ (forall k w,
        connectable w = false ->
        sockets (connect k w) = sockets w
        /\ socket (shard (connect k w)) = socket (shard w)
        /\ ready (connect k w) = ready w
        /\ promises (connect k w) = promises w
        /\ exists msg,
             trace (connect k w)
             = trace w ++ [Emitted connecting; rejection msg k])
  /\ (forall e i w w' sk k,
        step e w = Some w' -> e <> SocketOpen i ->
        sockets w !! i = Some sk -> onopen sk = Some k ->
        exists sk', sockets w' !! i = Some sk' /\ onopen sk' = Some k)
  /\ (forall es i w w' sk k,
        run es w = Some w' ->
        sockets w !! i = Some sk -> readyState sk = CLOSED ->
        onopen sk = Some k ->
        exists sk',
          sockets w' !! i = Some sk' /\ readyState sk' = CLOSED
          /\ onopen sk' = Some k)
  /\ (forall i w w' sk k,
        step (SocketOpen i) w = Some w' ->
        sockets w !! i = Some sk -> onopen sk = Some k -> k <> [] ->
        ready w' = [k]
        /\ exists sk', sockets w' !! i = Some sk' /\ onopen sk' = None)
  /\ (forall c k w,
        connectable w = true ->
        waits_on c (length (sockets w)) w ->
        waits_on c (length (sockets w)) (connect k w))
  /\ (forall c i es w w',
        run es w = Some w' ->
        Forall (fun e => e <> SocketOpen i /\ call_of e <> Some c) es ->
        waits_on c i w ->
        waits_on c i w')
  /\ (forall c i es w w' sk,
        run es w = Some w' ->
        sockets w !! i = Some sk -> readyState sk = CLOSED ->
        Forall (fun e => call_of e <> Some c) es ->
        waits_on c i w ->
        waits_on c i w').
Proof.
  split; [|split; [|split; [|split; [|split; [|split; [|split]]]]]].
  - intros k w Hc. rewrite (connect_connectable k w Hc).
    destruct (connect_prepared_keeps w) as (_ & _ & _ & Ha & Hs & Ht).
    destruct (connect_prepared_frame w) as (_ & Hr & Hp & _).
    unfold connect_socket.
    cbn [sockets ready promises trace with_sockets with_shard].
    by rewrite Ha, Hs, Ht, Hr, Hp.
  - intros k w Hc.
    destruct (connect_cases k w) as [[Hy _] | [_ [msg E]]]; [congruence|].
    rewrite E. destruct (connect_prepared_keeps w) as (_ & _ & _ & _ & Hs & Ht).
    destruct (connect_prepared_frame w) as (Hso & Hr & Hp & _).
    unfold reject, observe.
    cbn [sockets ready promises trace shard with_trace].
    rewrite Hs, Hso, Hr, Hp, Ht, <- app_assoc.
    repeat split; try done. by exists msg.
  - intros e i w w' sk k Hs He Hsk Ho.
    destruct (step_socket_kept i e w w' Hs He sk Hsk) as (sk' & ? & Ho' & _).
    exists sk'. split; [done | congruence].
  - intros es. induction es as [|e es IH]; intros i w w' sk k; cbn.
    + intros [= <-] Hsk Hc Ho. by exists sk.
    + destruct (step e w) as [w1|] eqn:E; [|done]. intros Hr Hsk Hc Ho.
      assert (He : e <> SocketOpen i).
      { intros ->. pose proof (step_open_connecting i w w1 sk E Hsk). congruence. }
      destruct (step_socket_kept i e w w1 E He sk Hsk) as (sk1 & Hsk1 & Ho1 & Hc1).
      apply (IH i w1 w' sk1 k Hr Hsk1); [auto | congruence].
  - intros i w w' sk k Hs Hsk Ho Hk. cbn in Hs. rewrite Hsk, Ho in Hs.
    destruct (ready w) eqn:Hr; [|done]. case_bool_decide; [|done].
    injection Hs as <-. unfold socket_onopen, set_readyState. rewrite Hsk.
    destruct k; [done|]. split.
    + case_match; cbn; by rewrite Hr.
    + exists (Build_WebSocket OPEN (address sk) None (closeCall sk)).
      split; [|reflexivity]. case_match; cbn;
        apply list_lookup_insert_eq; by eapply lookup_lt_Some.
  - intros c k w Hc Hw. rewrite (connect_connectable k w Hc).
    destruct (connect_prepared_keeps w) as (_ & _ & _ & _ & Hs & _).
    apply w_connect_socket; [right; by rewrite Hs|].
    by apply w_connect_prepared.
  - intros c i es w w' Hr Hes Hw. by eapply w_run.
  - intros c i es w w' sk Hr Hsk Hcl Hes Hw. by eapply waits_on_closed.
Qed.

End Connecting.

(** ** Resuming *)

Section Resuming.
Context `{GatewayConstants} `{Platform}.

#[local] Arguments isOpen : simpl never.

Lemma close_keeps (code : Z) (reason : string) (w : World) :
  shard (close code reason w) = shard w
  /\ length (sockets (close code reason w)) = length (sockets w)
  /\ ready (close code reason w) = ready w
  /\ promises (close code reason w) = promises w
  /\ trace (close code reason w) = trace w.
Proof.
  unfold close. repeat case_match; cbn; rewrite ?length_insert; done.
Qed.

Lemma close_not_open (code : Z) (reason : string) (w : World) :
  isOpen (close code reason w) = false.
Proof.
  assert (Hno : forall w1, socket_readyState w1 <> Some OPEN -> isOpen w1 = false).
  { intros w1 Hn. by apply bool_decide_eq_false_2. }
  unfold close.
  destruct (socket (shard w)) as [i|] eqn:Hi.
  - destruct (sockets w !! i) as [sk|] eqn:Hsk.
    + case_bool_decide as Ho; apply Hno; unfold socket_readyState; cbn;
        rewrite Hi; cbn.
      * rewrite list_lookup_insert_eq by (by eapply lookup_lt_Some). done.
      * rewrite Hsk. cbn. congruence.
    + apply Hno. unfold socket_readyState. rewrite Hi. cbn. by rewrite Hsk.
  - apply Hno. unfold socket_readyState. by rewrite Hi.
Qed.

(** The run of a list of events, one step at a time. *)
Lemma run_cons (e : Event) (es : list Event) (w w1 w' : World) :
  step e w = Some w1 -> run es w1 = Some w' -> run (e :: es) w = Some w'.
Proof. intros Hs Hr. cbn. by rewrite Hs. Qed.

(** What [connect()] meets depends on the shard only. *)
Lemma connectable_shard (w w' : World) :
  shard w' = shard w ->
  connectable w' = connectable w /\ connect_address w' = connect_address w.
Proof. intros E. unfold connectable, connect_address. by rewrite E. Qed.

Lemma can_resume_shard (w w' : World) :
  shard w' = shard w -> connectable (set_state Resuming w') = can_resume w.
Proof.
  intros E. unfold can_resume. apply connectable_shard. cbn. by rewrite E.
Qed.

Lemma can_identify_shard (w w' : World) :
  shard w' = shard w ->
  connectable (emit identifying (set_state Identifying w')) = can_identify w.
Proof.
  intros E. unfold can_identify. apply connectable_shard. cbn. by rewrite E.
Qed.

(** Whether [connect()] throws depends on the gateway configuration, the
    state and the resume url only. *)
Lemma can_connect_fields (w w' : World) :
  connection (shard w') = connection (shard w) ->
  resumeGatewayUrl (shard w') = resumeGatewayUrl (shard w) ->
  can_identify w' = can_identify w /\ can_resume w' = can_resume w.
Proof.
  intros E1 E2.
  unfold can_identify, can_resume, connectable, connect_address. cbn.
  by rewrite E1, E2.
Qed.

(** [resume()] with a session, up to [connect()]. *)
Lemma resume_connects (k : Stack) (w : World) :
  truthy_string (sessionId (shard w)) = true ->
  resume k w
  = connect (KResumeConnected :: k)
      (set_state Resuming
         (close ResumeClosingOldConnection
            "Reconnecting the shard, closing old connection." w)).
Proof.
  intros Hs. unfold resume.
  assert (Hw1 : (if isOpen w
                 then close ResumeClosingOldConnection
                        "Reconnecting the shard, closing old connection." w
                 else w)
                = close ResumeClosingOldConnection
                    "Reconnecting the shard, closing old connection." w).
  { destruct (isOpen w) eqn:Ho; [done|]. unfold close, isOpen in *.
    apply bool_decide_eq_false in Ho. unfold socket_readyState in Ho.
    destruct (socket (shard w)) as [i|]; [|done]. cbn in Ho.
    destruct (sockets w !! i) as [sk|]; [|done]. cbn in Ho.
    rewrite bool_decide_eq_false_2; [done | congruence]. }
  rewrite Hw1.
  destruct (close_keeps ResumeClosingOldConnection
    "Reconnecting the shard, closing old connection." w) as (Hsh & _).
  by rewrite Hsh, Hs.
Qed.


(** [resume()] with a session whose [connect()] throws: the state is set,
    the call is rejected, and there is no new socket. *)
Lemma resume_rejects (k : Stack) (w : World) :
  truthy_string (sessionId (shard w)) = true ->
  can_resume w = false ->
  exists msg,
    shard (resume k w) = shard_state Resuming (shard w)
    /\ sockets (resume k w)
       = sockets (close ResumeClosingOldConnection
                    "Reconnecting the shard, closing old connection." w)
    /\ ready (resume k w) = ready w
    /\ promises (resume k w) = promises w
    /\ trace (resume k w)
       = trace w ++ [Emitted connecting; rejection msg (KResumeConnected :: k)].
Proof.
  intros Hs Hc. rewrite (resume_connects k w Hs).
  destruct (close_keeps ResumeClosingOldConnection
    "Reconnecting the shard, closing old connection." w)
    as (Hsh & Hlen & Hr & Hp & Ht).
  set (w1 := close _ _ w) in *. clearbody w1.
  destruct (connect_cases (KResumeConnected :: k) (set_state Resuming w1))
    as [[Hy _] | [_ [msg E]]].
  { rewrite (can_resume_shard w w1) in Hy by done. congruence. }
  rewrite E. exists msg. unfold reject, connect_prepared.
  assert (Hh : in_handshake (set_state Resuming w1) = true).
  { unfold in_handshake. cbn. by rewrite orb_true_r. }
  rewrite Hh. cbn. rewrite Hsh, Hr, Hp, Ht, <- app_assoc. done.
Qed.






(** [identify()] on a shard that is not open goes straight to
    [connect()]. *)
Lemma identify_not_open (k : Stack) (w : World) :
  isOpen w = false ->
  identify k w
  = connect (KIdentifyConnected :: k)
      (emit identifying (set_state Identifying w)).
Proof.
  intros Ho. unfold identify. rewrite Ho.
  rewrite (isOpen_same w) by reflexivity. by rewrite Ho.
Qed.

(** [resume()] without a session is [identify()] on a socket that is not
    open. *)
Lemma resume_without_session (k : Stack) (w : World) :
  truthy_string (sessionId (shard w)) = false ->
  resume k w
    = identify k
        (if isOpen w then
           close ResumeClosingOldConnection
             "Reconnecting the shard, closing old connection." w
         else w)
  /\ state (shard (resume k w)) = Identifying
  /\ (forall i m,
        Transmitted i m ∈ trace (resume k w) -> Transmitted i m ∈ trace w)
  /\ (can_identify w = true ->
      (exists addr before,
         sockets (resume k w)
           = before ++ [Build_WebSocket CONNECTING addr
                          (Some (KIdentifyConnected :: k)) None])
      /\ trace (resume k w)
         = trace w ++ [Emitted identifying; Emitted connecting]).
Proof.
  intros Hs. unfold resume.
  set (w1 := if isOpen w then close _ _ w else w).
  assert (Hw1 : shard w1 = shard w /\ trace w1 = trace w /\ isOpen w1 = false).
  { subst w1. destruct (isOpen w) eqn:Ho; [|done].
    destruct (close_keeps ResumeClosingOldConnection
      "Reconnecting the shard, closing old connection." w) as (? & _ & _ & _ & ?).
    by rewrite close_not_open. }
  destruct Hw1 as (Hsh & Ht & Ho). clearbody w1.
  rewrite Hsh, Hs. cbn [negb]. split; [done|].
  rewrite (identify_not_open k w1 Ho).
  destruct (connect_cases (KIdentifyConnected :: k)
              (emit identifying (set_state Identifying w1)))
    as [[Hy E] | [Hn [msg E]]]; rewrite E;
    [rewrite (can_identify_shard w w1) in Hy by done
    |rewrite (can_identify_shard w w1) in Hn by done].
  - unfold connect_socket, connect_prepared.
    assert (Hh : in_handshake (emit identifying (set_state Identifying w1)) = true)
      by reflexivity.
    rewrite Hh. cbn. rewrite Ht. split; [done|]. split.
    + intros i m. rewrite <- !app_assoc, !elem_of_app.
      intros [? | [Hx | Hx]]; [done | |];
        apply list_elem_of_singleton in Hx; done.
    + intros _. split; [by eexists _, _|]. by rewrite <- app_assoc.
  - unfold reject, connect_prepared.
    assert (Hh : in_handshake (emit identifying (set_state Identifying w1)) = true)
      by reflexivity.
    rewrite Hh. cbn. rewrite Ht. split; [done|]. split; [|congruence].
    intros i m. rewrite <- !app_assoc, !elem_of_app.
    intros [? | [Hx | [Hx | Hx]]]; [done | | |];
      apply list_elem_of_singleton in Hx; try done.
    clear -Hx. exfalso. induction k as [|f k IH]; cbn in Hx; [done|].
    destruct f; done.
Qed.



End Resuming.

(** ** Further properties of the methods *)

Section Further.
Context `{GatewayConstants} `{Platform}.

#[local] Arguments isOpen : simpl never.

(** *** calculateSafeRequests *)

(** X1: with a positive heartbeat interval and a reset interval that is not
    negative, [calculateSafeRequests] is the request limit minus twice the
    number of heartbeats per reset interval, rounded up, and never below
    zero. *)
Theorem X1_calculateSafeRequests_reserve (sh : DiscordenoShard)
  (Hi : 0 < interval (heart sh)) (Hr : 0 <= rateLimitResetInterval sh) :
  exists q,
    interval (heart sh) * (q - 1) < rateLimitResetInterval sh
      <= interval (heart sh) * q
    /\ calculateSafeRequests sh
       = Z.max 0 (maxRequestsPerRateLimitTick sh - 2 * q)
    /\ 0 <= calculateSafeRequests sh.
Proof.
  exists (- ((- rateLimitResetInterval sh) / interval (heart sh))).
  pose proof (Z.mul_div_le (- rateLimitResetInterval sh) _ Hi) as Hle.
  pose proof (Z.mul_succ_div_gt (- rateLimitResetInterval sh) _ Hi) as Hgt.
  unfold calculateSafeRequests.
  destruct (Z.eqb_spec (interval (heart sh)) 0) as [He|_]; [lia|].
  cbn zeta. repeat split; try nia.
  - destruct (Z.ltb_spec
      (maxRequestsPerRateLimitTick sh
       - - (- rateLimitResetInterval sh / interval (heart sh)) * 2) 0); lia.
  - destruct (Z.ltb_spec
      (maxRequestsPerRateLimitTick sh
       - - (- rateLimitResetInterval sh / interval (heart sh)) * 2) 0); lia.
Qed.

(** *** close *)

Lemma close_when_closed (code : Z) (reason : string) (w : World) :
  isOpen w = false -> close code reason w = w.
Proof.
  unfold isOpen, socket_readyState, close. intros Ho%bool_decide_eq_false.
  destruct (socket (shard w)) as [i|]; [|done]. cbn in Ho.
  destruct (sockets w !! i) as [sk|]; [|done]. cbn in Ho.
  rewrite bool_decide_eq_false_2; [done | congruence].
Qed.

Lemma close_when_open (code : Z) (reason : string) (w : World) :
  isOpen w = true ->
  exists i sk,
    socket (shard w) = Some i /\ sockets w !! i = Some sk
    /\ readyState sk = OPEN
    /\ close code reason w
       = with_sockets
           (<[i := Build_WebSocket CLOSING (address sk) (onopen sk)
                     (Some (code, reason))]> (sockets w)) w.
Proof.
  unfold isOpen, socket_readyState, close. intros Ho%bool_decide_eq_true.
  destruct (socket (shard w)) as [i|]; [|done]. cbn in Ho.
  destruct (sockets w !! i) as [sk|] eqn:Hsk; [|done]. cbn in Ho.
  exists i, sk. injection Ho as Ho. repeat split; try done.
  by rewrite bool_decide_eq_true_2.
Qed.

Lemma close_effect (code : Z) (reason : string) (w : World) :
  isOpen w = true ->
  exists i sk sk',
    socket (shard w) = Some i /\ sockets w !! i = Some sk
    /\ sockets (close code reason w) !! i = Some sk'
    /\ readyState sk' = CLOSING /\ closeCall sk' = Some (code, reason)
    /\ address sk' = address sk
    /\ shard (close code reason w) = shard w
    /\ trace (close code reason w) = trace w.
Proof.
  intros Ho.
  destruct (close_when_open code reason w Ho) as (i & sk & Hi & Hsk & _ & ->).
  exists i, sk,
    (Build_WebSocket CLOSING (address sk) (onopen sk) (Some (code, reason))).
  repeat split; try done. cbn.
  apply list_lookup_insert_eq. by eapply lookup_lt_Some.
Qed.

(** X2: [close] does nothing at all unless the socket is open; on an open
    socket it starts the closing handshake with the given code and reason,
    after which the shard is no longer open, so a second [close], whatever
    its code, changes nothing. *)
Theorem X2_close_once (c1 c2 : Z) (r1 r2 : string) (w : World) :
  (isOpen w = false -> close c1 r1 w = w)
  /\ (isOpen w = true ->
      exists i sk sk',
        socket (shard w) = Some i /\ sockets w !! i = Some sk
        /\ sockets (close c1 r1 w) !! i = Some sk'
        /\ readyState sk' = CLOSING /\ closeCall sk' = Some (c1, r1)
        /\ address sk' = address sk
        /\ shard (close c1 r1 w) = shard w
        /\ trace (close c1 r1 w) = trace w)
  /\ isOpen (close c1 r1 w) = false
  /\ close c2 r2 (close c1 r1 w) = close c1 r1 w.
Proof.
  split; [apply close_when_closed|]. split; [|split].
  - apply close_effect.
  - apply close_not_open.
  - apply close_when_closed, close_not_open.
Qed.

(** *** identify *)

Lemma identify_closed_form (k : Stack) (w : World) :
  identify k w
  = connect (KIdentifyConnected :: k)
      (emit identifying
         (set_state Identifying
            (if isOpen w then
               close ReIdentifying "Re-identifying closure of old connection."
                 (observe (Logged "CLOSING EXISTING SHARD") w)
             else w))).
Proof.
  unfold identify.
  set (w1 := if isOpen w then close _ _ _ else w).
  assert (Ho : isOpen w1 = false).
  { subst w1. destruct (isOpen w) eqn:E; [apply close_not_open | done]. }
  rewrite (isOpen_same w1) by reflexivity. by rewrite Ho.
Qed.

Lemma connecting_not_open (w : World) (before : list WebSocket)
  (sk : WebSocket) :
  sockets w = before ++ [sk] -> socket (shard w) = Some (length before) ->
  readyState sk = CONNECTING -> isOpen w = false.
Proof.
  intros Hs Hi Hr. apply bool_decide_eq_false_2.
  unfold socket_readyState. rewrite Hi. cbn.
  rewrite Hs, list_lookup_middle by done. cbn. congruence.
Qed.

(** [identify()] up to its [connect()]: what the closing of an open socket
    leaves as it was. *)
Lemma identify_before_connect (w w1 : World) :
  w1 = (if isOpen w then
          close ReIdentifying "Re-identifying closure of old connection."
            (observe (Logged "CLOSING EXISTING SHARD") w)
        else w) ->
  shard w1 = shard w
  /\ sockets w1
     = sockets (close ReIdentifying
                  "Re-identifying closure of old connection." w)
  /\ length (sockets w1) = length (sockets w)
  /\ ready w1 = ready w /\ promises w1 = promises w
  /\ timers w1 = timers w /\ delays w1 = delays w
  /\ trace w1
     = trace w ++ (if isOpen w then [Logged "CLOSING EXISTING SHARD"] else [])
  /\ isOpen w1 = false.
Proof.
  intros ->. destruct (isOpen w) eqn:Ho.
  - destruct (close_when_open ReIdentifying
                "Re-identifying closure of old connection." w Ho)
      as (i & sk & Hi & Hsk & _ & Hc).
    destruct (close_when_open ReIdentifying
                "Re-identifying closure of old connection."
                (observe (Logged "CLOSING EXISTING SHARD") w))
      as (i' & sk' & Hi' & Hsk' & _ & Hc');
      [by rewrite (isOpen_same w)|].
    cbn in Hi', Hsk'. assert (i' = i) as -> by congruence.
    assert (sk' = sk) as -> by congruence.
    rewrite close_not_open.
    rewrite Hc, Hc'. cbn. by rewrite length_insert.
  - rewrite (close_when_closed _ _ w Ho). by rewrite app_nil_r.
Qed.

(** The address [identify()] connects to. *)
Lemma identify_address (w w1 : World) :
  shard w1 = shard w ->
  connect_address
    (connect_prepared (emit identifying (set_state Identifying w1)))
  = (if urlIsPrimary (connection (shard w))
     then UrlVersioned (url (connection (shard w)))
            (version (connection (shard w)))
     else UrlPlain (url (connection (shard w)))).
Proof.
  intros E.
  destruct (connect_prepared_keeps
              (emit identifying (set_state Identifying w1)))
    as (_ & _ & _ & -> & _).
  unfold connect_address. cbn. by rewrite E.
Qed.

(** The whole effect of [identify()] up to its first [await], when
    [connect()] does not throw. *)
Lemma identify_effect (k : Stack) (w : World) :
  can_identify w = true ->
  exists before,
    sockets (identify k w)
    = before
      ++ [Build_WebSocket CONNECTING
            (if urlIsPrimary (connection (shard w))
             then UrlVersioned (url (connection (shard w)))
                    (version (connection (shard w)))
             else UrlPlain (url (connection (shard w))))
            (Some (KIdentifyConnected :: k)) None]
    /\ before
       = sockets (close ReIdentifying
                    "Re-identifying closure of old connection." w)
    /\ length before = length (sockets w)
    /\ shard (identify k w)
       = shard_socket (Some (length (sockets w)))
           (shard_state Identifying (shard w))
    /\ isOpen (identify k w) = false
    /\ ready (identify k w) = ready w
    /\ promises (identify k w) = promises w
    /\ timers (identify k w) = timers w
    /\ delays (identify k w) = delays w
    /\ trace (identify k w)
       = trace w
         ++ (if isOpen w then [Logged "CLOSING EXISTING SHARD"] else [])
         ++ [Emitted identifying; Emitted connecting].
Proof.
  intros Hc. rewrite identify_closed_form.
  set (w1 := if isOpen w then close _ _ _ else w).
  destruct (identify_before_connect w w1 eq_refl)
    as (Hsh & Hso & Hlen & Hr & Hp & Ht & Hd & Htr & Ho).
  clearbody w1.
  rewrite connect_connectable by (by rewrite (can_identify_shard w w1)).
  exists (sockets w1). unfold connect_socket.
  rewrite (identify_address w w1 Hsh). unfold connect_prepared.
  assert (Hh : in_handshake (emit identifying (set_state Identifying w1)) = true)
    by reflexivity.
  rewrite Hh.
  cbn. rewrite Hsh, Hlen, Hr, Hp, Ht, Hd, Htr.
  repeat split; try done.
  - eapply connecting_not_open; cbn; [reflexivity | by rewrite Hlen | done].
  - by rewrite <- !app_assoc.
Qed.

(** The whole effect of [identify()] when [connect()] throws. *)
Lemma identify_rejected (k : Stack) (w : World) :
  can_identify w = false ->
  exists msg,
    sockets (identify k w)
    = sockets (close ReIdentifying
                 "Re-identifying closure of old connection." w)
    /\ shard (identify k w) = shard_state Identifying (shard w)
    /\ isOpen (identify k w) = false
    /\ ready (identify k w) = ready w
    /\ promises (identify k w) = promises w
    /\ timers (identify k w) = timers w
    /\ delays (identify k w) = delays w
    /\ trace (identify k w)
       = trace w
         ++ (if isOpen w then [Logged "CLOSING EXISTING SHARD"] else [])
         ++ [Emitted identifying; Emitted connecting; rejection msg k].
Proof.
  intros Hc. rewrite identify_closed_form.
  set (w1 := if isOpen w then close _ _ _ else w).
  destruct (identify_before_connect w w1 eq_refl)
    as (Hsh & Hso & Hlen & Hr & Hp & Ht & Hd & Htr & Ho).
  clearbody w1.
  destruct (connect_cases (KIdentifyConnected :: k)
              (emit identifying (set_state Identifying w1)))
    as [[Hy _] | [_ [msg E]]].
  { rewrite (can_identify_shard w w1) in Hy by done. congruence. }
  rewrite E. exists msg. unfold reject, connect_prepared.
  assert (Hh : in_handshake (emit identifying (set_state Identifying w1)) = true)
    by reflexivity.
  rewrite Hh. cbn. rewrite Hsh, Hso, Hr, Hp, Ht, Hd, Htr, <- !app_assoc.
  repeat split; done.
Qed.

(** What [identify()] leaves alone whether or not [connect()] throws. *)
Lemma identify_frame (k : Stack) (w : World) :
  state (shard (identify k w)) = Identifying
  /\ isOpen (identify k w) = false
  /\ heart (shard (identify k w)) = heart (shard w)
  /\ sessionId (shard (identify k w)) = sessionId (shard w)
  /\ previousSequenceNumber (shard (identify k w))
     = previousSequenceNumber (shard w)
  /\ waiters_untouched w (identify k w)
  /\ ready (identify k w) = ready w
  /\ timers (identify k w) = timers w
  /\ delays (identify k w) = delays w
  /\ (forall i m,
        Transmitted i m ∈ trace (identify k w) -> Transmitted i m ∈ trace w).
Proof.
  unfold waiters_untouched.
  destruct (can_identify w) eqn:Hc.
  - destruct (identify_effect k w Hc)
      as (before & _ & _ & _ & Hsh & Ho & Hr & Hp & Ht & Hd & Htr).
    rewrite Hsh, Ho, Hr, Hp, Ht, Hd, Htr. cbn.
    repeat split; try done.
    intros i m. rewrite !elem_of_app.
    intros [? | [Hin | Hin]]; [done | |].
    + destruct (isOpen w); [|by apply elem_of_nil in Hin].
      apply list_elem_of_singleton in Hin. discriminate.
    + apply elem_of_cons in Hin as [Hin | Hin]; [discriminate|].
      apply list_elem_of_singleton in Hin. discriminate.
  - destruct (identify_rejected k w Hc)
      as (msg & _ & Hsh & Ho & Hr & Hp & Ht & Hd & Htr).
    rewrite Hsh, Ho, Hr, Hp, Ht, Hd, Htr. cbn.
    repeat split; try done.
    intros i m. rewrite !elem_of_app.
    intros [? | [Hin | Hin]]; [done | |].
    + destruct (isOpen w); [|by apply elem_of_nil in Hin].
      apply list_elem_of_singleton in Hin. discriminate.
    + apply elem_of_cons in Hin as [Hin | Hin]; [discriminate|].
      apply elem_of_cons in Hin as [Hin | Hin]; [discriminate|].
      apply list_elem_of_singleton in Hin.
      clear -Hin. exfalso. induction k as [|f k IH]; cbn in Hin; [done|].
      destruct f; done.
Qed.

(** X3: [identify()] never reuses a connection.  Whatever the socket it
    finds, it sets the state to Identifying and goes to [connect()]; the
    shard is not open afterwards, nothing has been transmitted, and the
    session id and the sequence number of the previous session are still
    there.  When the constructors of [connect()] accept the configured url,
    the caller is parked on a new connecting socket opened to that url
    (with the API version on the primary gateway, and never to the resume
    url); when one of them throws, no socket is made, [this.socket] is the
    one it was, and the call is rejected. *)
Theorem X3_identify_always_connects (k : Stack) (w : World) :
  state (shard (identify k w)) = Identifying
  /\ isOpen (identify k w) = false
  /\ sessionId (shard (identify k w)) = sessionId (shard w)
  /\ previousSequenceNumber (shard (identify k w))
     = previousSequenceNumber (shard w)
  /\ ready (identify k w) = ready w
  /\ (forall i m,
        Transmitted i m ∈ trace (identify k w) -> Transmitted i m ∈ trace w)
  /\ (can_identify w = true ->
      exists sk,
        sockets (identify k w) !! length (sockets w) = Some sk
        /\ socket (shard (identify k w)) = Some (length (sockets w))
        /\ readyState sk = CONNECTING
        /\ onopen sk = Some (KIdentifyConnected :: k)
        /\ address sk
           = (if urlIsPrimary (connection (shard w))
              then UrlVersioned (url (connection (shard w)))
                     (version (connection (shard w)))
              else UrlPlain (url (connection (shard w)))))
  /\ (can_identify w = false ->
      length (sockets (identify k w)) = length (sockets w)
      /\ socket (shard (identify k w)) = socket (shard w)
      /\ promises (identify k w) = promises w
      /\ exists msg,
           last (trace (identify k w)) = Some (rejection msg k)).
Proof.
  destruct (identify_frame k w)
    as (Hst & Ho & _ & Hse & Hps & _ & Hr & _ & _ & Htr).
  do 6 (split; [done|]). split.
  - intros Hc.
    destruct (identify_effect k w Hc) as (before & Hs & _ & Hlen & Hsh & _).
    eexists. rewrite Hs, Hsh.
    split; [rewrite <- Hlen; by apply list_lookup_middle|]. done.
  - intros Hc.
    destruct (identify_rejected k w Hc)
      as (msg & Hs & Hsh & _ & _ & Hp & _ & _ & Ht).
    rewrite Hs, Hsh, Hp, Ht.
    destruct (close_keeps ReIdentifying
                "Re-identifying closure of old connection." w)
      as (_ & Hlen & _).
    rewrite Hlen. repeat split; try done. exists msg.
    by rewrite !last_app.
Qed.

(** *** resume *)

(** The whole effect of [resume()] with a session, up to its [await], when
    [connect()] does not throw. *)
Lemma resume_effect (k : Stack) (w : World)
  (Hs : truthy_string (sessionId (shard w)) = true)
  (Hc : can_resume w = true) :
  exists before,
    sockets (resume k w)
    = before
      ++ [Build_WebSocket CONNECTING
            (if urlIsPrimary (connection (shard w))
             then UrlVersioned (resumeGatewayUrl (shard w))
                    (version (connection (shard w)))
             else UrlPlain (url (connection (shard w))))
            (Some (KResumeConnected :: k)) None]
    /\ before
       = sockets (close ResumeClosingOldConnection
                    "Reconnecting the shard, closing old connection." w)
    /\ length before = length (sockets w)
    /\ shard (resume k w)
       = shard_socket (Some (length (sockets w)))
           (shard_state Resuming (shard w))
    /\ isOpen (resume k w) = false
    /\ ready (resume k w) = ready w
    /\ promises (resume k w) = promises w
    /\ timers (resume k w) = timers w
    /\ trace (resume k w) = trace w ++ [Emitted connecting].
Proof.
  rewrite (resume_connects k w Hs).
  destruct (close_keeps ResumeClosingOldConnection
    "Reconnecting the shard, closing old connection." w)
    as (Hsh & Hlen & Hr & Hp & Htr).
  assert (Ht : timers (close ResumeClosingOldConnection
                 "Reconnecting the shard, closing old connection." w)
               = timers w).
  { unfold close. by repeat case_match. }
  remember (close ResumeClosingOldConnection
              "Reconnecting the shard, closing old connection." w) as w1.
  rewrite connect_connectable by (by rewrite (can_resume_shard w w1)).
  unfold connect_socket, connect_prepared, connect_address.
  assert (Hh : in_handshake (set_state Resuming w1) = true).
  { unfold in_handshake. cbn. by rewrite orb_true_r. }
  rewrite Hh. exists (sockets w1). cbn. rewrite Hsh, Hlen, Hr, Hp, Htr, Ht.
  repeat split; try done.
  eapply connecting_not_open; cbn; [reflexivity | by rewrite Hlen | done].
Qed.

(** X4: [resume()] with a non-empty session id sets the state to Resuming
    and goes to [connect()], leaving the session id and the sequence number
    it will send as they are.  When the constructors of [connect()] accept
    the address, the caller is parked on a new connecting socket: on the
    primary gateway the socket is opened to the url the last READY gave,
    with the API version; on any other gateway to the configured url.
    When one of them throws, as [new URL] does on the empty resume url of a
    shard that never got a READY, no socket is made and the call is
    rejected. *)
Theorem X4_resume_connects_to_resume_url (k : Stack) (w : World)
  (Hs : truthy_string (sessionId (shard w)) = true) :
  state (shard (resume k w)) = Resuming
  /\ sessionId (shard (resume k w)) = sessionId (shard w)
  /\ previousSequenceNumber (shard (resume k w))
     = previousSequenceNumber (shard w)
  /\ ready (resume k w) = ready w
  /\ (can_resume w = true ->
      exists sk,
        sockets (resume k w) !! length (sockets w) = Some sk
        /\ socket (shard (resume k w)) = Some (length (sockets w))
        /\ readyState sk = CONNECTING
        /\ onopen sk = Some (KResumeConnected :: k)
        /\ address sk
           = (if urlIsPrimary (connection (shard w))
              then UrlVersioned (resumeGatewayUrl (shard w))
                     (version (connection (shard w)))
              else UrlPlain (url (connection (shard w))))
        /\ isOpen (resume k w) = false)
  /\ (can_resume w = false ->
      length (sockets (resume k w)) = length (sockets w)
      /\ socket (shard (resume k w)) = socket (shard w)
      /\ promises (resume k w) = promises w
      /\ exists msg, last (trace (resume k w)) = Some (rejection msg k))
  /\ (urlIsPrimary (connection (shard w)) = true ->
      resumeGatewayUrl (shard w) = "" -> can_resume w = false).
Proof.
  assert (Hcommon : state (shard (resume k w)) = Resuming
                    /\ sessionId (shard (resume k w)) = sessionId (shard w)
                    /\ previousSequenceNumber (shard (resume k w))
                       = previousSequenceNumber (shard w)
                    /\ ready (resume k w) = ready w).
  { destruct (can_resume w) eqn:Hc.
    - destruct (resume_effect k w Hs Hc)
        as (before & _ & _ & _ & Hsh & _ & Hr & _).
      by rewrite Hsh, Hr.
    - destruct (resume_rejects k w Hs Hc) as (msg & Hsh & _ & Hr & _).
      by rewrite Hsh, Hr. }
  destruct Hcommon as (H1 & H2 & H3 & H4).
  do 4 (split; [done|]). split; [|split].
  - intros Hc.
    destruct (resume_effect k w Hs Hc)
      as (before & Hsk & _ & Hlen & Hsh & Ho & _).
    eexists. rewrite Hsk, Hsh, Ho.
    split; [rewrite <- Hlen; by apply list_lookup_middle|]. done.
  - intros Hc.
    destruct (resume_rejects k w Hs Hc) as (msg & Hsh & Hso & _ & Hp & Ht).
    rewrite Hsh, Hso, Hp, Ht.
    destruct (close_keeps ResumeClosingOldConnection
      "Reconnecting the shard, closing old connection." w) as (_ & Hlen & _).
    rewrite Hlen. repeat split; try done. exists msg.
    by rewrite last_app.
  - intros Hp Hu. unfold can_resume, connectable. cbn.
    rewrite Hp, Hu, url_parses_empty. cbn.
    by rewrite andb_false_r.
Qed.

(** *** handleClose *)

Lemma clear_timer_lookup (i : option nat) (w : World) (n : nat) :
  shard (clear_timer i w) = shard w
  /\ length (timers (clear_timer i w)) = length (timers w)
  /\ timers (clear_timer i w) !! n
     = if bool_decide (i = Some n)
       then (fun tm => Build_Timer (kind tm) (period tm) false)
            <$> timers w !! n
       else timers w !! n.
Proof.
  unfold clear_timer. destruct i as [m|]; [|by rewrite bool_decide_eq_false_2].
  destruct (timers w !! m) as [tm|] eqn:Hm; cbn.
  - rewrite length_insert. repeat split.
    case_bool_decide as He.
    + injection He as ->. rewrite Hm. cbn.
      apply list_lookup_insert_eq. by eapply lookup_lt_Some.
    + apply list_lookup_insert_ne. congruence.
  - repeat split. case_bool_decide as He; [|done].
    injection He as ->. by rewrite Hm.
Qed.

Lemma stopHeartbeating_inactive (w : World) (n : nat) (tm : Timer) :
  timeoutId (heart (shard w)) = Some n \/ intervalId (heart (shard w)) = Some n ->
  timers (stopHeartbeating w) !! n = Some tm -> active tm = false.
Proof.
  unfold stopHeartbeating. intros Hn.
  destruct (clear_timer_lookup (intervalId (heart (shard w))) w n)
    as (_ & _ & H1).
  destruct (clear_timer_lookup (timeoutId (heart (shard w)))
              (clear_timer (intervalId (heart (shard w))) w) n)
    as (_ & _ & H2).
  rewrite H2, H1. clear H1 H2.
  repeat case_bool_decide;
    destruct (timers w !! n) as [t0|]; cbn; intros [= <-]; try done.
  destruct Hn; congruence.
Qed.

Lemma identify_timers (k : Stack) (w : World) :
  timers (identify k w) = timers w.
Proof. by destruct (identify_frame k w) as (_ & _ & _ & _ & _ & _ & _ & -> & _). Qed.

(** What [resume()] leaves alone, with or without a session, whether or
    not [connect()] throws. *)
Lemma identify_promises (k : Stack) (w : World) :
  promises (identify k w) = promises w.
Proof.
  destruct (can_identify w) eqn:Hc.
  - by destruct (identify_effect k w Hc)
      as (before & _ & _ & _ & _ & _ & _ & -> & _).
  - by destruct (identify_rejected k w Hc)
      as (msg & _ & _ & _ & _ & -> & _).
Qed.

Lemma resume_frame (k : Stack) (w : World) :
  timers (resume k w) = timers w
  /\ heart (shard (resume k w)) = heart (shard w)
  /\ delays (resume k w) = delays w
  /\ ready (resume k w) = ready w
  /\ waiters_untouched w (resume k w)
  /\ sessionId (shard (resume k w)) = sessionId (shard w)
  /\ state (shard (resume k w))
     = (if truthy_string (sessionId (shard w)) then Resuming else Identifying).
Proof.
  assert (Hc : forall c r,
            timers (close c r w) = timers w
            /\ shard (close c r w) = shard w
            /\ delays (close c r w) = delays w
            /\ ready (close c r w) = ready w
            /\ promises (close c r w) = promises w).
  { intros. unfold close. by repeat case_match. }
  unfold resume.
  set (w1 := if isOpen w then close _ _ w else w).
  assert (Hw1 : timers w1 = timers w /\ shard w1 = shard w
                /\ delays w1 = delays w /\ ready w1 = ready w
                /\ promises w1 = promises w).
  { subst w1. destruct (isOpen w); [apply Hc | done]. }
  destruct Hw1 as (Ht & Hsh & Hd & Hr & Hp). clearbody w1.
  unfold waiters_untouched. rewrite Hsh.
  destruct (truthy_string (sessionId (shard w))); cbn [negb].
  - destruct (connect_frame (KResumeConnected :: k) (set_state Resuming w1))
      as (-> & -> & -> & -> & -> & _ & (_ & -> & -> & ->) & -> & ->).
    cbn. by rewrite Ht, Hsh, Hd, Hr, Hp.
  - rewrite identify_promises.
    destruct (identify_frame k w1)
      as (-> & _ & -> & -> & _ & (_ & -> & -> & ->) & -> & -> & -> & _).
    by rewrite Ht, Hsh, Hd, Hr, Hp.
Qed.

Lemma resume_timers (k : Stack) (w : World) :
  timers (resume k w) = timers w.
Proof. by destruct (resume_frame k w) as (-> & _). Qed.

Lemma handleClose_timers (code : Z) (reason : string) (k : Stack) (w : World) :
  timers (outcome_world (handleClose code reason k w))
  = timers (stopHeartbeating w).
Proof.
  rewrite handleClose_unfold. cbn zeta.
  repeat case_match; cbn [outcome_world];
    rewrite ?identify_timers, ?resume_timers; by destruct k.
Qed.

(** X5: whatever the close code, [handleClose] stops the heartbeat: the
    jitter timeout and the steady interval recorded in the heart are
    cleared, so neither fires again, and no timer is created. *)
Theorem X5_handleClose_stops_heartbeat (code : Z) (reason : string)
  (k : Stack) (w : World) (n : nat) (now : Z)
  (Hn : timeoutId (heart (shard w)) = Some n
        \/ intervalId (heart (shard w)) = Some n) :
  (forall tm,
     timers (outcome_world (handleClose code reason k w)) !! n = Some tm ->
     active tm = false)
  /\ length (timers (outcome_world (handleClose code reason k w)))
     = length (timers w)
  /\ step (TimerFired n now) (outcome_world (handleClose code reason k w))
     = None.
Proof.
  rewrite handleClose_timers.
  assert (Hin : forall tm,
            timers (stopHeartbeating w) !! n = Some tm -> active tm = false)
    by (intros; by eapply stopHeartbeating_inactive).
  split; [exact Hin|]. split.
  - unfold stopHeartbeating.
    destruct (clear_timer_lookup (timeoutId (heart (shard w)))
                (clear_timer (intervalId (heart (shard w))) w) 0%nat)
      as (_ & -> & _).
    by destruct (clear_timer_lookup (intervalId (heart (shard w))) w 0%nat)
      as (_ & -> & _).
  - cbn [step]. rewrite handleClose_timers.
    destruct (ready _); [|done].
    destruct (timers (stopHeartbeating w) !! n) as [tm|] eqn:E; [|done].
    by rewrite (Hin tm).
Qed.

(** [handleClose] for the codes that start no reconnect. *)
Lemma handleClose_own_codes_form
  (Hd : all_distinct close_codes = true)
  (code : Z) (reason : string) (k : Stack) (w : World)
  (Hc : code = TestingFinished \/ code_in code graceful_codes = true) :
  handleClose code reason k w
  = Normal
      (enqueue k
         (emit disconnected
            (set_state (if code =? TestingFinished then Offline else Disconnected)
               (stopHeartbeating w)))).
Proof.
  rewrite handleClose_unfold. cbn zeta. cbn [code_in existsb].
  rewrite orb_false_r.
  destruct Hc as [-> | Hg].
  - by rewrite Z.eqb_refl.
  - assert (Ht : code_in code [TestingFinished] = false).
    { apply (distinct_earlier _
               (graceful_codes ++ reidentify_codes ++ fatal_codes
                ++ resumable_codes)); [exact Hd|].
      by rewrite code_in_app, Hg. }
    cbn in Ht. rewrite orb_false_r in Ht. rewrite Ht.
    fold (code_in code graceful_codes). by rewrite Hg.
Qed.

(** X6: a close with TestingFinished, or with one of the codes the shard
    closes its own socket with, starts no reconnect: the state becomes
    Offline, respectively Disconnected, [disconnected] is called, the
    caller goes on, and no socket is opened and no waiter touched. *)
Theorem X6_handleClose_own_codes
  (Hd : all_distinct close_codes = true)
  (code : Z) (reason : string) (k : Stack) (w : World)
  (Hc : code = TestingFinished \/ code_in code graceful_codes = true) :
  exists w1,
    handleClose code reason k w = Normal w1
    /\ state (shard w1)
       = (if code =? TestingFinished then Offline else Disconnected)
    /\ sockets w1 = sockets w
    /\ socket (shard w1) = socket (shard w)
    /\ waiters_untouched w w1
    /\ delays w1 = delays w
    /\ trace w1 = trace w ++ [Emitted disconnected]
    /\ ready w1 = ready (enqueue k w).
Proof.
  assert (Hq : forall st,
    let w1 := enqueue k (emit disconnected (set_state st (stopHeartbeating w))) in
    state (shard w1) = st /\ sockets w1 = sockets w
    /\ socket (shard w1) = socket (shard w) /\ waiters_untouched w w1
    /\ delays w1 = delays w /\ trace w1 = trace w ++ [Emitted disconnected]
    /\ ready w1 = ready (enqueue k w)).
  { intros st.
    destruct (stopHeartbeating_keeps w) as (Hs & Ht & Hp & Hr & Hk).
    assert (Hdl : delays (stopHeartbeating w) = delays w).
    { unfold stopHeartbeating, clear_timer. by repeat case_match. }
    unfold waiters_untouched.
    destruct k; cbn; rewrite ?Hs, ?Ht, ?Hp, ?Hr, ?Hk, ?Hdl; done. }
  rewrite (handleClose_own_codes_form Hd code reason k w Hc).
  eexists. split; [reflexivity|]. apply Hq.
Qed.

(** *** The steady heartbeat *)

(** X7: zombie detection.  A steady tick on an open socket whose last
    heartbeat was not acknowledged sends no heartbeat: it closes the socket
    with ZombiedConnection and identifies again.  When [connect()] accepts
    the configured url the shard is on a new socket; when it throws, no
    socket is made and the timer callback is rejected.  A tick while the
    socket is not open does nothing. *)
Theorem X7_unacknowledged_tick_reidentifies (now : Z) (k : Stack) (w : World) :
  (isOpen w = false -> steady_interval now k w = enqueue k w)
  /\ (isOpen w = true -> acknowledged (heart (shard w)) = false ->
      exists i sk,
        socket (shard w) = Some i
        /\ sockets (steady_interval now k w) !! i = Some sk
        /\ readyState sk = CLOSING
        /\ closeCall sk
           = Some (ZombiedConnection,
                   "Zombied connection, did not receive an heartbeat ACK in time.")
        /\ state (shard (steady_interval now k w)) = Identifying
        /\ heart (shard (steady_interval now k w)) = heart (shard w)
        /\ (can_identify w = true ->
            socket (shard (steady_interval now k w))
            = Some (length (sockets w))
            /\ trace (steady_interval now k w)
               = trace w ++ [Emitted identifying; Emitted connecting])
        /\ (can_identify w = false ->
            socket (shard (steady_interval now k w)) = Some i
            /\ length (sockets (steady_interval now k w))
               = length (sockets w)
            /\ exists msg,
                 trace (steady_interval now k w)
                 = trace w ++ [Emitted identifying; Emitted connecting;
                               rejection msg k])).
Proof.
  split; unfold steady_interval.
  - by intros ->.
  - intros Ho Ha. rewrite Ho, Ha. cbn [negb].
    set (c := close _ _ w).
    destruct (close_effect ZombiedConnection
      "Zombied connection, did not receive an heartbeat ACK in time." w Ho)
      as (i & sk & sk' & Hi & Hsk & Hsk' & Hr & Hcc & _ & Hsh & Htr).
    fold c in Hsk', Hsh, Htr.
    assert (Hco : isOpen c = false) by apply close_not_open.
    assert (Hlen : length (sockets c) = length (sockets w)).
    { subst c. by destruct (close_keeps ZombiedConnection
        "Zombied connection, did not receive an heartbeat ACK in time." w)
        as (_ & -> & _). }
    assert (Hcan : can_identify c = can_identify w).
    { unfold can_identify. apply connectable_shard. cbn. by rewrite Hsh. }
    pose proof (close_when_closed ReIdentifying
                  "Re-identifying closure of old connection." c Hco) as Hcl.
    exists i, sk'. destruct (can_identify w) eqn:Hc.
    + destruct (identify_effect k c Hcan)
        as (before & Hs & Hb & _ & Hshard & _ & _ & _ & _ & _ & Htrace).
      rewrite Hcl in Hb. subst before.
      rewrite Hs, Hshard, Htrace, Hco, Hsh, Htr, Hlen. cbn.
      repeat split; try done.
      by apply lookup_app_l_Some.
    + destruct (identify_rejected k c Hcan)
        as (msg & Hs & Hshard & _ & _ & _ & _ & _ & Htrace).
      rewrite Hcl in Hs.
      rewrite Hs, Hshard, Htrace, Hco, Hsh, Htr, Hlen. cbn.
      repeat split; try done. by exists msg.
Qed.

(** *** Invalid sessions *)

(** Rounding to a double keeps a number between two integers below
    [2^53]. *)
Lemma round_double_between (q : Q) (lo hi : Z) :
  0 <= lo -> hi < 2 ^ 53 ->
  (inject_Z lo <= q)%Q -> (q <= inject_Z hi)%Q ->
  (inject_Z lo <= round_double q)%Q /\ (round_double q <= inject_Z hi)%Q.
Proof.
  intros Hlo Hhi Hl Hh.
  assert (Hq0 : (0 <= q)%Q).
  { eapply Qle_trans; [|exact Hl]. change 0%Q with (inject_Z 0).
    by rewrite <- Zle_Qle. }
  destruct (Qlt_le_dec 0 q) as [Hpos | Hle].
  - assert (Hlt : (q < inject_Z (2 ^ 53))%Q).
    { eapply Qle_lt_trans; [exact Hh|]. by rewrite <- Zlt_Qlt. }
    destruct (round_double_integer q lo Hpos Hlt) as [_ Ha].
    destruct (round_double_integer q hi Hpos Hlt) as [Hb _].
    auto.
  - assert (E : (q == 0)%Q) by (by apply Qle_antisym).
    unfold round_double. apply Qeq_alt in E as Ec. rewrite Ec.
    split; [by rewrite <- E | by rewrite <- E].
Qed.

Lemma invalid_session_delay_bounds (r : Q) :
  (0 <= r)%Q -> (r < 1)%Q -> 1000 <= invalid_session_delay r <= 5000.
Proof.
  intros Hr0 Hr1. unfold invalid_session_delay, double_mul, double_add.
  assert (Ha : (inject_Z 0 <= r * 4)%Q /\ (r * 4 <= inject_Z 4)%Q).
  { destruct r as [n dn]. unfold Qle, Qlt, Qmult, inject_Z in *.
    cbn in *. split; nia. }
  destruct Ha as [Ha1 Ha2].
  destruct (round_double_between (r * 4) 0 4 ltac:(lia) ltac:(lia) Ha1 Ha2)
    as [Hb1 Hb2].
  set (a := round_double (r * 4)) in *. clearbody a.
  assert (Hc1 : (inject_Z 1 <= a + 1)%Q).
  { change (inject_Z 1) with (0 + 1)%Q. by apply Qplus_le_l. }
  assert (Hc2 : (a + 1 <= inject_Z 5)%Q).
  { change (inject_Z 5) with (inject_Z 4 + 1)%Q. by apply Qplus_le_l. }
  destruct (round_double_between (a + 1) 1 5 ltac:(lia) ltac:(lia) Hc1 Hc2)
    as [Hd1 Hd2].
  set (b := round_double (a + 1)) in *. clearbody b.
  assert (He1 : (inject_Z 1000 <= b * 1000)%Q).
  { change (inject_Z 1000) with (inject_Z 1 * 1000)%Q.
    by apply Qmult_le_compat_r. }
  assert (He2 : (b * 1000 <= inject_Z 5000)%Q).
  { change (inject_Z 5000) with (inject_Z 5 * 1000)%Q.
    by apply Qmult_le_compat_r. }
  destruct (round_double_between (b * 1000) 1000 5000
              ltac:(lia) ltac:(lia) He1 He2) as [Hf1 Hf2].
  split.
  - rewrite <- (Qfloor_Z 1000). by apply Qfloor_resp_le.
  - rewrite <- (Qfloor_Z 5000). by apply Qfloor_resp_le.
Qed.

(** X8: an InvalidSession packet makes the shard wait, and do nothing else,
    for a whole number of milliseconds from 1000 up to 5000 (the sum and
    the products are rounded to doubles, and the largest sample below 1
    gives 5000): the rest of the handler is parked on the delay, no socket
    is touched, nothing is transmitted and the resolvers stay where they are
    until the delay has elapsed. *)
Theorem X8_invalid_session_backs_off (packet : DiscordGatewayPayload)
  (now : Z) (rnd : Q) (k : Stack) (w : World)
  (Hop : op packet = InvalidSession)
  (Hrnd : (0 <= rnd)%Q /\ (rnd < 1)%Q) :
  exists ms,
    1000 <= ms <= 5000
    /\ ms = Qfloor (double_mul (double_add (double_mul rnd 4) 1) 1000)
    /\ delays (handleDiscordPacket packet now rnd k w)
       = delays w ++ [(ms, Some (KInvalidSessionDelayed packet :: k))]
    /\ ready (handleDiscordPacket packet now rnd k w) = ready w
    /\ sockets (handleDiscordPacket packet now rnd k w) = sockets w
    /\ promises (handleDiscordPacket packet now rnd k w) = promises w
    /\ resolves (shard (handleDiscordPacket packet now rnd k w))
       = resolves (shard w)
    /\ state (shard (handleDiscordPacket packet now rnd k w))
       = state (shard w)
    /\ trace (handleDiscordPacket packet now rnd k w)
       = trace w ++ [Emitted (invalidSession (truthy_data (d packet)))].
Proof.
  exists (invalid_session_delay rnd). destruct Hrnd as [Hr0 Hr1].
  split; [by apply invalid_session_delay_bounds|].
  split; [reflexivity|].
  unfold handleDiscordPacket. rewrite Hop. by cbn.
Qed.

(** *** Resolvers and the continuations they release *)

Lemma settle_release (q p : nat) (k : Stack) (w : World) :
  k <> [] ->
  (parked_or_released p k w -> parked_or_released p k (settle q w))
  /\ (released p k w -> released p k (settle q w))
  /\ (parked_or_released p k w -> q = p -> released p k (settle q w)).
Proof.
  intros Hk. unfold settle, parked_or_released, released.
  destruct (promises w !! q) as [[kq|]|] eqn:E.
  - assert (Hlt : (q < length (promises w))%nat) by (by eapply lookup_lt_Some).
    assert (Hready : forall x, x ∈ ready w ->
              x ∈ ready (enqueue kq
                          (with_promises (<[q:=Settled]> (promises w)) w))).
    { intros x Hx. destruct kq; cbn; [done|]. rewrite elem_of_app. by left. }
    assert (Hprom : promises (enqueue kq
                      (with_promises (<[q:=Settled]> (promises w)) w))
                    = <[q:=Settled]> (promises w)) by (by destruct kq).
    rewrite Hprom. split; [|split].
    + intros [Hp | [Hp Hin]].
      * destruct (decide (q = p)) as [->|Hne].
        -- right. split; [by apply list_lookup_insert_eq|].
           assert (kq = k) as -> by congruence.
           destruct k; [done|]. cbn. rewrite elem_of_app. right.
           by apply list_elem_of_singleton.
        -- left. by rewrite list_lookup_insert_ne.
      * right. split; [|auto].
        destruct (decide (q = p)) as [->|Hne]; [congruence|].
        by rewrite list_lookup_insert_ne.
    + intros [Hp Hin]. split; [|auto].
      destruct (decide (q = p)) as [->|Hne]; [congruence|].
      by rewrite list_lookup_insert_ne.
    + intros [Hp | [Hp Hin]] ->; [|congruence].
      split; [by apply list_lookup_insert_eq|].
      assert (kq = k) as -> by congruence.
      destruct k; [done|]. cbn. rewrite elem_of_app. right.
      by apply list_elem_of_singleton.
  - split; [done|]. split; [done|].
    intros [Hp | Hr] ->; [congruence | done].
  - split; [done|]. split; [done|].
    intros [Hp | Hr] ->; [congruence | done].
Qed.

Lemma call_resolver_release (r : Resolver) (p : nat) (k : Stack) (w : World) :
  k <> [] ->
  (parked_or_released p k w -> parked_or_released p k (call_resolver r w))
  /\ (released p k w -> released p k (call_resolver r w))
  /\ (parked_or_released p k w -> resolver_promise r = p ->
      released p k (call_resolver r w)).
Proof.
  intros Hk. destruct r as [q | q | key q]; cbn [call_resolver resolver_promise].
  - by apply settle_release.
  - apply (settle_release q p k (emit identified w) Hk).
  - apply (settle_release q p k
             (set_resolves (delete key (resolves (shard w))) w) Hk).
Qed.

Lemma drain_release (q : list Resolver) (p : nat) (k : Stack) (w : World) :
  k <> [] ->
  let w' := foldl (fun w r => call_resolver r (observe (Woken r) w)) w q in
  (parked_or_released p k w -> parked_or_released p k w')
  /\ (released p k w -> released p k w')
  /\ (parked_or_released p k w ->
      (exists r, r ∈ q /\ resolver_promise r = p) -> released p k w').
Proof.
  intros Hk. revert w. induction q as [|r q IH]; intros w; cbn.
  - split; [done|]. split; [done|].
    intros _ (r & Hr & _). by apply elem_of_nil in Hr.
  - destruct (IH (call_resolver r (observe (Woken r) w))) as (IH1 & IH2 & IH3).
    destruct (call_resolver_release r p k (observe (Woken r) w) Hk)
      as (C1 & C2 & C3).
    split; [|split].
    + intros Hw. apply IH1, C1. exact Hw.
    + intros Hw. apply IH2, C2. exact Hw.
    + intros Hw (r' & Hin & Hp). apply elem_of_cons in Hin as [-> | Hin].
      * apply IH2, C3; [exact Hw | exact Hp].
      * apply IH3; [apply C1; exact Hw | by exists r'].
Qed.

Lemma resolve_and_delete_release (key : ResolveKey) (p : nat) (k : Stack)
  (w : World) :
  k <> [] -> released p k w -> released p k (resolve_and_delete key w).
Proof.
  intros Hk Hw. unfold resolve_and_delete.
  destruct (resolves (shard w) !! key) as [r|]; [|exact Hw].
  destruct (call_resolver_release r p k w Hk) as (_ & Hc & _).
  exact (Hc Hw).
Qed.

Lemma packet_epilogue_tail_release (packet : DiscordGatewayPayload)
  (k0 : Stack) (p : nat) (k : Stack) (w : World) :
  released p k w ->
  released p k
    (enqueue k0 (emit (message packet)
       match s packet with
       | Some n => with_shard (shard_previousSequenceNumber (Some n)) w
       | None => w
       end)).
Proof.
  intros [Hp Hin]. unfold released.
  destruct k0, (s packet); cbn; rewrite ?elem_of_app; auto.
Qed.

(** X9: a RESUMED, and a READY whose payload [d] is not [null], release the
    senders parked while the shard was off line: for every resolver in the
    offline queue whose promise is still pending, the promise is resolved
    and the parked rest of [send] is put on the microtask queue.  (A READY
    with [d] null throws before the drain.) *)
Theorem X9_drain_releases_parked_senders (packet : DiscordGatewayPayload)
  (k0 : Stack) (w : World) (r : Resolver) (k : Stack)
  (Hd : drains packet = true)
  (Hr : r ∈ offlineSendQueue (shard w))
  (Hp : promises w !! resolver_promise r = Some (Pending k))
  (Hk : k <> []) :
  promises (packet_epilogue packet k0 w) !! resolver_promise r = Some Settled
  /\ k ∈ ready (packet_epilogue packet k0 w).
Proof.
  destruct (drains_cases packet Hd) as [Hn Ht].
  unfold packet_epilogue. rewrite Hn. cbn zeta.
  apply (packet_epilogue_tail_release packet k0 (resolver_promise r) k).
  assert (Hdrain : forall w1 key,
            promises w1 = promises w -> ready w1 = ready w ->
            offlineSendQueue (shard w1) = offlineSendQueue (shard w) ->
            released (resolver_promise r) k
              (resolve_and_delete key (drain_offline_queue w1))).
  { intros w1 key Hpr Hrd Hq.
    apply resolve_and_delete_release; [exact Hk|].
    unfold drain_offline_queue. rewrite Hq.
    apply (drain_release _ (resolver_promise r) k w1 Hk).
    - left. by rewrite Hpr.
    - by exists r. }
  destruct Ht as [Ht | Ht]; rewrite Ht.
  - rewrite bool_decide_eq_false_2 by done.
    rewrite bool_decide_eq_true_2 by done. by apply Hdrain.
  - rewrite bool_decide_eq_true_2 by done. by apply Hdrain.
Qed.

(** *** What a packet leaves alone *)

(** Calling resolvers changes, of the shard, at most the [resolves] map. *)
Lemma call_resolver_shard (r : Resolver) (w : World) :
  exists rs,
    shard (call_resolver r w) = shard_resolves rs (shard w)
    /\ sockets (call_resolver r w) = sockets w
    /\ timers (call_resolver r w) = timers w
    /\ delays (call_resolver r w) = delays w.
Proof.
  exists (resolves (shard (call_resolver r w))).
  destruct r; unfold call_resolver, settle, enqueue;
    repeat case_match; cbn; destruct (shard w); cbn;
    repeat split; reflexivity.
Qed.

Lemma drain_shard (q : list Resolver) (w : World) :
  exists rs,
    shard (foldl (fun w r => call_resolver r (observe (Woken r) w)) w q)
    = shard_resolves rs (shard w)
    /\ sockets (foldl (fun w r => call_resolver r (observe (Woken r) w)) w q)
       = sockets w
    /\ timers (foldl (fun w r => call_resolver r (observe (Woken r) w)) w q)
       = timers w
    /\ delays (foldl (fun w r => call_resolver r (observe (Woken r) w)) w q)
       = delays w.
Proof.
  revert w. induction q as [|r q IH]; intros w; cbn.
  - exists (resolves (shard w)). destruct (shard w). repeat split; reflexivity.
  - destruct (IH (call_resolver r (observe (Woken r) w)))
      as (rs & -> & -> & -> & ->).
    destruct (call_resolver_shard r (observe (Woken r) w))
      as (rs' & -> & -> & -> & ->).
    by exists rs.
Qed.

Lemma resolve_and_delete_shard (key : ResolveKey) (w : World) :
  exists rs,
    shard (resolve_and_delete key w) = shard_resolves rs (shard w)
    /\ sockets (resolve_and_delete key w) = sockets w
    /\ timers (resolve_and_delete key w) = timers w
    /\ delays (resolve_and_delete key w) = delays w.
Proof.
  unfold resolve_and_delete. cbn.
  destruct (resolves (shard w) !! key) as [r|].
  - destruct (call_resolver_shard r w) as (rs & -> & -> & -> & ->).
    eexists. repeat split; reflexivity.
  - exists (delete key (resolves (shard w))). destruct (shard w).
    repeat split; reflexivity.
Qed.

(** The end of [handleDiscordPacket] for a packet that is neither READY nor
    RESUMED. *)
Lemma packet_epilogue_plain (packet : DiscordGatewayPayload) (k : Stack)
  (w : World) :
  t packet <> Some "READY" -> t packet <> Some "RESUMED" ->
  packet_epilogue packet k w
  = enqueue k (emit (message packet)
      match s packet with
      | Some n => with_shard (shard_previousSequenceNumber (Some n)) w
      | None => w
      end).
Proof.
  intros H1 H2. unfold packet_epilogue, null_ready.
  by rewrite !bool_decide_eq_false_2.
Qed.

(** The end of [handleDiscordPacket]: the fields it leaves alone, and the
    sequence number it stores. *)
Lemma packet_epilogue_shard (packet : DiscordGatewayPayload) (k : Stack)
  (w : World) :
  heart (shard (packet_epilogue packet k w)) = heart (shard w)
  /\ bucket (shard (packet_epilogue packet k w)) = bucket (shard w)
  /\ socket (shard (packet_epilogue packet k w)) = socket (shard w)
  /\ sockets (packet_epilogue packet k w) = sockets w
  /\ timers (packet_epilogue packet k w) = timers w
  /\ delays (packet_epilogue packet k w) = delays w
  /\ (null_ready packet = false ->
      previousSequenceNumber (shard (packet_epilogue packet k w))
      = match s packet with
        | Some n => Some n
        | None => previousSequenceNumber (shard w)
        end).
Proof.
  destruct (null_ready packet) eqn:Hn.
  { unfold packet_epilogue. rewrite Hn. unfold reject. cbn.
    by repeat split. }
  cut (heart (shard (packet_epilogue packet k w)) = heart (shard w)
       /\ bucket (shard (packet_epilogue packet k w)) = bucket (shard w)
       /\ socket (shard (packet_epilogue packet k w)) = socket (shard w)
       /\ sockets (packet_epilogue packet k w) = sockets w
       /\ timers (packet_epilogue packet k w) = timers w
       /\ delays (packet_epilogue packet k w) = delays w
       /\ previousSequenceNumber (shard (packet_epilogue packet k w))
          = match s packet with
            | Some n => Some n
            | None => previousSequenceNumber (shard w)
            end).
  { intros (-> & -> & -> & -> & -> & -> & ->). by repeat split. }
  assert (Htail : forall w1,
    let w2 := enqueue k (emit (message packet)
                match s packet with
                | Some n => with_shard (shard_previousSequenceNumber (Some n)) w1
                | None => w1
                end) in
    heart (shard w2) = heart (shard w1)
    /\ bucket (shard w2) = bucket (shard w1)
    /\ socket (shard w2) = socket (shard w1)
    /\ sockets w2 = sockets w1 /\ timers w2 = timers w1
    /\ delays w2 = delays w1
    /\ previousSequenceNumber (shard w2)
       = match s packet with
         | Some n => Some n
         | None => previousSequenceNumber (shard w1)
         end).
  { intros w1. by destruct k, (s packet). }
  assert (Hdrain : forall key w1,
    let w2 := resolve_and_delete key (drain_offline_queue w1) in
    heart (shard w2) = heart (shard w1)
    /\ bucket (shard w2) = bucket (shard w1)
    /\ socket (shard w2) = socket (shard w1)
    /\ sockets w2 = sockets w1 /\ timers w2 = timers w1
    /\ delays w2 = delays w1
    /\ previousSequenceNumber (shard w2) = previousSequenceNumber (shard w1)).
  { intros key w1. cbn zeta. unfold drain_offline_queue.
    destruct (resolve_and_delete_shard key
      (foldl (fun w r => call_resolver r (observe (Woken r) w)) w1
         (offlineSendQueue (shard w1)))) as (rs & -> & -> & -> & ->).
    destruct (drain_shard (offlineSendQueue (shard w1)) w1)
      as (rs' & -> & -> & -> & ->).
    done. }
  unfold packet_epilogue. rewrite Hn. cbn zeta.
  match goal with
  | |- context [enqueue k (emit _ (match _ with Some n => _ ?x | None => _ end))] =>
      destruct (Htail x) as (-> & -> & -> & -> & -> & -> & ->)
  end.
  assert (Hboth : forall key w1,
    heart (shard w1) = heart (shard w) -> bucket (shard w1) = bucket (shard w) ->
    socket (shard w1) = socket (shard w) -> sockets w1 = sockets w ->
    timers w1 = timers w -> delays w1 = delays w ->
    previousSequenceNumber (shard w1) = previousSequenceNumber (shard w) ->
    heart (shard (resolve_and_delete key (drain_offline_queue w1)))
      = heart (shard w)
    /\ bucket (shard (resolve_and_delete key (drain_offline_queue w1)))
       = bucket (shard w)
    /\ socket (shard (resolve_and_delete key (drain_offline_queue w1)))
       = socket (shard w)
    /\ sockets (resolve_and_delete key (drain_offline_queue w1)) = sockets w
    /\ timers (resolve_and_delete key (drain_offline_queue w1)) = timers w
    /\ delays (resolve_and_delete key (drain_offline_queue w1)) = delays w
    /\ match s packet with
       | Some n => Some n
       | None =>
           previousSequenceNumber
             (shard (resolve_and_delete key (drain_offline_queue w1)))
       end
       = match s packet with
         | Some n => Some n
         | None => previousSequenceNumber (shard w)
         end).
  { intros key w1 E1 E2 E3 E4 E5 E6 E7.
    pose proof (Hdrain key w1) as Hx. cbv zeta in Hx.
    destruct Hx as (-> & -> & -> & -> & -> & -> & ->).
    by rewrite E1, E2, E3, E4, E5, E6, E7. }
  repeat case_bool_decide; cbv iota; try (by apply Hboth); done.
Qed.

(** X10: the sequence counter after a packet.  For every packet whose case
    of the [switch] ends without an [await] (any opcode but Reconnect and
    InvalidSession; a Heartbeat request only on an open socket) and whose
    payload is read without a throw (neither a Hello nor a READY with [d]
    null), [previousSequenceNumber] is [s] when [s] is not [null], zero
    included, and is left as it was when [s] is [null]. *)
Theorem X10_sequence_counter (packet : DiscordGatewayPayload) (now : Z)
  (rnd : Q) (k : Stack) (w : World)
  (Hnh : null_hello packet = false) (Hnr : null_ready packet = false)
  (Hr : op packet <> Reconnect) (Hi : op packet <> InvalidSession)
  (Ho : op packet = Heartbeat -> isOpen w = true) :
  previousSequenceNumber (shard (handleDiscordPacket packet now rnd k w))
  = match s packet with
    | Some n => Some n
    | None => previousSequenceNumber (shard w)
    end.
Proof.
  unfold handleDiscordPacket. cbn zeta.
  destruct (op packet) eqn:E; try done;
    try (rewrite (isOpen_same w) by reflexivity; rewrite Ho by done;
         cbn [negb]);
    try (rewrite (null_hello_Hello packet E) in Hnh; rewrite Hnh);
    match goal with
    | |- context [packet_epilogue packet k ?x] =>
        let Hps := fresh in
        destruct (packet_epilogue_shard packet k x)
          as (_ & _ & _ & _ & _ & _ & Hps);
        rewrite (Hps Hnr)
    end;
    unfold socket_send, startHeartbeating; by repeat case_match.
Qed.

(** *** Hello *)

#[local] Arguments jitter : simpl never.
#[local] Arguments calculateSafeRequests : simpl never.
#[local] Arguments hello_interval : simpl never.

(** What [startHeartbeating] writes up to its [setTimeout]. *)
Lemma startHeartbeating_effect (itv : Z) (rnd : Q) (w : World) :
  let w' := startHeartbeating itv rnd w in
  heart (shard w')
  = Build_ShardHeart (acknowledged (heart (shard w))) itv
      (lastBeat (heart (shard w))) (lastAck (heart (shard w)))
      (rtt (heart (shard w))) (Some (length (timers w)))
      (intervalId (heart (shard w)))
  /\ state (shard w')
     = (if bool_decide (state (shard w) = Disconnected)
           || bool_decide (state (shard w) = Offline)
        then Unidentified else state (shard w))
  /\ bucket (shard w') = bucket (shard w)
  /\ timers w' = timers w ++ [Build_Timer JitterTimeout (jitter itv rnd) true]
  /\ trace w' = trace w.
Proof.
  destruct w as [sh so ti pr de re tr]. destruct sh. cbn.
  unfold startHeartbeating. cbn.
  by repeat case_bool_decide; cbn.
Qed.

(** The end of [handleDiscordPacket] for a packet that is neither READY nor
    RESUMED. *)
Lemma packet_epilogue_plain_fields (packet : DiscordGatewayPayload)
  (k : Stack) (w : World) :
  t packet <> Some "READY" -> t packet <> Some "RESUMED" ->
  heart (shard (packet_epilogue packet k w)) = heart (shard w)
  /\ state (shard (packet_epilogue packet k w)) = state (shard w)
  /\ bucket (shard (packet_epilogue packet k w)) = bucket (shard w)
  /\ timers (packet_epilogue packet k w) = timers w
  /\ trace (packet_epilogue packet k w)
     = trace w ++ [Emitted (message packet)]
  /\ calculateSafeRequests (shard (packet_epilogue packet k w))
     = calculateSafeRequests (shard w).
Proof.
  intros H1 H2. rewrite packet_epilogue_plain by done.
  by destruct k, (s packet).
Qed.


(** X11: a Hello packet whose payload carries the heartbeat interval
    records that interval, moves a shard that is Disconnected or Offline to
    Unidentified, and sets one new timer, the jitter timeout (the ceiling
    of the product of doubles [interval * (random() || 0.5)]), without
    clearing or changing any timer set before; no heartbeat is sent yet.
    Unless the shard is resuming, the bucket is rebuilt with
    [calculateSafeRequests()] as its size and refill amount; the waiters of
    the old bucket are kept in either case. *)
Theorem X11_hello_starts_heartbeat (packet : DiscordGatewayPayload)
  (itv : Z) (now : Z) (rnd : Q) (k : Stack) (w : World)
  (Hop : op packet = Hello)
  (Hd : d packet = DHello itv)
  (Ht : t packet <> Some "READY" /\ t packet <> Some "RESUMED") :
  interval (heart (shard (handleDiscordPacket packet now rnd k w)))
    = itv
  /\ state (shard (handleDiscordPacket packet now rnd k w))
     = (if bool_decide (state (shard w) = Disconnected)
           || bool_decide (state (shard w) = Offline)
        then Unidentified else state (shard w))
  /\ timers (handleDiscordPacket packet now rnd k w)
     = timers w
       ++ [Build_Timer JitterTimeout (jitter itv rnd) true]
  /\ timeoutId (heart (shard (handleDiscordPacket packet now rnd k w)))
     = Some (length (timers w))
  /\ waiting (bucket (shard (handleDiscordPacket packet now rnd k w)))
     = waiting (bucket (shard w))
  /\ (state (shard w) = Resuming ->
      bucket (shard (handleDiscordPacket packet now rnd k w))
        = bucket (shard w))
  /\ (state (shard w) <> Resuming ->
      bucket (shard (handleDiscordPacket packet now rnd k w))
        = createLeakyBucket
            (calculateSafeRequests
               (shard (handleDiscordPacket packet now rnd k w)))
            60000
            (calculateSafeRequests
               (shard (handleDiscordPacket packet now rnd k w)))
            (waiting (bucket (shard w))))
  /\ trace (handleDiscordPacket packet now rnd k w)
     = trace w ++ [Emitted hello; Emitted (message packet)].
Proof.
  destruct Ht as [Ht1 Ht2].
  assert (Hn : is_null (d packet) = false) by (by rewrite Hd).
  assert (Hitv : hello_interval (d packet) = itv) by (by rewrite Hd).
  rewrite <- Hitv. clear Hitv Hd.
  assert (Hw : exists w0 w2,
    handleDiscordPacket packet now rnd k w
    = packet_epilogue packet k (emit hello w2)
    /\ state (shard w0) = state (shard w) /\ bucket (shard w0) = bucket (shard w)
    /\ timers w0 = timers w /\ trace w0 = trace w
    /\ w2 = (let w1 := startHeartbeating (hello_interval (d packet)) rnd w0 in
             if negb (bool_decide (state (shard w1) = Resuming)) then
               set_bucket
                 (createLeakyBucket (calculateSafeRequests (shard w1)) 60000
                    (calculateSafeRequests (shard w1))
                    (waiting (bucket (shard w1)))) w1
             else w1)).
  { exists (set_heart (heart_after_packet now (heart (shard w))) w).
    eexists. split; [|split; [|split; [|split; [|split]]]];
      [|reflexivity..].
    unfold handleDiscordPacket. rewrite Hop, Hn. reflexivity. }
  destruct Hw as (w0 & w2 & -> & S0 & B0 & Ti0 & Tr0 & E2).
  destruct (packet_epilogue_plain_fields packet k (emit hello w2) Ht1 Ht2)
    as (-> & -> & -> & -> & -> & ->).
  destruct (startHeartbeating_effect (hello_interval (d packet)) rnd w0)
    as (Hh & Hs & Hb & Hti & Htr).
  cbv zeta in *. rewrite S0 in Hs. rewrite B0 in Hb. rewrite Ti0 in Hti, Hh.
  rewrite Tr0 in Htr.
  set (w1 := startHeartbeating (hello_interval (d packet)) rnd w0) in *.
  clearbody w1.
  assert (Hsafe : calculateSafeRequests (shard (emit hello w2))
                  = calculateSafeRequests (shard w1)).
  { subst w2. by destruct (negb _). }
  rewrite Hsafe.
  assert (Hiff : state (shard w1) = Resuming <-> state (shard w) = Resuming).
  { rewrite Hs. destruct (state (shard w)); cbn; split; intros; done. }
  subst w2. case_bool_decide as Hres; cbn [negb];
    cbn [emit observe set_bucket with_shard shard_bucket with_trace shard
         heart state bucket timers trace interval timeoutId waiting
         createLeakyBucket];
    rewrite ?Hh, ?Hs, ?Hb, ?Hti, ?Htr, <- ?app_assoc; cbn [interval timeoutId];
    (split; [|split; [|split; [|split; [|split; [|split; [|split]]]]]]);
    try reflexivity; intros Hst; try reflexivity; tauto.
Qed.

(** *** READY *)

Lemma settle_keeps (p : nat) (w : World) :
  shard (settle p w) = shard w /\ trace (settle p w) = trace w
  /\ sockets (settle p w) = sockets w /\ timers (settle p w) = timers w
  /\ delays (settle p w) = delays w.
Proof.
  unfold settle, enqueue. by repeat case_match.
Qed.

(** A stored resolver that is found is called and removed. *)
Lemma resolve_and_delete_found (key : ResolveKey) (r : Resolver) (w : World) :
  resolves (shard w) !! key = Some r ->
  shard (resolve_and_delete key w)
  = shard_resolves
      (delete key
         match r with
         | ResolveInvalid other _ => delete other (resolves (shard w))
         | _ => resolves (shard w)
         end) (shard w)
  /\ trace (resolve_and_delete key w)
     = trace w ++ match r with
                  | ResolveReady _ => [Emitted identified]
                  | _ => []
                  end
  /\ sockets (resolve_and_delete key w) = sockets w
  /\ timers (resolve_and_delete key w) = timers w
  /\ delays (resolve_and_delete key w) = delays w
  /\ (forall k0, k0 <> [] ->
        parked_or_released (resolver_promise r) k0 w ->
        released (resolver_promise r) k0 (resolve_and_delete key w)).
Proof.
  intros Hr. unfold resolve_and_delete. rewrite Hr. cbn.
  assert (Hrel : forall k0, k0 <> [] ->
            parked_or_released (resolver_promise r) k0 w ->
            released (resolver_promise r) k0 (call_resolver r w)).
  { intros k0 Hk0 Hw.
    by apply (call_resolver_release r (resolver_promise r) k0 w Hk0). }
  split; [|split; [|split; [|split; [|split]]]]; [..|exact Hrel]; clear Hrel;
    destruct r as [q | q | other q]; cbn [call_resolver].
  all: match goal with
       | |- context [settle ?q ?x] =>
           destruct (settle_keeps q x) as (E1 & E2 & E3 & E4 & E5);
           rewrite ?E1, ?E2, ?E3, ?E4, ?E5
       end.
  all: cbn; rewrite ?app_nil_r; try done.
  all: by destruct (shard w).
Qed.

(** The drain of a queue of bare resolvers leaves the shard as it is. *)
Lemma drain_plain_shard (q : list Resolver) (w : World) :
  forallb is_plain q = true ->
  shard (foldl (fun w r => call_resolver r (observe (Woken r) w)) w q)
  = shard w.
Proof.
  revert w. induction q as [|r q IH]; intros w; cbn; [done|].
  rewrite andb_true_iff. intros [Hr Hq].
  rewrite IH by done. destruct r; try done. cbn.
  by destruct (settle_keeps promise (observe (Woken (ResolvePlain promise)) w))
    as (-> & _).
Qed.

(** X12: READY completes [identify()].  With identify's READY resolver in
    the [resolves] map and its promise pending, a READY packet whose
    payload carries a session id and a resume url stores both, sets the
    state to Connected, calls [identified], removes the READY entry,
    resolves the promise and puts the caller of [identify()] on the
    microtask queue. *)
Theorem X12_ready_completes_identify (packet : DiscordGatewayPayload)
  (sid rurl : string) (k : Stack) (w : World) (p : nat) (k0 : Stack)
  (Ht : t packet = Some "READY")
  (Hd : d packet = DReady sid rurl)
  (Hr : resolves (shard w) !! READY = Some (ResolveReady p))
  (Hp : promises w !! p = Some (Pending k0))
  (Hk0 : k0 <> [])
  (Hq : forallb is_plain (offlineSendQueue (shard w)) = true) :
  state (shard (packet_epilogue packet k w)) = Connected
  /\ sessionId (shard (packet_epilogue packet k w)) = Some sid
  /\ resumeGatewayUrl (shard (packet_epilogue packet k w)) = rurl
  /\ resolves (shard (packet_epilogue packet k w)) !! READY = None
  /\ promises (packet_epilogue packet k w) !! p = Some Settled
  /\ k0 ∈ ready (packet_epilogue packet k w)
  /\ Emitted identified ∈ trace (packet_epilogue packet k w).
Proof.
  assert (Hn : null_ready packet = false).
  { unfold null_ready. rewrite Hd. apply andb_false_r. }
  unfold packet_epilogue. rewrite Hn. cbn zeta. rewrite Ht, Hd.
  cbn [ready_session_id ready_resume_url].
  rewrite bool_decide_eq_false_2 by done.
  rewrite bool_decide_eq_true_2 by done.
  set (wb := set_state Connected _).
  set (wd := drain_offline_queue wb).
  assert (Hsh : shard wd = shard wb).
  { subst wd. unfold drain_offline_queue. by apply drain_plain_shard. }
  assert (Hpark : parked_or_released p k0 wd).
  { subst wd. unfold drain_offline_queue.
    apply (drain_release _ p k0 wb Hk0). by left. }
  destruct (resolve_and_delete_found READY (ResolveReady p) wd)
    as (Hs & Htr & _ & _ & _ & Hrel).
  { by rewrite Hsh. }
  specialize (Hrel k0 Hk0 Hpark).
  set (wr := resolve_and_delete READY wd) in *.
  destruct (packet_epilogue_tail_release packet k p k0 wr Hrel) as [Hset Hin].
  clearbody wr wd.
  split; [|split; [|split; [|split; [|split; [|split]]]]];
    try exact Hset; try exact Hin.
  - destruct k, (s packet); cbn; by rewrite Hs, Hsh.
  - destruct k, (s packet); cbn; by rewrite Hs, Hsh.
  - destruct k, (s packet); cbn; by rewrite Hs, Hsh.
  - destruct k, (s packet); cbn; rewrite Hs; cbn; apply lookup_delete_eq.
  - destruct k, (s packet); cbn; rewrite Htr, !elem_of_app;
      left; right; by apply list_elem_of_singleton.
Qed.

(** *** After the back-off *)

Lemma identify_parks (k : Stack) (w : World) :
  can_identify w = true ->
  exists sk,
    sockets (identify k w) !! length (sockets w) = Some sk
    /\ readyState sk = CONNECTING
    /\ onopen sk = Some (KIdentifyConnected :: k).
Proof.
  intros Hc.
  destruct (identify_effect k w Hc) as (before & Hs & _ & Hlen & _).
  eexists. rewrite Hs.
  split; [rewrite <- Hlen; by apply list_lookup_middle|]. done.
Qed.

Lemma identify_fails (k : Stack) (w : World) :
  can_identify w = false ->
  length (sockets (identify k w)) = length (sockets w)
  /\ exists msg, last (trace (identify k w)) = Some (rejection msg k).
Proof.
  intros Hc.
  destruct (identify_rejected k w Hc) as (msg & Hs & _ & _ & _ & _ & _ & _ & Ht).
  rewrite Hs, Ht.
  destruct (close_keeps ReIdentifying
              "Re-identifying closure of old connection." w) as (_ & -> & _).
  split; [done|]. exists msg. by rewrite !last_app.
Qed.

Lemma resume_closed_can (w : World) :
  let w1 := if isOpen w
            then close ResumeClosingOldConnection
                   "Reconnecting the shard, closing old connection." w
            else w in
  can_identify w1 = can_identify w
  /\ length (sockets w1) = length (sockets w).
Proof.
  cbv zeta. destruct (isOpen w); [|done].
  destruct (close_keeps ResumeClosingOldConnection
    "Reconnecting the shard, closing old connection." w) as (Hsh & -> & _).
  split; [|done].
  by destruct (can_connect_fields w (close ResumeClosingOldConnection
    "Reconnecting the shard, closing old connection." w)) as [-> _];
    rewrite ?Hsh.
Qed.

Lemma resume_parks (k : Stack) (w : World) :
  (if truthy_string (sessionId (shard w)) then can_resume w
   else can_identify w) = true ->
  exists sk,
    sockets (resume k w) !! length (sockets w) = Some sk
    /\ readyState sk = CONNECTING
    /\ onopen sk
       = Some ((if truthy_string (sessionId (shard w))
                then KResumeConnected else KIdentifyConnected) :: k).
Proof.
  destruct (truthy_string (sessionId (shard w))) eqn:Hs; intros Hc.
  - destruct (resume_effect k w Hs Hc) as (before & Hsk & _ & Hlen & _).
    eexists. rewrite Hsk.
    split; [rewrite <- Hlen; by apply list_lookup_middle|]. done.
  - destruct (resume_without_session k w Hs) as (-> & _).
    destruct (resume_closed_can w) as [Hcan Hlen]. cbv zeta in *.
    rewrite <- Hlen. apply identify_parks. by rewrite Hcan.
Qed.

Lemma resume_fails (k : Stack) (w : World) :
  (if truthy_string (sessionId (shard w)) then can_resume w
   else can_identify w) = false ->
  length (sockets (resume k w)) = length (sockets w)
  /\ exists msg, last (trace (resume k w)) = Some (rejection msg k).
Proof.
  destruct (truthy_string (sessionId (shard w))) eqn:Hs; intros Hc.
  - destruct (resume_rejects k w Hs Hc) as (msg & _ & Hso & _ & _ & Ht).
    rewrite Hso, Ht.
    destruct (close_keeps ResumeClosingOldConnection
      "Reconnecting the shard, closing old connection." w) as (_ & -> & _).
    split; [done|]. exists msg. by rewrite last_app.
  - destruct (resume_without_session k w Hs) as (-> & _).
    destruct (resume_closed_can w) as [Hcan Hlen]. cbv zeta in *.
    rewrite <- Hlen. apply identify_fails. by rewrite Hcan.
Qed.

(** X13: when the back-off after an InvalidSession packet has elapsed, the
    INVALID_SESSION resolver of the identify or resume in flight is called
    and removed together with the entry it cancels: that call is resolved
    and its caller put on the microtask queue.  Then the shard starts over:
    with [resume()] when the packet says the session can be resumed and a
    session id is stored, with [identify()] otherwise.  When the
    [connect()] of that call accepts its url the rest of the handler is
    parked on a new connecting socket; when it throws, no socket is made
    and the handler is rejected. *)
Theorem X13_invalid_session_starts_over (packet : DiscordGatewayPayload)
  (k : Stack) (w : World) (other : ResolveKey) (p : nat) (k0 : Stack)
  (Hr : resolves (shard w) !! INVALID_SESSION = Some (ResolveInvalid other p))
  (Hp : promises w !! p = Some (Pending k0))
  (Hk0 : k0 <> []) :
  promises (invalidSession_delayed packet k w) !! p = Some Settled
  /\ k0 ∈ ready (invalidSession_delayed packet k w)
  /\ resolves (shard (invalidSession_delayed packet k w)) !! INVALID_SESSION
     = None
  /\ resolves (shard (invalidSession_delayed packet k w)) !! other = None
  /\ state (shard (invalidSession_delayed packet k w))
     = (if truthy_data (d packet) && truthy_string (sessionId (shard w))
        then Resuming else Identifying)
  /\ ((if truthy_data (d packet) && truthy_string (sessionId (shard w))
       then can_resume w else can_identify w) = true ->
      exists sk,
        sockets (invalidSession_delayed packet k w) !! length (sockets w)
          = Some sk
        /\ readyState sk = CONNECTING
        /\ onopen sk
           = Some ((if truthy_data (d packet)
                       && truthy_string (sessionId (shard w))
                    then KResumeConnected else KIdentifyConnected)
                   :: KPacketEpilogue packet :: k))
  /\ ((if truthy_data (d packet) && truthy_string (sessionId (shard w))
       then can_resume w else can_identify w) = false ->
      length (sockets (invalidSession_delayed packet k w))
      = length (sockets w)
      /\ exists msg,
           last (trace (invalidSession_delayed packet k w))
           = Some (rejection msg k)).
Proof.
  unfold invalidSession_delayed.
  destruct (resolve_and_delete_found INVALID_SESSION (ResolveInvalid other p) w Hr)
    as (Hs & _ & Hso & _ & _ & Hrel).
  destruct (Hrel k0 Hk0) as [Hset Hin]; [by left|]. clear Hrel.
  set (w1 := resolve_and_delete INVALID_SESSION w) in *.
  assert (Hres : resolves (shard w1) !! INVALID_SESSION = None
                 /\ resolves (shard w1) !! other = None).
  { rewrite Hs. cbn. split; [apply lookup_delete_eq|].
    destruct (decide (INVALID_SESSION = other)) as [<-|Hne];
      [apply lookup_delete_eq|].
    rewrite lookup_delete_ne by done. apply lookup_delete_eq. }
  assert (Hsid : sessionId (shard w1) = sessionId (shard w)) by (by rewrite Hs).
  destruct (can_connect_fields w w1) as [Hci Hcr]; [by rewrite Hs..|].
  clearbody w1. destruct Hres as [Hr1 Hr2].
  destruct (truthy_data (d packet)); cbn [negb andb].
  - destruct (resume_frame (KPacketEpilogue packet :: k) w1)
      as (_ & _ & _ & Hrd & (Hpr & Hrs & _) & _ & Hst).
    rewrite Hpr, Hrd, Hrs, Hst, Hsid.
    do 5 (split; [done|]).
    pose proof (resume_parks (KPacketEpilogue packet :: k) w1) as Hpk.
    pose proof (resume_fails (KPacketEpilogue packet :: k) w1) as Hfl.
    rewrite Hsid, Hci, Hcr, Hso in *. done.
  - destruct (identify_frame (KPacketEpilogue packet :: k) w1)
      as (Hst & _ & _ & _ & _ & (_ & Hrs & _) & Hrd & _).
    rewrite identify_promises, Hrd, Hrs, Hst.
    do 5 (split; [done|]).
    pose proof (identify_parks (KPacketEpilogue packet :: k) w1) as Hpk.
    pose proof (identify_fails (KPacketEpilogue packet :: k) w1) as Hfl.
    rewrite Hci, Hso in *. done.
Qed.

(** *** The send path *)

Lemma run_app (es1 es2 : list Event) (w : World) :
  run (es1 ++ es2) w = run es1 w ≫= run es2.
Proof.
  revert w. induction es1 as [|e es1 IH]; intros w; cbn; [done|].
  by destruct (step e w).
Qed.

Lemma step_microtask (f : Frame) (k : Stack) (rest : list Stack) (w : World) :
  ready w = (f :: k) :: rest ->
  step Microtask w = Some (run_frame f k (with_ready rest w)).
Proof. intros Hr. cbn. by rewrite Hr. Qed.

Lemma send_online_effect m hp (k : Stack) (w : World) :
  ready w = [KSendOnline m hp :: k] -> 1 <= tokens (bucket (shard w)) ->
  exists w1,
    step Microtask w = Some w1
    /\ ready w1 = [KSendToken m hp :: k]
    /\ shard w1
       = shard_bucket
           (Build_LeakyBucket (max (bucket (shard w)))
              (refillInterval (bucket (shard w)))
              (refillAmount (bucket (shard w)))
              (tokens (bucket (shard w)) - 1) (waiting (bucket (shard w))))
           (shard w)
    /\ sockets w1 = sockets w /\ promises w1 = promises w
    /\ trace w1 = trace w.
Proof.
  intros Hr Ht. rewrite (step_microtask _ _ _ _ Hr). eexists.
  split; [reflexivity|]. cbn [run_frame].
  unfold send_online, bucket_acquire. cbn [shard with_ready].
  apply Z.leb_le in Ht. rewrite Ht. by cbn.
Qed.

Lemma send_token_effect m hp (k : Stack) (w : World) :
  ready w = [KSendToken m hp :: k] -> isOpen w = true ->
  exists w1,
    step Microtask w = Some w1
    /\ ready w1 = [KSendTransmit m :: k]
    /\ shard w1 = shard w /\ sockets w1 = sockets w
    /\ promises w1 = promises w /\ trace w1 = trace w.
Proof.
  intros Hr Ho. rewrite (step_microtask _ _ _ _ Hr). eexists.
  split; [reflexivity|]. cbn [run_frame]. unfold send_token, checkOffline.
  rewrite (isOpen_same w) by reflexivity. rewrite Ho. by cbn.
Qed.

Lemma send_transmit_effect m (k : Stack) (i : nat) (w : World) :
  ready w = [KSendTransmit m :: k] -> isOpen w = true ->
  socket (shard w) = Some i ->
  exists w1,
    step Microtask w = Some w1
    /\ ready w1 = match k with [] => [] | _ => [k] end
    /\ shard w1 = shard w /\ sockets w1 = sockets w
    /\ promises w1 = promises w
    /\ trace w1 = trace w ++ [Transmitted i (WireRequest m)].
Proof.
  intros Hr Ho Hi. rewrite (step_microtask _ _ _ _ Hr). eexists.
  split; [reflexivity|]. cbn [run_frame]. unfold send_transmit, socket_send.
  rewrite (isOpen_same w) by reflexivity. rewrite Ho. cbn. rewrite Hi.
  by destruct k.
Qed.

Lemma return_effect (c : nat) (w : World) :
  ready w = [[KReturn c]] ->
  exists w1,
    step Microtask w = Some w1
    /\ ready w1 = [] /\ shard w1 = shard w /\ sockets w1 = sockets w
    /\ promises w1 = promises w /\ trace w1 = trace w ++ [Returned c].
Proof.
  intros Hr. rewrite (step_microtask _ _ _ _ Hr). eexists.
  split; [reflexivity|]. by cbn.
Qed.

(** The three microtasks of a [send] that is past its first gate. *)
Lemma send_microtasks_effect m hp (k : Stack) (i : nat) (w : World) :
  ready w = [KSendOnline m hp :: k] -> isOpen w = true ->
  socket (shard w) = Some i -> 1 <= tokens (bucket (shard w)) ->
  exists w3,
    run [Microtask; Microtask; Microtask] w = Some w3
    /\ ready w3 = match k with [] => [] | _ => [k] end
    /\ shard w3
       = shard_bucket
           (Build_LeakyBucket (max (bucket (shard w)))
              (refillInterval (bucket (shard w)))
              (refillAmount (bucket (shard w)))
              (tokens (bucket (shard w)) - 1) (waiting (bucket (shard w))))
           (shard w)
    /\ sockets w3 = sockets w /\ promises w3 = promises w
    /\ trace w3 = trace w ++ [Transmitted i (WireRequest m)].
Proof.
  intros Hr Ho Hi Ht.
  destruct (send_online_effect m hp k w Hr Ht)
    as (w1 & S1 & R1 & Sh1 & So1 & P1 & T1).
  assert (Ho1 : isOpen w1 = true).
  { rewrite (isOpen_same w); [done | by rewrite Sh1 | done]. }
  destruct (send_token_effect m hp k w1 R1 Ho1)
    as (w2 & S2 & R2 & Sh2 & So2 & P2 & T2).
  assert (Ho2 : isOpen w2 = true).
  { rewrite (isOpen_same w1); [done | by rewrite Sh2 | done]. }
  destruct (send_transmit_effect m k i w2 R2 Ho2)
    as (w3 & S3 & R3 & Sh3 & So3 & P3 & T3).
  { by rewrite Sh2, Sh1. }
  exists w3. split.
  - repeat (eapply run_cons; [eassumption|]). reflexivity.
  - rewrite R3, Sh3, Sh2, Sh1, So3, So2, So1, P3, P2, P1, T3, T2, T1. done.
Qed.

(** X14: [send] on an open shard with a token in the bucket puts the
    message on the wire of the current socket exactly once, takes exactly
    one token, and then returns to its caller; [send] on a shard that is not
    open transmits nothing and takes no token: it parks behind a new
    promise whose resolver goes to the front of the offline queue when the
    message has high priority and to its back otherwise. *)
Theorem X14_send_takes_one_token (m : ShardSocketRequest) (hp : bool)
  (c : nat) (w : World) :
  (isOpen w = true -> ready w = [] -> 1 <= tokens (bucket (shard w)) ->
   exists i w',
     socket (shard w) = Some i
     /\ run [Microtask; Microtask; Microtask; Microtask]
          (send m hp [KReturn c] w) = Some w'
     /\ trace w' = trace w ++ [Transmitted i (WireRequest m); Returned c]
     /\ tokens (bucket (shard w')) = tokens (bucket (shard w)) - 1
     /\ offlineSendQueue (shard w') = offlineSendQueue (shard w)
     /\ promises w' = promises w
     /\ ready w' = [])
  /\ (isOpen w = false ->
      offlineSendQueue (shard (send m hp [KReturn c] w))
      = (if hp
         then ResolvePlain (length (promises w)) :: offlineSendQueue (shard w)
         else offlineSendQueue (shard w) ++ [ResolvePlain (length (promises w))])
      /\ promises (send m hp [KReturn c] w)
         = promises w ++ [Pending [KSendOnline m hp; KReturn c]]
      /\ bucket (shard (send m hp [KReturn c] w)) = bucket (shard w)
      /\ ready (send m hp [KReturn c] w) = ready w
      /\ trace (send m hp [KReturn c] w) = trace w).
Proof.
  split.
  - intros Ho Hr Ht. destruct (isOpen_socket w Ho) as [i Hi]. exists i.
    set (w0 := send m hp [KReturn c] w).
    assert (Hw0 : ready w0 = [[KSendOnline m hp; KReturn c]]
                 /\ shard w0 = shard w /\ sockets w0 = sockets w
                 /\ promises w0 = promises w /\ trace w0 = trace w).
    { subst w0. unfold send, checkOffline. rewrite Ho. cbn. by rewrite Hr. }
    destruct Hw0 as (R0 & Sh0 & So0 & P0 & T0).
    destruct (send_microtasks_effect m hp [KReturn c] i w0 R0)
      as (w3 & S3 & R3 & Sh3 & So3 & P3 & T3).
    { rewrite (isOpen_same w); [done | by rewrite Sh0 | done]. }
    { by rewrite Sh0. }
    { by rewrite Sh0. }
    destruct (return_effect c w3 R3) as (w4 & S4 & R4 & Sh4 & So4 & P4 & T4).
    exists w4. split; [done|]. split.
    + change [Microtask; Microtask; Microtask; Microtask]
        with ([Microtask; Microtask; Microtask] ++ [Microtask]).
      rewrite run_app, S3. cbn [mbind option_bind run]. by rewrite S4.
    + rewrite T4, T3, T0, Sh4, Sh3, Sh0, P4, P3, P0, R4. cbn.
      by rewrite <- app_assoc.
  - intros Ho. unfold send, checkOffline, new_promise. rewrite Ho.
    by destruct hp.
Qed.

(** *** identify, from the call to the payload on the wire *)

(** The open signal of the socket a [connect()] is parked on, during a
    handshake. *)
Lemma open_parked_effect (k : Stack) (w : World) (before : list WebSocket)
  (addr : SocketUrl) :
  ready w = [] -> k <> [] ->
  sockets w = before ++ [Build_WebSocket CONNECTING addr (Some k) None] ->
  socket (shard w) = Some (length before) ->
  in_handshake w = true ->
  exists w1,
    step (SocketOpen (length before)) w = Some w1
    /\ ready w1 = [k] /\ isOpen w1 = true /\ shard w1 = shard w
    /\ promises w1 = promises w
    /\ trace w1 = trace w ++ [Emitted connected].
Proof.
  intros Hr Hk Hsk Hso Hh.
  assert (Hn : sockets w !! length before
               = Some (Build_WebSocket CONNECTING addr (Some k) None)).
  { rewrite Hsk. by apply list_lookup_middle. }
  cbn [step]. rewrite Hr, Hn. cbn.
  eexists. split; [reflexivity|].
  unfold socket_onopen, set_readyState. rewrite Hn.
  assert (Hh' : forall x, in_handshake (with_sockets x w) = true)
    by (intros; exact Hh).
  rewrite Hh'. destruct k; [done|]. cbn. rewrite Hr.
  split; [done|]. split; [|done].
  eapply isOpen_intro; cbn;
    [exact Hso
    | apply list_lookup_insert_eq; by eapply lookup_lt_Some
    | reflexivity].
Qed.

(** The continuations of [identify()] between the open signal and [send]:
    after three microtasks the Identify payload is in [send], the resolvers
    are stored and the caller is parked. *)
Lemma identify_continuations_effect (k : Stack) (w : World) :
  ready w = [KIdentifyConnected :: k] -> isOpen w = true ->
  exists w3,
    run [Microtask; Microtask; Microtask] w = Some w3
    /\ ready w3
       = [[KSendOnline
             (ReqIdentify ("Bot " ++ token (connection (shard w)))%string
                (compress (connection (shard w)))
                (properties (connection (shard w)))
                (intents (connection (shard w))) (id (shard w))
                (totalShards (connection (shard w))) None) true]]
    /\ shard w3
       = shard_resolves
           (<[INVALID_SESSION := ResolveInvalid READY (length (promises w))]>
              (<[READY := ResolveReady (length (promises w))]>
                 (resolves (shard w)))) (shard w)
    /\ sockets w3 = sockets w
    /\ promises w3 = promises w ++ [Pending k]
    /\ trace w3 = trace w.
Proof.
  intros Hr Ho.
  eexists. split.
  - eapply run_cons; [exact (step_microtask _ _ _ _ Hr)|].
    cbn [run_frame]. unfold identify_connected, requestIdentify.
    cbn [enqueue with_ready ready app].
    eapply run_cons; [by apply step_microtask|].
    cbn [run_frame]. unfold identify_permitted.
    cbn [enqueue with_ready ready app].
    eapply run_cons; [by apply step_microtask|].
    reflexivity.
  - cbn [run_frame]. unfold identify_presence, send, checkOffline.
    rewrite (isOpen_same w) by reflexivity. rewrite Ho.
    cbn. by repeat split.
Qed.

(** X15: [identify()] from the call to the wire.  On a shard with an idle
    event loop and a token in the bucket, whose [connect()] accepts the
    configured url, the call and the open signal of the new socket,
    followed by microtasks until the queue is empty again, put
    exactly one payload on the wire of the new socket: Identify, with the
    token prefixed by [Bot], the configured intents, the shard id and the
    number of shards, and no presence.  The caller is then parked behind a
    new promise, whose resolver is stored under READY and under
    INVALID_SESSION; the state is still Identifying and one token is
    gone. *)
Theorem X15_identify_puts_identify_on_the_wire (c : nat) (w : World)
  (Hr : ready w = [])
  (Ht : 1 <= tokens (bucket (shard w)))
  (Hc : can_identify w = true) :
  let n := length (sockets w) in
  let p := length (promises w) in
  let cfg := connection (shard w) in
  exists m w',
    run (SocketOpen n :: replicate m Microtask) (identify [KReturn c] w)
    = Some w'
    /\ ready w' = []
    /\ trace w'
       = trace w
         ++ (if isOpen w then [Logged "CLOSING EXISTING SHARD"] else [])
         ++ [Emitted identifying; Emitted connecting; Emitted connected;
             Transmitted n
               (WireRequest
                  (ReqIdentify ("Bot " ++ token cfg)%string (compress cfg)
                     (properties cfg) (intents cfg) (id (shard w))
                     (totalShards cfg) None))]
    /\ promises w' = promises w ++ [Pending [KReturn c]]
    /\ resolves (shard w') !! READY = Some (ResolveReady p)
    /\ resolves (shard w') !! INVALID_SESSION = Some (ResolveInvalid READY p)
    /\ state (shard w') = Identifying
    /\ tokens (bucket (shard w')) = tokens (bucket (shard w)) - 1.
Proof.
  intros n p cfg.
  destruct (identify_effect [KReturn c] w Hc)
    as (before & Hs & _ & Hlen & Hsh & _ & Hre & Hp & _ & _ & Htr).
  destruct (open_parked_effect [KIdentifyConnected; KReturn c]
              (identify [KReturn c] w) before _ ltac:(by rewrite Hre, Hr)
              ltac:(done) Hs)
    as (w1 & S1 & R1 & O1 & Sh1 & P1 & T1).
  { by rewrite Hsh, Hlen. }
  { unfold in_handshake. by rewrite Hsh. }
  destruct (identify_continuations_effect [KReturn c] w1 R1 O1)
    as (w4 & S4 & R4 & Sh4 & So4 & P4 & T4).
  assert (Hso4 : socket (shard w4) = Some n) by (by rewrite Sh4, Sh1, Hsh).
  destruct (send_microtasks_effect _ true [] n w4 R4)
    as (w7 & S7 & R7 & Sh7 & So7 & P7 & T7); [|done|..].
  { rewrite (isOpen_same w1); [done | by rewrite Sh4 | done]. }
  { by rewrite Sh4, Sh1, Hsh. }
  exists 6%nat, w7.
  split; [|split; [done|split; [|split; [|split; [|split; [|split]]]]]].
  - cbn [replicate]. rewrite Hlen in S1. eapply run_cons; [exact S1|].
    change [Microtask; Microtask; Microtask; Microtask; Microtask; Microtask]
      with ([Microtask; Microtask; Microtask]
            ++ [Microtask; Microtask; Microtask]).
    by rewrite run_app, S4.
  - rewrite T7, T4, T1, Htr, Sh1, Hsh. cbn.
    by rewrite <- !app_assoc.
  - by rewrite P7, P4, P1, Hp.
  - rewrite Sh7, Sh4, P1, Hp. cbn.
    rewrite lookup_insert_ne by done. apply lookup_insert_eq.
  - rewrite Sh7, Sh4, P1, Hp. cbn. apply lookup_insert_eq.
  - by rewrite Sh7, Sh4, Sh1, Hsh.
  - by rewrite Sh7, Sh4, Sh1, Hsh.
Qed.

(** *** The close event of a socket that is no longer the current one *)

Lemma set_readyState_other (i : nat) (r : ReadyState) (w : World) :
  socket (shard w) <> Some i ->
  shard (set_readyState i r w) = shard w
  /\ isOpen (set_readyState i r w) = isOpen w
  /\ timers (set_readyState i r w) = timers w
  /\ trace (set_readyState i r w) = trace w.
Proof.
  intros Hne. unfold set_readyState.
  destruct (sockets w !! i) as [sk|] eqn:Hi; [|done].
  cbn. repeat split. unfold isOpen, socket_readyState. cbn.
  destruct (socket (shard w)) as [j|]; [|done]. cbn.
  rewrite list_lookup_insert_ne; [done | congruence].
Qed.

(** X16: every socket the shard opens reports its close to the same
    [handleClose], which does not look at the socket the event comes from.
    When a socket that is no longer the current one (closed by the shard
    itself for a new connection) reports its close while the current socket
    is open, the state still becomes Disconnected, respectively Offline,
    and the heartbeat of the current connection is stopped; the current
    socket stays open. *)
Theorem X16_close_of_old_socket_stops_heartbeat
  (Hd : all_distinct close_codes = true)
  (i : nat) (sk : WebSocket) (code : Z) (reason : string) (w : World)
  (Hr : ready w = [])
  (Hi : sockets w !! i = Some sk)
  (Hcl : readyState sk <> CLOSED)
  (Hne : socket (shard w) <> Some i)
  (Ho : isOpen w = true)
  (Hc : code = TestingFinished \/ code_in code graceful_codes = true) :
  exists w',
    step (SocketClose i code reason) w = Some w'
    /\ state (shard w')
       = (if code =? TestingFinished then Offline else Disconnected)
    /\ isOpen w' = true
    /\ socket (shard w') = socket (shard w)
    /\ (forall n tm,
          timeoutId (heart (shard w)) = Some n
          \/ intervalId (heart (shard w)) = Some n ->
          timers w' !! n = Some tm -> active tm = false)
    /\ trace w' = trace w ++ [Emitted disconnected].
Proof.
  cbn [step]. rewrite Hr, Hi.
  rewrite bool_decide_eq_false_2 by done.
  rewrite (handleClose_own_codes_form Hd code reason [] _ Hc).
  eexists. split; [reflexivity|].
  destruct (set_readyState_other i CLOSED w Hne) as (Hsh & Hop & Hti & Htr).
  destruct (stopHeartbeating_keeps (set_readyState i CLOSED w))
    as (Ss & St & _ & _ & Sk).
  cbn [enqueue].
  split; [done|]. split; [|split; [|split]].
  - rewrite <- Ho, <- Hop. apply isOpen_same; cbn; [by rewrite Ss | done].
  - cbn. by rewrite Ss, Hsh.
  - intros n tm Hn. cbn.
    apply stopHeartbeating_inactive. by rewrite Hsh.
  - cbn. by rewrite St, Htr.
Qed.

(** *** requestMembers *)

(** X17: [requestMembers] tests the intent on the limit it is given and
    only then overwrites the limit with the number of user ids.  A request
    with limit 1 and a non-empty list of user ids therefore passes the
    guard whatever the intents are, and the payload that reaches the wire
    carries the number of user ids as its limit, the given query or none
    (never the empty string), and the nonce made of the guild id and the
    time; this in both modes of the cache. *)
Theorem X17_requestMembers_limit_from_userIds (guildId : string)
  (o : RequestGuildMembersOptions) (u : string) (us : list string)
  (now : Z) (c : nat) (w : World)
  (Hl : limit o = Some 1)
  (Hu : userIds o = Some (u :: us))
  (Hr : ready w = [])
  (Ho : isOpen w = true)
  (Ht : 1 <= tokens (bucket (shard w))) :
  exists i w1 w3,
    socket (shard w) = Some i
    /\ requestMembers guildId (Some o) now [KReturn c] w = Normal w1
    /\ run [Microtask; Microtask; Microtask] w1 = Some w3
    /\ trace w3
       = trace w
         ++ [Transmitted i
               (WireRequest
                  (ReqRequestGuildMembers guildId (query o)
                     (Z.of_nat (S (length us)))
                     (default false (presences o)) (Some (u :: us))
                     (guildId, now)))].
Proof.
  destruct (isOpen_socket w Ho) as [i Hi]. exists i.
  assert (Hg : missing_members_intent (intents (connection (shard w))) (Some o)
               = false).
  { unfold missing_members_intent. cbn. rewrite Hl. cbn.
    by rewrite andb_false_r. }
  assert (Hm : members_request guildId (limit_by_userIds (Some o)) now
               = ReqRequestGuildMembers guildId (query o)
                   (Z.of_nat (S (length us)))
                   (default false (presences o)) (Some (u :: us))
                   (guildId, now)).
  { unfold members_request, limit_by_userIds. rewrite Hu. cbn.
    rewrite ?Hu. by destruct (query o). }
  unfold requestMembers. rewrite Hg. cbv zeta. rewrite Hm.
  set (m := ReqRequestGuildMembers _ _ _ _ _ _).
  destruct (cacheEnabled (shard w)) eqn:Hce; cbn [negb].
  - unfold new_promise. cbv beta iota zeta.
    match goal with |- context [send m false [] ?x] => set (w2 := x) end.
    assert (H2 : ready w2 = [] /\ isOpen w2 = true /\ socket (shard w2) = Some i
                 /\ tokens (bucket (shard w2)) = tokens (bucket (shard w))
                 /\ trace w2 = trace w).
    { subst w2. cbn. split; [done|]. split; [|done].
      rewrite <- Ho. by apply isOpen_same. }
    destruct H2 as (R2 & O2 & I2 & T2 & Tr2). clearbody w2.
    destruct (send_microtasks_effect m false [] i (send m false [] w2))
      as (w3 & S3 & _ & _ & _ & _ & T3).
    { unfold send, checkOffline. rewrite O2. cbn. by rewrite R2. }
    { unfold send, checkOffline. rewrite O2. cbn.
      rewrite <- O2. by apply isOpen_same. }
    { unfold send, checkOffline. by rewrite O2. }
    { unfold send, checkOffline. rewrite O2. cbn. by rewrite T2. }
    exists (send m false [] w2), w3.
    split; [done|]. split; [done|]. split; [done|].
    rewrite T3. unfold send, checkOffline. rewrite O2. cbn. by rewrite Tr2.
  - destruct (send_microtasks_effect m false [KRequestMembersSent; KReturn c] i
                (send m false [KRequestMembersSent; KReturn c] w))
      as (w3 & S3 & _ & _ & _ & _ & T3).
    { unfold send, checkOffline. rewrite Ho. cbn. by rewrite Hr. }
    { unfold send, checkOffline. rewrite Ho. cbn.
      rewrite <- Ho. by apply isOpen_same. }
    { unfold send, checkOffline. by rewrite Ho. }
    { unfold send, checkOffline. by rewrite Ho. }
    exists (send m false [KRequestMembersSent; KReturn c] w), w3.
    split; [done|]. split; [done|]. split; [done|].
    rewrite T3. unfold send, checkOffline. by rewrite Ho.
Qed.

(** *** handleMessage *)

(** X18: what [handleMessage] does with the three kinds of message data.
    Data that is neither a string nor a Blob is dropped; a Blob is dropped
    too unless compression is configured: in both cases the shard is left
    exactly as it was, the heart included.  With compression a Blob is
    inflated and then handled as the string would have been, one microtask
    later. *)
Theorem X18_handleMessage_kinds (i : nat) (sk : WebSocket)
  (packet : DiscordGatewayPayload) (now : Z) (rnd : Q) (w : World)
  (Hr : ready w = [])
  (Hi : sockets w !! i = Some sk)
  (Hs : readyState sk = OPEN \/ readyState sk = CLOSING) :
  step (SocketMessage i MsgBinary now rnd) w = Some w
  /\ (compress (connection (shard w)) = false ->
      step (SocketMessage i (MsgBlob packet) now rnd) w = Some w)
  /\ (compress (connection (shard w)) = true ->
      run [SocketMessage i (MsgBlob packet) now rnd; Microtask] w
      = step (SocketMessage i (MsgText packet) now rnd) w)
  /\ step (SocketMessage i (MsgText packet) now rnd) w
     = Some (handleDiscordPacket packet now rnd [] w).
Proof.
  assert (Hb : bool_decide (readyState sk = OPEN)
               || bool_decide (readyState sk = CLOSING) = true).
  { destruct Hs as [-> | ->]; done. }
  cbn [step run]. rewrite Hr, Hi, Hb. cbn [handleMessage enqueue].
  split; [done|]. split; [by intros ->|]. split; [|done].
  intros ->. cbn [ready with_ready]. rewrite Hr. cbn [app run_frame].
  do 2 f_equal. destruct w. cbn in Hr. by subst.
Qed.

(** *** The first heartbeat *)

(** X19: the jitter timeout fires once.  Fired on an open shard it starts
    exactly one steady interval, whose period is the interval recorded by
    Hello, and stores its id in the heart; fired on a shard that is not
    open it starts nothing and changes nothing, so that no heartbeat is
    scheduled any more for this Hello. *)
Theorem X19_first_heartbeat_starts_interval (n : nat) (tm : Timer)
  (now now' : Z) (w : World)
  (Hr : ready w = [])
  (Hn : timers w !! n = Some tm)
  (Hk : kind tm = JitterTimeout)
  (Ha : active tm = true) :
  exists w',
    step (TimerFired n now) w = Some w'
    /\ step (TimerFired n now') w' = None
    /\ (isOpen w = true ->
        timers w'
        = <[n := Build_Timer JitterTimeout (period tm) false]> (timers w)
          ++ [Build_Timer SteadyInterval (interval (heart (shard w))) true]
        /\ intervalId (heart (shard w')) = Some (length (timers w))
        /\ lastBeat (heart (shard w')) = Some now)
    /\ (isOpen w = false ->
        timers w'
        = <[n := Build_Timer JitterTimeout (period tm) false]> (timers w)
        /\ shard w' = shard w /\ trace w' = trace w).
Proof.
  cbn [step]. rewrite Hr, Hn, Ha, Hk.
  set (w0 := with_timers _ w).
  assert (Hw0 : isOpen w0 = isOpen w /\ shard w0 = shard w
               /\ trace w0 = trace w /\ ready w0 = []
               /\ timers w0
                  = <[n := Build_Timer JitterTimeout (period tm) false]>
                      (timers w)).
  { subst w0. split; [by apply isOpen_same|]. cbn. by rewrite Hr. }
  destruct Hw0 as (O0 & S0 & T0 & R0 & Ti0). clearbody w0.
  assert (Hlook : (<[n := Build_Timer JitterTimeout (period tm) false]>
                     (timers w)) !! n
                  = Some (Build_Timer JitterTimeout (period tm) false)).
  { apply list_lookup_insert_eq. by eapply lookup_lt_Some. }
  eexists. split; [reflexivity|].
  unfold jitter_timeout. rewrite O0.
  destruct (isOpen w) eqn:Ho; cbn [negb].
  - unfold socket_send. rewrite O0, S0.
    destruct (isOpen_socket w Ho) as [i ->].
    cbn. rewrite S0, Ti0, R0, length_insert.
    split; [|split; [done | by intros [=]]].
    rewrite lookup_app_l by (rewrite length_insert; by eapply lookup_lt_Some).
    by rewrite Hlook.
  - rewrite R0, Ti0, Hlook. cbn.
    split; [done|]. split; [by intros [=] | done].
Qed.

(** *** The round trip time *)

Lemma identify_heart (k : Stack) (w : World) :
  heart (shard (identify k w)) = heart (shard w).
Proof. by destruct (identify_frame k w) as (_ & _ & -> & _). Qed.

Lemma resume_heart (k : Stack) (w : World) :
  heart (shard (resume k w)) = heart (shard w).
Proof. by destruct (resume_frame k w) as (_ & -> & _). Qed.

Lemma socket_send_shard (m : Wire) (w : World) :
  shard (socket_send m w) = shard w.
Proof. unfold socket_send. by repeat case_match. Qed.

(** X20: every packet, whatever its opcode, stamps [heart.lastAck] with the
    time it is handled at.  The round trip time is measured on the first
    packet after a heartbeat, which need not be the HeartbeatACK: if a
    heartbeat sent at a time other than 0 is not acknowledged yet, [rtt]
    becomes the time since that heartbeat; once acknowledged, later
    packets leave [rtt] as it is. *)
Theorem X20_round_trip_time (packet : DiscordGatewayPayload) (now : Z)
  (rnd : Q) (k : Stack) (w : World) :
  lastAck (heart (shard (handleDiscordPacket packet now rnd k w))) = Some now
  /\ (forall b,
        acknowledged (heart (shard w)) = false ->
        lastBeat (heart (shard w)) = Some b -> b <> 0 ->
        rtt (heart (shard (handleDiscordPacket packet now rnd k w)))
        = Some (now - b))
  /\ (acknowledged (heart (shard w)) = true
      \/ lastBeat (heart (shard w)) = None
      \/ lastBeat (heart (shard w)) = Some 0 ->
      rtt (heart (shard (handleDiscordPacket packet now rnd k w)))
      = rtt (heart (shard w))).
Proof.
  assert (Hh : lastAck (heart (shard (handleDiscordPacket packet now rnd k w)))
               = Some now
               /\ rtt (heart (shard (handleDiscordPacket packet now rnd k w)))
                  = rtt (heart_after_packet now (heart (shard w)))).
  { unfold handleDiscordPacket. cbv zeta.
    destruct (op packet);
      rewrite ?resume_heart, ?identify_heart;
      try match goal with
          | |- context [packet_epilogue packet k ?x] =>
              destruct (packet_epilogue_shard packet k x) as (-> & _)
          end;
      try done.
    - destruct (negb (isOpen _)); [by destruct k|].
      match goal with
      | |- context [packet_epilogue packet k ?x] =>
          destruct (packet_epilogue_shard packet k x) as (-> & _)
      end.
      cbn [emit observe with_trace shard]. by rewrite socket_send_shard.
    - destruct (is_null (d packet)); [done|].
      match goal with
      | |- context [packet_epilogue packet k ?x] =>
          destruct (packet_epilogue_shard packet k x) as (-> & _)
      end.
      match goal with
      | |- context [startHeartbeating ?i ?r ?x] =>
          destruct (startHeartbeating_effect i r x) as (Hs & _);
          cbv zeta in Hs
      end.
      destruct (negb (bool_decide _));
        cbn [emit observe with_trace shard set_bucket with_shard shard_bucket
             heart];
        by rewrite Hs. }
  destruct Hh as [-> ->]. split; [done|]. unfold heart_after_packet. cbn.
  split.
  - intros b -> -> Hb. cbn. unfold truthy_number.
    by rewrite (proj2 (Z.eqb_neq b 0) Hb).
  - intros [-> | [-> | ->]]; [by rewrite andb_false_r | done | done].
Qed.

End Further.
(** ** Concrete runs *)

#[local] Existing Instance discord_constants.
#[local] Existing Instance discord_platform.

(** [connected_world] is where the cold identify ends. *)
Lemma connected_world_reached :
  run (connected_events "S") example_world = Some connected_world.
Proof. vm_compute. reflexivity. Qed.

(** The four cases on the connected shard, for the codes 4001, 4014, 1006
    and 4000. *)
Lemma C1_handleClose_classes_witness :
  (exists w1,
     state (shard w1) = Identifying
     /\ handleClose UnknownOpcode "" [] connected_world
        = Normal (identify [] w1))
  /\ (exists w1,
        state (shard w1) = Offline
        /\ handleClose DisallowedIntents "" [] connected_world
           = Thrown "Discord gave no reason! GG! You broke Discord!" w1
        /\ waiters_untouched connected_world w1
        /\ ready w1 = ready connected_world)
  /\ (exists w1,
        state (shard w1) = Resuming
        /\ handleClose 1006 "" [] connected_world = Normal (resume [] w1))
  /\ (exists w1,
        state (shard w1) = Resuming
        /\ handleClose UnknownError "" [] connected_world
           = Normal (resume [] w1)).
Proof.
  pose proof (C1_handleClose_classes (H:=discord_constants) eq_refl) as Hc.
  split; [|split; [|split]].
  - destruct (Hc UnknownOpcode "" [] connected_world) as (Hre & _).
    apply Hre. reflexivity.
  - destruct (Hc DisallowedIntents "" [] connected_world) as (_ & Hfa & _).
    apply Hfa. reflexivity.
  - destruct (Hc 1006 "" [] connected_world) as (_ & _ & Hde & _).
    apply Hde. reflexivity.
  - destruct (Hc UnknownError "" [] connected_world) as (_ & _ & _ & Hru).
    apply Hru. reflexivity.
Defined.

(** C1 as stated fails in its last part: when the socket of an identify in
    flight closes with DisallowedIntents, the close handler throws and the
    error is uncaught, but the promise that [identify()] awaits stays
    pending with its READY resolver in place: the call neither fails nor
    returns. *)
Lemma C1_fatal_close_leaves_identify_pending :
  (fun w =>
     (state (shard w), promises w, ready w, resolves (shard w) !! READY,
      trace w))
  <$> run (identify_in_flight ++ [SocketClose 0 DisallowedIntents ""])
        example_world
  = Some
      (Offline, [Pending [KReturn 1]], [], Some (ResolveReady 0),
       [Emitted identifying; Emitted connecting; Emitted connected;
        Transmitted 0
          (WireRequest (ReqIdentify "Bot T" false "linux" 513 0 1 None));
        Emitted disconnected;
        Uncaught "Discord gave no reason! GG! You broke Discord!"]).
Proof. vm_compute. reflexivity. Qed.

(** C2 as stated fails: after the first heartbeat is transmitted
    [acknowledged] is [false], and the next packet, a dispatch and not a
    HeartbeatACK, sets it to [true]. *)
Lemma C2_dispatch_sets_acknowledged :
  (fun w => (acknowledged (heart (shard w)), last (trace w)))
  <$> run first_beat_events example_world
  = Some (false, Some (Transmitted 0 (WireHeartbeat None)))
  /\ op dispatch_packet <> HeartbeatACK
  /\ (fun w => acknowledged (heart (shard w)))
     <$> run (first_beat_events
              ++ [SocketMessage 0 (MsgText dispatch_packet) 10500 0])
           example_world
     = Some true.
Proof.
  split; [vm_compute; reflexivity|].
  split; [discriminate | vm_compute; reflexivity].
Qed.

(** C3 at the failing input: a heartbeat request with [s = 5] that arrives
    while the socket is closing (after [shutdown()]) leaves
    [previousSequenceNumber] at [null] and is not forwarded to [message];
    the same packet on the open socket stores [5]. *)
Theorem C3_heartbeat_request_skips_sequence :
  s heartbeat_request = Some 5
  /\ (fun w => (isOpen w, previousSequenceNumber (shard w), last (trace w)))
     <$> run (identify_in_flight
              ++ [CallShutdown 2; Microtask;
                  SocketMessage 0 (MsgText heartbeat_request) 300 0])
           example_world
     = Some (false, None, Some (Returned 2))
  /\ (fun w => (isOpen w, previousSequenceNumber (shard w), last (trace w)))
     <$> run (identify_in_flight
              ++ [SocketMessage 0 (MsgText heartbeat_request) 300 0])
           example_world
     = Some (true, Some 5, Some (Emitted (message heartbeat_request))).
Proof.
  split; [reflexivity|]. split; vm_compute; reflexivity.
Qed.



(** C6 as stated fails: with a sender parked in the offline queue, an
    identify waiting for READY and a sender parked in the bucket,
    [shutdown()] returns and the socket closes, and all three are still
    pending: nobody was woken, with or without a cancellation. *)
Lemma C6_waiters_outlive_shutdown :
  (fun w =>
     (offlineSendQueue (shard w), promises w, resolves (shard w) !! READY,
      waiting (bucket (shard w)), ready w,
      List.filter (fun o => match o with
                            | Returned _ | Failed _ _ | Woken _ => true
                            | _ => false
                            end) (trace w)))
  <$> run (waiting_events ++ shutdown_events) example_world
  = Some
      ([ResolvePlain 0],
       [Pending [KSendOnline example_request false; KReturn 2];
        Pending [KReturn 1]],
       Some (ResolveReady 1),
       [(1, [KSendToken example_request false; KReturn 3])],
       [],
       [Returned 4]).
Proof. vm_compute. reflexivity. Qed.

(** C7 as stated fails: a close with TestingFinished calls the
    [disconnected] callback too. *)
Lemma C7_testing_finished_disconnects :
  (fun w => (state (shard w), last (trace w)))
  <$> run (identify_in_flight ++ [SocketClose 0 TestingFinished ""])
        example_world
  = Some (Offline, Some (Emitted disconnected)).
Proof. vm_compute. reflexivity. Qed.

(** On the connected shard: both heartbeats clear the flag, and a dispatch
    after the first one sets it. *)
Lemma C2_acknowledged_by_any_packet_witness :
  acknowledged (heart (shard (jitter_timeout 300 connected_world))) = false
  /\ acknowledged (heart (shard (steady_interval 400 [] connected_world)))
     = false
  /\ acknowledged
       (heart (shard (handleDiscordPacket dispatch_packet 500 0 []
                        (jitter_timeout 300 connected_world)))) = true.
Proof.
  destruct C2_acknowledged_by_any_packet as (Hany & Hjit & Hsteady & _).
  split; [|split].
  - destruct (Hjit 300 connected_world) as (i & _ & _ & Hf); [reflexivity|].
    exact Hf.
  - destruct (Hsteady 400 [] connected_world) as (i & _ & _ & Hf);
      [reflexivity | reflexivity |]. exact Hf.
  - apply Hany.
Defined.

(** Intents 513 lack the GuildMembers bit, and no limit is given. *)
Lemma C8_requestMembers_missing_intent_witness :
  requestMembers "g" None 0 [] connected_world
  = Thrown "MISSING_INTENT_GUILD_MEMBERS" connected_world.
Proof.
  apply (C8_requestMembers_missing_intent "g" None 0 [] connected_world).
  split; [discriminate|]. split; [by left | reflexivity].
Defined.

(** A resolver drained by one READY is still queued and is called again by
    the next. *)
Lemma C9_offline_queue_never_shrinks_witness :
  offlineSendQueue (shard drained_world) = [ResolvePlain 0]
  /\ woken (trace drained_world) = [ResolvePlain 0]
  /\ offlineSendQueue
       (shard (packet_epilogue (ready_packet "S") [] drained_world))
     = [ResolvePlain 0]
  /\ woken (trace (packet_epilogue (ready_packet "S") [] drained_world))
     = [ResolvePlain 0; ResolvePlain 0]
  /\ woken (trace (packet_epilogue null_ready_packet [] drained_world))
     = [ResolvePlain 0].
Proof.
  destruct C9_offline_queue_never_shrinks as (Hdrain & _ & _ & _ & Hnull).
  destruct (Hdrain (ready_packet "S") [] drained_world) as [Hq Hw];
    [reflexivity|].
  destruct (Hnull null_ready_packet [] drained_world) as (Hn & _);
    [reflexivity|].
  split; [reflexivity|]. split; [reflexivity|]. split; [|split].
  - rewrite Hq. reflexivity.
  - rewrite Hw. reflexivity.
  - rewrite Hn. reflexivity.
Defined.

(** C9 as stated fails for a READY whose payload is [null]: with a sender
    parked in the offline queue and an identify waiting for READY, the
    handler throws at [payload.resume_gateway_url]; no resolver of the
    queue is called, both promises stay pending and the state is still
    Identifying. *)
Lemma C9_null_ready_drains_nothing :
  t null_ready_packet = Some "READY"
  /\ offlineSendQueue (shard parked_world) = [ResolvePlain 0]
  /\ (fun w =>
        (woken (trace w), promises w, ready w, state (shard w),
         last (trace w)))
     <$> run [SocketMessage 0 (MsgText null_ready_packet) 300 0] parked_world
     = Some
         ([],
          [Pending [KSendOnline example_request false; KReturn 2];
           Pending [KReturn 1]],
          [], Identifying,
          Some (Uncaught "TypeError: cannot read properties of null")).
Proof.
  split; [reflexivity|]. split; [reflexivity|]. vm_compute. reflexivity.
Qed.

(** Nobody waits on the new shard. *)
Lemma example_world_idle (c i : nat) : waits_on c i example_world.
Proof.
  split; [split; [|split; [|split; [|split]]]|]; cbn.
  - intros k Hin. by apply elem_of_nil in Hin.
  - intros k Hin. by apply elem_of_nil in Hin.
  - intros ms k Hin. by apply elem_of_nil in Hin.
  - intros n k Hin. by apply elem_of_nil in Hin.
  - intros j sk k _ Hl. by rewrite lookup_nil in Hl.
  - intros o Hin. by apply elem_of_nil in Hin.
Qed.

(** The socket of a [connect()] closes before it opens, and the close
    handler starts over on a second socket: whatever the second socket
    does, the caller of [connect()] waits on the first and is never
    resumed. *)
Lemma C10_connect_only_resolved_by_open_witness :
  exists w',
    run [SocketClose 0 1006 ""; SocketOpen 1; Microtask; Microtask; Microtask;
         Microtask; Microtask; Microtask]
      (connect [KReturn 1] example_world) = Some w'
    /\ waits_on 1 0 w'
    /\ exists sk',
         sockets w' !! 0%nat = Some sk'
         /\ readyState sk' = CLOSED
         /\ onopen sk' = Some [KReturn 1].
Proof.
  destruct (C10_connect_only_resolved_by_open (H:=discord_constants)
              (H0:=discord_platform))
    as (_ & _ & _ & _ & _ & Hpark & Hrun & _).
  pose proof (Hpark 1%nat [KReturn 1] example_world eq_refl
                (example_world_idle 1 0)) as Hw.
  destruct (run [SocketClose 0 1006 ""; SocketOpen 1; Microtask; Microtask;
                 Microtask; Microtask; Microtask; Microtask]
              (connect [KReturn 1] example_world)) as [w'|] eqn:Hr;
    [|vm_compute in Hr; discriminate].
  exists w'. split; [reflexivity|]. split.
  - apply (Hrun 1%nat 0%nat _ _ w' Hr); [|exact Hw].
    repeat constructor; discriminate.
  - vm_compute in Hr. injection Hr as <-.
    eexists. split; [reflexivity|]. split; reflexivity.
Defined.

(** C10 as stated fails: the promise of [connect()] has a rejection path.
    On a shard whose configured url is not a url, [new URL] throws inside
    [connect()]: the call is rejected at once, and so is an [identify()]
    that awaits it; no socket is made. *)
Lemma C10_connect_rejects_unparsable_url :
  (fun w => (sockets w, trace w)) <$> run [CallConnect 1] unparsable_world
  = Some ([], [Emitted connecting; Failed 1 "TypeError: Invalid URL"])
  /\ (fun w => (sockets w, trace w)) <$> run [CallIdentify 2] unparsable_world
     = Some
         ([],
          [Emitted identifying; Emitted connecting;
           Failed 2 "TypeError: Invalid URL"]).
Proof. split; vm_compute; reflexivity. Qed.

(** ** Instances of the further properties *)

Lemma X1_calculateSafeRequests_reserve_witness :
  exists q,
    41250 * (q - 1) < 60000 <= 41250 * q
    /\ calculateSafeRequests (shard connected_world) = Z.max 0 (120 - 2 * q)
    /\ 0 <= calculateSafeRequests (shard connected_world).
Proof.
  apply (X1_calculateSafeRequests_reserve (shard connected_world)).
  - reflexivity.
  - vm_compute. discriminate.
Defined.

Lemma X2_close_once_witness :
  isOpen (close 3000 "bye" connected_world) = false
  /\ close 3010 "again" (close 3000 "bye" connected_world)
     = close 3000 "bye" connected_world.
Proof.
  destruct (X2_close_once 3000 3010 "bye" "again" connected_world)
    as (_ & _ & H1 & H2).
  split; [exact H1 | exact H2].
Defined.

(** The new shard connects to the configured url; the shard whose url is
    not a url makes no socket and rejects the call. *)
Lemma X3_identify_always_connects_witness :
  (exists sk,
     sockets (identify [KReturn 1] example_world) !! 0%nat = Some sk
     /\ address sk = UrlVersioned "wss://gateway.discord.gg" 10)
  /\ sockets (identify [KReturn 1] unparsable_world) = []
  /\ exists msg,
       last (trace (identify [KReturn 1] unparsable_world))
       = Some (Failed 1 msg).
Proof.
  destruct (X3_identify_always_connects (H:=discord_constants)
              (H0:=discord_platform) [KReturn 1] example_world)
    as (_ & _ & _ & _ & _ & _ & Hok & _).
  destruct (X3_identify_always_connects (H:=discord_constants)
              (H0:=discord_platform) [KReturn 1] unparsable_world)
    as (_ & _ & _ & _ & _ & _ & _ & Hno).
  destruct (Hok eq_refl) as (sk & H1 & _ & _ & _ & H5).
  destruct (Hno eq_refl) as (Hlen & _ & _ & msg & Hmsg).
  split; [exists sk; split; [exact H1 | exact H5]|].
  split; [by apply nil_length_inv | by exists msg].
Defined.

(** The connected shard resumes on the url of its READY; the shard that was
    given a session id and never got a READY is rejected. *)
Lemma X4_resume_connects_to_resume_url_witness :
  (exists sk,
     sockets (resume [] connected_world) !! 1%nat = Some sk
     /\ address sk = UrlVersioned "wss://r" 10)
  /\ state (shard (resume [] connected_world)) = Resuming
  /\ can_resume restored_world = false
  /\ exists msg,
       last (trace (resume [KReturn 2] restored_world))
       = Some (Failed 2 msg).
Proof.
  destruct (X4_resume_connects_to_resume_url (H:=discord_constants)
              (H0:=discord_platform) [] connected_world eq_refl)
    as (Hst & _ & _ & _ & Hok & _).
  destruct (X4_resume_connects_to_resume_url (H:=discord_constants)
              (H0:=discord_platform) [KReturn 2] restored_world eq_refl)
    as (_ & _ & _ & _ & _ & Hno & Hempty).
  destruct (Hok eq_refl) as (sk & H1 & _ & _ & _ & H5 & _).
  pose proof (Hempty eq_refl eq_refl) as Hcan.
  destruct (Hno Hcan) as (_ & _ & _ & msg & Hmsg).
  split; [exists sk; split; [exact H1 | exact H5]|].
  split; [exact Hst|]. split; [exact Hcan | by exists msg].
Defined.

Lemma X5_handleClose_stops_heartbeat_witness :
  timers beating_world !! 1%nat = Some (Build_Timer SteadyInterval 41250 true)
  /\ step (TimerFired 1 50000)
       (outcome_world (handleClose 1006 "" [] beating_world))
     = None.
Proof.
  split; [reflexivity|].
  destruct (X5_handleClose_stops_heartbeat (H:=discord_constants) 1006 "" []
              beating_world 1%nat 50000 (or_intror eq_refl))
    as (_ & _ & H3).
  exact H3.
Defined.

Lemma X6_handleClose_own_codes_witness :
  exists w1,
    handleClose 3000 "Shard shutting down." [] connected_world = Normal w1
    /\ state (shard w1) = Disconnected
    /\ sockets w1 = sockets connected_world.
Proof.
  destruct (X6_handleClose_own_codes (H:=discord_constants) eq_refl 3000
              "Shard shutting down." [] connected_world (or_intror eq_refl))
    as (w1 & H1 & H2 & H3 & _).
  exists w1. split; [exact H1|]. split; [exact H2 | exact H3].
Defined.

Lemma X7_unacknowledged_tick_reidentifies_witness :
  acknowledged (heart (shard beating_world)) = false
  /\ state (shard (steady_interval 60000 [] beating_world)) = Identifying
  /\ socket (shard (steady_interval 60000 [] beating_world)) = Some 1%nat.
Proof.
  split; [reflexivity|].
  destruct (X7_unacknowledged_tick_reidentifies (H:=discord_constants)
              (H0:=discord_platform) 60000 [] beating_world) as (_ & Hz).
  destruct (Hz eq_refl eq_refl) as (i & sk & _ & _ & _ & _ & H5 & _ & Hok & _).
  destruct (Hok eq_refl) as [H6 _].
  split; [exact H5 | exact H6].
Defined.

(** The sample 0.25 gives 2000 ms, and the largest double below 1 gives
    5000 ms. *)
Lemma X8_invalid_session_backs_off_witness :
  delays (handleDiscordPacket invalid_session_packet 300 (1 # 4) []
            connected_world)
  = delays connected_world
    ++ [(2000, Some [KInvalidSessionDelayed invalid_session_packet])]
  /\ is_double ((2 ^ 53 - 1) # 2 ^ 53) = true
  /\ delays (handleDiscordPacket invalid_session_packet 300
               ((2 ^ 53 - 1) # 2 ^ 53) [] connected_world)
     = delays connected_world
       ++ [(5000, Some [KInvalidSessionDelayed invalid_session_packet])].
Proof.
  destruct (X8_invalid_session_backs_off (H:=discord_constants)
              (H0:=discord_platform)
              invalid_session_packet 300 (1 # 4) [] connected_world eq_refl)
    as (ms & _ & E1 & H1 & _).
  { split; [vm_compute; discriminate | reflexivity]. }
  destruct (X8_invalid_session_backs_off (H:=discord_constants)
              (H0:=discord_platform)
              invalid_session_packet 300 ((2 ^ 53 - 1) # 2 ^ 53) []
              connected_world eq_refl)
    as (ms' & _ & E2 & H2 & _).
  { split; [vm_compute; discriminate | reflexivity]. }
  assert (ms = 2000) as -> by (rewrite E1; vm_compute; reflexivity).
  assert (ms' = 5000) as -> by (rewrite E2; vm_compute; reflexivity).
  split; [exact H1|]. split; [vm_compute; reflexivity | exact H2].
Defined.

Lemma X9_drain_releases_parked_senders_witness :
  promises (packet_epilogue (ready_packet "S") [] parked_world) !! 0%nat
  = Some Settled
  /\ [KSendOnline example_request false; KReturn 2]
     ∈ ready (packet_epilogue (ready_packet "S") [] parked_world).
Proof.
  apply (X9_drain_releases_parked_senders
           (ready_packet "S") [] parked_world (ResolvePlain 0)
           [KSendOnline example_request false; KReturn 2]).
  - reflexivity.
  - vm_compute. constructor.
  - reflexivity.
  - discriminate.
Defined.

Lemma X10_sequence_counter_witness :
  previousSequenceNumber
    (shard (handleDiscordPacket dispatch_packet 300 0 [] connected_world))
  = Some 43.
Proof.
  apply (X10_sequence_counter (H:=discord_constants) (H0:=discord_platform)
           dispatch_packet 300 0 [] connected_world).
  - reflexivity.
  - reflexivity.
  - discriminate.
  - discriminate.
  - discriminate.
Defined.

Lemma X11_hello_starts_heartbeat_witness :
  interval
    (heart (shard (handleDiscordPacket (hello_packet 30000) 300 (1 # 4) []
                     connected_world)))
  = 30000
  /\ timers (handleDiscordPacket (hello_packet 30000) 300 (1 # 4) []
               connected_world)
     = timers connected_world ++ [Build_Timer JitterTimeout 7500 true].
Proof.
  destruct (X11_hello_starts_heartbeat (H:=discord_constants)
              (H0:=discord_platform)
              (hello_packet 30000) 30000 300 (1 # 4) [] connected_world
              eq_refl eq_refl)
    as (H1 & _ & H3 & _).
  - split; discriminate.
  - split; [exact H1 | exact H3].
Defined.

Lemma X12_ready_completes_identify_witness :
  state (shard (packet_epilogue (ready_packet "S") [] parked_world))
  = Connected
  /\ sessionId (shard (packet_epilogue (ready_packet "S") [] parked_world))
     = Some "S"
  /\ promises (packet_epilogue (ready_packet "S") [] parked_world) !! 1%nat
     = Some Settled
  /\ [KReturn 1] ∈ ready (packet_epilogue (ready_packet "S") [] parked_world).
Proof.
  destruct (X12_ready_completes_identify
              (ready_packet "S") "S" "wss://r" [] parked_world 1%nat
              [KReturn 1] eq_refl eq_refl eq_refl eq_refl)
    as (H1 & H2 & _ & _ & H5 & H6 & _).
  - discriminate.
  - reflexivity.
  - split; [exact H1|]. split; [exact H2|]. split; [exact H5 | exact H6].
Defined.

Lemma X13_invalid_session_starts_over_witness :
  promises (invalidSession_delayed invalid_session_packet [] parked_world)
    !! 1%nat = Some Settled
  /\ resolves
       (shard (invalidSession_delayed invalid_session_packet [] parked_world))
       !! READY = None
  /\ state
       (shard (invalidSession_delayed invalid_session_packet [] parked_world))
     = Identifying
  /\ exists sk,
       sockets (invalidSession_delayed invalid_session_packet [] parked_world)
         !! 1%nat = Some sk
       /\ readyState sk = CONNECTING.
Proof.
  destruct (X13_invalid_session_starts_over (H:=discord_constants)
              (H0:=discord_platform)
              invalid_session_packet [] parked_world READY 1%nat [KReturn 1]
              eq_refl eq_refl)
    as (H1 & _ & _ & H4 & H5 & Hok & _).
  - discriminate.
  - destruct (Hok eq_refl) as (sk & Hsk & Hc & _).
    split; [exact H1|]. split; [exact H4|]. split; [exact H5|].
    exists sk. split; [exact Hsk | exact Hc].
Defined.

Lemma X14_send_takes_one_token_witness :
  exists w',
    run [Microtask; Microtask; Microtask; Microtask]
      (send example_request false [KReturn 7] connected_world) = Some w'
    /\ trace w'
       = trace connected_world
         ++ [Transmitted 0 (WireRequest example_request); Returned 7]
    /\ tokens (bucket (shard w')) = 115.
Proof.
  destruct (X14_send_takes_one_token (H:=discord_constants) example_request
              false 7 connected_world) as (Hopen & _).
  destruct Hopen as (i & w' & Hi & Hrun & Htr & Htok & _).
  - reflexivity.
  - reflexivity.
  - vm_compute. discriminate.
  - exists w'. split; [exact Hrun|].
    injection Hi as <-. split; [exact Htr | exact Htok].
Defined.

Lemma X15_identify_puts_identify_on_the_wire_witness :
  exists m w',
    run (SocketOpen 0 :: replicate m Microtask)
      (identify [KReturn 1] example_world) = Some w'
    /\ ready w' = []
    /\ trace w'
       = [Emitted identifying; Emitted connecting; Emitted connected;
          Transmitted 0
            (WireRequest (ReqIdentify "Bot T" false "linux" 513 0 1 None))]
    /\ promises w' = [Pending [KReturn 1]].
Proof.
  destruct (X15_identify_puts_identify_on_the_wire (H:=discord_constants)
              (H0:=discord_platform) 1 example_world eq_refl)
    as (m & w' & Hrun & Hrd & Htr & Hp & _).
  - vm_compute. discriminate.
  - reflexivity.
  - exists m, w'. split; [exact Hrun|]. split; [exact Hrd|].
    split; [exact Htr | exact Hp].
Defined.

Lemma X16_close_of_old_socket_stops_heartbeat_witness :
  exists w',
    step (SocketClose 0 3066 "Re-identifying closure of old connection.")
      superseded_world = Some w'
    /\ state (shard w') = Disconnected
    /\ isOpen w' = true
    /\ (forall tm, timers w' !! 2%nat = Some tm -> active tm = false).
Proof.
  destruct (X16_close_of_old_socket_stops_heartbeat (H:=discord_constants)
              eq_refl 0%nat
              (Build_WebSocket CLOSING
                 (UrlVersioned "wss://gateway.discord.gg" 10) None
                 (Some (3066, "Re-identifying closure of old connection.")))
              3066 "Re-identifying closure of old connection."
              superseded_world eq_refl eq_refl)
    as (w' & H1 & H2 & H3 & _ & H5 & _).
  - discriminate.
  - discriminate.
  - reflexivity.
  - right. reflexivity.
  - exists w'. split; [exact H1|]. split; [exact H2|]. split; [exact H3|].
    intros tm. apply H5. left. reflexivity.
Defined.

Lemma X17_requestMembers_limit_from_userIds_witness :
  missing_members_intent 513 (Some three_members) = false
  /\ exists i w1 w3,
       socket (shard connected_world) = Some i
       /\ requestMembers "G" (Some three_members) 500 [KReturn 8]
            connected_world = Normal w1
       /\ run [Microtask; Microtask; Microtask] w1 = Some w3
       /\ trace w3
          = trace connected_world
            ++ [Transmitted i
                  (WireRequest
                     (ReqRequestGuildMembers "G" None 3 false
                        (Some ["1"; "2"; "3"]) ("G", 500)))].
Proof.
  split; [reflexivity|].
  apply (X17_requestMembers_limit_from_userIds (H:=discord_constants) "G"
           three_members "1" ["2"; "3"] 500 8 connected_world).
  - reflexivity.
  - reflexivity.
  - reflexivity.
  - reflexivity.
  - vm_compute. discriminate.
Defined.

Lemma X18_handleMessage_kinds_witness :
  step (SocketMessage 0 (MsgBlob dispatch_packet) 300 0) connected_world
  = Some connected_world
  /\ run [SocketMessage 0 (MsgBlob (hello_packet 41250)) 100 (1 # 4);
          Microtask] compressed_world
     = step (SocketMessage 0 (MsgText (hello_packet 41250)) 100 (1 # 4))
         compressed_world.
Proof.
  split.
  - destruct (X18_handleMessage_kinds (H:=discord_constants) 0%nat
                (Build_WebSocket OPEN
                   (UrlVersioned "wss://gateway.discord.gg" 10) None None)
                dispatch_packet 300 0 connected_world eq_refl eq_refl
                (or_introl eq_refl))
      as (_ & H2 & _).
    apply H2. reflexivity.
  - destruct (X18_handleMessage_kinds (H:=discord_constants) 0%nat
                (Build_WebSocket OPEN
                   (UrlVersioned "wss://gateway.discord.gg" 10) None None)
                (hello_packet 41250) 100 (1 # 4) compressed_world eq_refl
                eq_refl (or_introl eq_refl))
      as (_ & _ & H3 & _).
    apply H3. reflexivity.
Defined.

Lemma X19_first_heartbeat_starts_interval_witness :
  exists w',
    step (TimerFired 0 10413) hello_world = Some w'
    /\ step (TimerFired 0 99999) w' = None
    /\ timers w'
       = [Build_Timer JitterTimeout 10313 false;
          Build_Timer SteadyInterval 41250 true]
    /\ intervalId (heart (shard w')) = Some 1%nat.
Proof.
  destruct (X19_first_heartbeat_starts_interval (H:=discord_constants) 0%nat
              (Build_Timer JitterTimeout 10313 true) 10413 99999 hello_world
              eq_refl eq_refl eq_refl eq_refl)
    as (w' & H1 & H2 & H3 & _).
  destruct (H3 eq_refl) as (H4 & H5 & _).
  exists w'. split; [exact H1|]. split; [exact H2|].
  split; [exact H4 | exact H5].
Defined.

Lemma X20_round_trip_time_witness :
  lastBeat (heart (shard beating_world)) = Some 10413
  /\ rtt (heart (shard (handleDiscordPacket dispatch_packet 10500 0 []
                          beating_world)))
     = Some 87.
Proof.
  split; [reflexivity|].
  destruct (X20_round_trip_time (H:=discord_constants) dispatch_packet 10500 0
              [] beating_world) as (_ & Hb & _).
  apply (Hb 10413); [reflexivity | reflexivity | discriminate].
Defined.
